(** * AudioMid native core: bounded audio buffer and sample-format converter

    A shallow embedding of [src/native/audio-capture/audio_buffer.cpp] and
    [src/native/audio-capture/audio_format_converter.cpp], and the properties
    of the repository's specification that concern them.

    Modelling conventions.
    - Fixed-width integers are [Z] with the wrap-around written out
      ([size_t], [uint64_t], [uint32_t], [int32_t], [int16_t]).  The targets
      of the addon are 64-bit (x86-64, arm64), so [size_t] has 64 bits.
    - [sizeof(AudioChunk)] is fixed by the C++ ABI, not by the source; the
      buffer is modelled for an arbitrary value of it (40 with the usual
      64-bit standard libraries).
    - [std::deque] and [std::vector] are lists, front of the queue first.
    - The mutex serialises the public operations; each one is a function on
      the buffer state.  The clock read by [GetCurrentTimestamp] is an input
      of the pushing operations.
    - Undefined behaviour of the C++ program (integer division by zero, a
      write past the end of a vector) is an explicit outcome, never hidden in
      Rocq's total division.
    - [float] is IEEE-754 binary32, through the Standard Library's
      [SpecFloat] with precision 24 and [emax] 128.  The host is
      little-endian, which is what [reinterpret_cast] of the byte buffer
      relies on. *)

From Stdlib Require Import ZArith List Lia Bool SpecFloat.
From Stdlib Require Import Strings.Byte.
Import ListNotations.
Local Open Scope Z_scope.

(** ** Machine integers *)

Module Machine.

(** Unsigned [w]-bit wrap-around. *)
Definition wrap (w z : Z) : Z := z mod 2 ^ w.

(** Two's complement [w]-bit wrap-around. *)
Definition swrap (w z : Z) : Z := (z + 2 ^ (w - 1)) mod 2 ^ w - 2 ^ (w - 1).

Definition size_t (z : Z) : Z := wrap 64 z.
Definition uint64_t (z : Z) : Z := wrap 64 z.
Definition uint32_t (z : Z) : Z := wrap 32 z.
Definition int32_t (z : Z) : Z := swrap 32 z.
Definition int16_t (z : Z) : Z := swrap 16 z.

Definition is_int16 (z : Z) : Prop := -32768 <= z <= 32767.
Definition is_int32 (z : Z) : Prop := -2147483648 <= z <= 2147483647.

(** Value of a byte, 0..255. *)
Definition u8 (b : byte) : Z := Z.of_N (Byte.to_N b).

End Machine.
Import Machine.

(** ** Outcomes of operations that can leave defined behaviour *)

Inductive fault : Type :=
| DivisionByZero
| OutOfBounds.

Inductive outcome (A : Type) : Type :=
| Value (a : A)
| Undefined (f : fault).
Arguments Value {A} a.
Arguments Undefined {A} f.

Definition bind {A B : Type} (x : outcome A) (k : A -> outcome B) : outcome B :=
  match x with
  | Value a => k a
  | Undefined f => Undefined f
  end.

Notation "'do' x <- e ; k" := (bind e (fun x => k))
  (at level 10, x name, e at level 100, k at level 200).

(** ** Data model (audio_buffer.h, audio_capture_base.h) *)

Module AudioChunk.
Record t : Type := Build {
  data : list Z;          (* std::vector<int16_t> *)
  timestamp : Z;          (* uint64_t *)
  sampleRate : Z;         (* uint32_t *)
  channels : Z            (* uint16_t *)
}.
End AudioChunk.

Module Float32AudioChunk.
Record t : Type := Build {
  data : list spec_float; (* std::vector<float> *)
  timestamp : Z;
  sampleRate : Z;
  channels : Z
}.
End Float32AudioChunk.

Module AudioFormat.
Record t : Type := Build {
  sampleRate : Z;         (* uint32_t *)
  channels : Z;           (* uint16_t *)
  bitsPerSample : Z;      (* uint16_t *)
  bytesPerFrame : Z;
  blockAlign : Z;
  isFloat : bool;
  isNonInterleaved : bool;
  formatFlags : Z
}.
End AudioFormat.

Module AudioSample.
Record t : Type := Build {
  data : list byte;       (* std::vector<uint8_t> *)
  format : AudioFormat.t;
  timestamp : Z;
  frameCount : Z
}.
End AudioSample.

(** ** The bounded buffer (audio_buffer.cpp) *)

Module AudioBuffer.

Record t : Type := Build {
  chunks_ : list AudioChunk.t;               (* std::deque<AudioChunk> *)
  float32Chunks_ : list Float32AudioChunk.t; (* std::deque<Float32AudioChunk> *)
  maxSizeBytes_ : Z;                         (* size_t *)
  currentSizeBytes_ : Z                      (* size_t *)
}.

(** [AudioBuffer::AudioBuffer(maxSizeBytes)] *)
Definition AudioBuffer (maxSizeBytes : Z) : t :=
  {| chunks_ := []; float32Chunks_ := [];
     maxSizeBytes_ := maxSizeBytes; currentSizeBytes_ := 0 |}.

(** The default argument of the constructor, 5 * 1024 * 1024. *)
Definition default_maxSizeBytes : Z := 5 * 1024 * 1024.

Section WithLayout.

(** [sizeof(AudioChunk)] *)
Variable sizeof_AudioChunk : Z.

(** [GetChunkSize]: sizeof(AudioChunk) + data.size() * sizeof(int16_t) *)
Definition GetChunkSize (chunk : AudioChunk.t) : Z :=
  size_t (sizeof_AudioChunk
          + size_t (Z.of_nat (length (AudioChunk.data chunk)) * 2)).

(** The [while] loop of [TrimToSize], on the counter and the PCM16
    queue: each round removes the front chunk. *)
Fixpoint trim_loop (maxSizeBytes currentSizeBytes : Z)
         (chunks : list AudioChunk.t) : Z * list AudioChunk.t :=
  match chunks with
  | [] => (currentSizeBytes, [])
  | oldestChunk :: rest =>
      if maxSizeBytes <? currentSizeBytes
      then trim_loop maxSizeBytes
             (size_t (currentSizeBytes - GetChunkSize oldestChunk)) rest
      else (currentSizeBytes, chunks)
  end.

Definition TrimToSize (b : t) : t :=
  let '(cur, q) := trim_loop (maxSizeBytes_ b) (currentSizeBytes_ b) (chunks_ b) in
  {| chunks_ := q; float32Chunks_ := float32Chunks_ b;
     maxSizeBytes_ := maxSizeBytes_ b; currentSizeBytes_ := cur |}.

(** [Push]; [now] is the value [GetCurrentTimestamp] returns. *)
Definition Push (audioData : list Z) (sampleRate channels now : Z) (b : t) : t :=
  match audioData with
  | [] => b
  | _ :: _ =>
      let chunk := {| AudioChunk.data := audioData;
                      AudioChunk.timestamp := now;
                      AudioChunk.sampleRate := sampleRate;
                      AudioChunk.channels := channels |} in
      let chunkSize := GetChunkSize chunk in
      TrimToSize
        {| chunks_ := chunks_ b ++ [chunk];
           float32Chunks_ := float32Chunks_ b;
           maxSizeBytes_ := maxSizeBytes_ b;
           currentSizeBytes_ := size_t (currentSizeBytes_ b + chunkSize) |}
  end.

(** [PushFloat32]; the chunk size is data.size() * sizeof(float). *)
Definition PushFloat32 (audioData : list spec_float)
           (sampleRate channels now : Z) (b : t) : t :=
  match audioData with
  | [] => b
  | _ :: _ =>
      let chunk := {| Float32AudioChunk.data := audioData;
                      Float32AudioChunk.timestamp := now;
                      Float32AudioChunk.sampleRate := sampleRate;
                      Float32AudioChunk.channels := channels |} in
      let chunkSize := size_t (Z.of_nat (length audioData) * 4) in
      TrimToSize
        {| chunks_ := chunks_ b;
           float32Chunks_ := float32Chunks_ b ++ [chunk];
           maxSizeBytes_ := maxSizeBytes_ b;
           currentSizeBytes_ := size_t (currentSizeBytes_ b + chunkSize) |}
  end.

(** [Pop]: [None] is the [false] return, which leaves the out-parameter
    alone; [Some chunk] is [true] with the chunk moved out. *)
Definition Pop (b : t) : option AudioChunk.t * t :=
  match chunks_ b with
  | [] => (None, b)
  | chunk :: rest =>
      (Some chunk,
       {| chunks_ := rest; float32Chunks_ := float32Chunks_ b;
          maxSizeBytes_ := maxSizeBytes_ b;
          currentSizeBytes_ := size_t (currentSizeBytes_ b - GetChunkSize chunk) |})
  end.

(** The loop of [PopMultiple]:
    while (!chunks_.empty() && count < maxChunks). *)
Fixpoint pop_loop (maxChunks count currentSizeBytes : Z)
         (chunks result : list AudioChunk.t)
  : Z * list AudioChunk.t * list AudioChunk.t :=
  match chunks with
  | [] => (currentSizeBytes, [], result)
  | chunk :: rest =>
      if count <? maxChunks
      then pop_loop maxChunks (count + 1)
             (size_t (currentSizeBytes - GetChunkSize chunk))
             rest (result ++ [chunk])
      else (currentSizeBytes, chunks, result)
  end.

Definition PopMultiple (maxChunks : Z) (b : t) : list AudioChunk.t * t :=
  let '(cur, q, result) :=
    pop_loop maxChunks 0 (currentSizeBytes_ b) (chunks_ b) [] in
  (result,
   {| chunks_ := q; float32Chunks_ := float32Chunks_ b;
      maxSizeBytes_ := maxSizeBytes_ b; currentSizeBytes_ := cur |}).

(** [SetMaxSize] *)
Definition SetMaxSize (maxSizeBytes : Z) (b : t) : t :=
  TrimToSize
    {| chunks_ := chunks_ b; float32Chunks_ := float32Chunks_ b;
       maxSizeBytes_ := maxSizeBytes; currentSizeBytes_ := currentSizeBytes_ b |}.

End WithLayout.

(** The loop of [PopMultipleFloat32]. *)
Fixpoint pop_loop_float32 (maxChunks count currentSizeBytes : Z)
         (chunks result : list Float32AudioChunk.t)
  : Z * list Float32AudioChunk.t * list Float32AudioChunk.t :=
  match chunks with
  | [] => (currentSizeBytes, [], result)
  | chunk :: rest =>
      if count <? maxChunks
      then pop_loop_float32 maxChunks (count + 1)
             (size_t (currentSizeBytes
                      - size_t (Z.of_nat (length (Float32AudioChunk.data chunk)) * 4)))
             rest (result ++ [chunk])
      else (currentSizeBytes, chunks, result)
  end.

Definition PopMultipleFloat32 (maxChunks : Z) (b : t)
  : list Float32AudioChunk.t * t :=
  let '(cur, q, result) :=
    pop_loop_float32 maxChunks 0 (currentSizeBytes_ b) (float32Chunks_ b) [] in
  (result,
   {| chunks_ := chunks_ b; float32Chunks_ := q;
      maxSizeBytes_ := maxSizeBytes_ b; currentSizeBytes_ := cur |}).

Definition Clear (b : t) : t :=
  {| chunks_ := []; float32Chunks_ := [];
     maxSizeBytes_ := maxSizeBytes_ b; currentSizeBytes_ := 0 |}.

Definition GetSize (b : t) : Z := currentSizeBytes_ b.

(** [IsEmpty] looks at the PCM16 queue only. *)
Definition IsEmpty (b : t) : bool :=
  match chunks_ b with [] => true | _ :: _ => false end.

(** The range-for of [GetBufferedDurationMs]; the division by
    [chunk.channels] is an integer division, undefined for 0. *)
Fixpoint duration_loop (chunks : list AudioChunk.t)
         (totalSamples avgSampleRate : Z) : outcome (Z * Z) :=
  match chunks with
  | [] => Value (totalSamples, avgSampleRate)
  | chunk :: rest =>
      if AudioChunk.channels chunk =? 0 then Undefined DivisionByZero
      else duration_loop rest
             (uint64_t (totalSamples
                        + Z.of_nat (length (AudioChunk.data chunk))
                          / AudioChunk.channels chunk))
             (AudioChunk.sampleRate chunk)
  end.

Definition GetBufferedDurationMs (b : t) : outcome Z :=
  match chunks_ b with
  | [] => Value 0
  | _ :: _ =>
      do r <- duration_loop (chunks_ b) 0 0;
      let '(totalSamples, avgSampleRate) := r in
      if avgSampleRate =? 0 then Value 0
      else Value (uint64_t (totalSamples * 1000) / avgSampleRate)
  end.

(** *** Sequences of public operations *)

(** The operations of a producer: the ones that run the eviction pass. *)
Inductive producer_op : Type :=
| DoPush (audioData : list Z) (sampleRate channels now : Z)
| DoPushFloat32 (audioData : list spec_float) (sampleRate channels now : Z)
| DoSetMaxSize (maxSizeBytes : Z).

(** All state-changing public operations; the values the popping
    operations return are dropped here. *)
Inductive op : Type :=
| Produce (p : producer_op)
| DoPop
| DoPopMultiple (maxChunks : Z)
| DoPopMultipleFloat32 (maxChunks : Z)
| DoClear.

Definition produce (sizeof_AudioChunk : Z) (p : producer_op) (b : t) : t :=
  match p with
  | DoPush audioData sampleRate channels now =>
      Push sizeof_AudioChunk audioData sampleRate channels now b
  | DoPushFloat32 audioData sampleRate channels now =>
      PushFloat32 sizeof_AudioChunk audioData sampleRate channels now b
  | DoSetMaxSize maxSizeBytes => SetMaxSize sizeof_AudioChunk maxSizeBytes b
  end.

Definition step (sizeof_AudioChunk : Z) (o : op) (b : t) : t :=
  match o with
  | Produce p => produce sizeof_AudioChunk p b
  | DoPop => snd (Pop sizeof_AudioChunk b)
  | DoPopMultiple maxChunks => snd (PopMultiple sizeof_AudioChunk maxChunks b)
  | DoPopMultipleFloat32 maxChunks => snd (PopMultipleFloat32 maxChunks b)
  | DoClear => Clear b
  end.

(** The buffer after the operations [ops], first one first. *)
Definition run (sizeof_AudioChunk : Z) (ops : list op) (b : t) : t :=
  fold_left (fun b o => step sizeof_AudioChunk o b) ops b.

Definition run_producer (sizeof_AudioChunk : Z) (ops : list producer_op) (b : t) : t :=
  fold_left (fun b p => produce sizeof_AudioChunk p b) ops b.

(** *** Quantities the specification speaks of *)

(** Bytes the specification charges for a PCM16 chunk and for a float32
    chunk, as unbounded integers. *)
Definition pcm16_bytes (sizeof_AudioChunk : Z) (c : AudioChunk.t) : Z :=
  sizeof_AudioChunk + 2 * Z.of_nat (length (AudioChunk.data c)).

Definition float32_bytes (c : Float32AudioChunk.t) : Z :=
  4 * Z.of_nat (length (Float32AudioChunk.data c)).

Definition sumZ (l : list Z) : Z := fold_right Z.add 0 l.

(** Sum of the per-chunk byte sizes over both queues. *)
Definition queued_bytes (sizeof_AudioChunk : Z) (b : t) : Z :=
  sumZ (map (pcm16_bytes sizeof_AudioChunk) (chunks_ b))
  + sumZ (map float32_bytes (float32Chunks_ b)).

(** The byte counter is within the budget unless the PCM16 queue is
    empty. *)
Definition within_budget (b : t) : Prop :=
  chunks_ b <> [] -> currentSizeBytes_ b <= maxSizeBytes_ b.

(** The counter is the sum of the queued chunk sizes, as a [size_t]. *)
Definition accounted (sizeof_AudioChunk : Z) (b : t) : Prop :=
  currentSizeBytes_ b = size_t (queued_bytes sizeof_AudioChunk b).

(** The counter after [k] rounds of eviction. *)
Fixpoint evicted_counter (sizeof_AudioChunk : Z) (k : nat) (cur : Z)
         (q : list AudioChunk.t) : Z :=
  match k, q with
  | S k', c :: rest =>
      evicted_counter sizeof_AudioChunk k'
        (size_t (cur - GetChunkSize sizeof_AudioChunk c)) rest
  | _, _ => cur
  end.

(** Frames held by the PCM16 queue: samples over channels, chunk by
    chunk. *)
Definition queued_frames (q : list AudioChunk.t) : Z :=
  sumZ (map (fun c => Z.of_nat (length (AudioChunk.data c)) / AudioChunk.channels c) q).

(** Samples held by the PCM16 queue, all channels together. *)
Definition total_samples (q : list AudioChunk.t) : Z :=
  sumZ (map (fun c => Z.of_nat (length (AudioChunk.data c))) q).

(** The sample rate seen last: the one of the chunk at the back. *)
Definition last_sampleRate (q : list AudioChunk.t) : Z :=
  last (map AudioChunk.sampleRate q) 0.

(** Duration in milliseconds as the specification words it. *)
Definition duration_ms_spec (q : list AudioChunk.t) : Z :=
  match q with
  | [] => 0
  | _ :: _ =>
      if last_sampleRate q =? 0 then 0
      else queued_frames q * 1000 / last_sampleRate q
  end.

End AudioBuffer.

(** ** IEEE-754 binary32 *)

Module Float32.

Definition prec : Z := 24.
Definition emax : Z := 128.

Definition add : spec_float -> spec_float -> spec_float := SFadd prec emax.
Definition mul : spec_float -> spec_float -> spec_float := SFmul prec emax.
Definition div : spec_float -> spec_float -> spec_float := SFdiv prec emax.

(** Conversion of an integer to [float], round to nearest even. *)
Definition of_int (z : Z) : spec_float := binary_normalize prec emax z 0 false.

(** The float a 32-bit pattern denotes: sign bit 31, biased exponent in
    bits 30..23, fraction in bits 22..0.  [SpecFloat] has one NaN, so the
    payload of a NaN is not kept. *)
Definition of_bits (bits : Z) : spec_float :=
  let s := Z.testbit bits 31 in
  let e := Z.land (Z.shiftr bits 23) 255 in
  let m := Z.land bits 8388607 in
  if e =? 0 then
    match m with
    | Zpos p => S754_finite s p (-149)
    | _ => S754_zero s
    end
  else if e =? 255 then
    (if m =? 0 then S754_infinity s else S754_nan)
  else
    match m + 8388608 with
    | Zpos p => S754_finite s p (e - 150)
    | _ => S754_nan
    end.

Definition is_nan (x : spec_float) : bool :=
  match x with S754_nan => true | _ => false end.

(** [std::min(a, b)] is [(b < a) ? b : a]; [std::max(a, b)] is
    [(a < b) ? b : a]. *)
Definition std_min (a b : spec_float) : spec_float := if SFltb b a then b else a.
Definition std_max (a b : spec_float) : spec_float := if SFltb a b then b else a.

(** [std::fmin] and [std::fmax]: a NaN argument yields the other one. *)
Definition fmin (x y : spec_float) : spec_float :=
  if is_nan x then y else if is_nan y then x else if SFltb y x then y else x.
Definition fmax (x y : spec_float) : spec_float :=
  if is_nan x then y else if is_nan y then x else if SFltb x y then y else x.

(** [m / 2^d] rounded to the nearest integer, ties to even ([0 < d]). *)
Definition round_half_even (m d : Z) : Z :=
  let q := m / 2 ^ d in
  let r := m mod 2 ^ d in
  let half := 2 ^ (d - 1) in
  if r <? half then q
  else if half <? r then q + 1
  else if Z.even q then q else q + 1.

Definition LONG_MIN : Z := - 2 ^ 63.

(** [std::lrintf] in the default rounding mode.  For a NaN, an infinity
    or a value outside [long] the C result is unspecified; x86-64 and
    arm64 glibc return [LONG_MIN], which is what is used here. *)
Definition lrintf (x : spec_float) : Z :=
  match x with
  | S754_zero _ => 0
  | S754_finite s m e =>
      let n := if 0 <=? e then Zpos m * 2 ^ e
               else round_half_even (Zpos m) (- e) in
      let v := if s then - n else n in
      if (LONG_MIN <=? v) && (v <? 2 ^ 63) then v else LONG_MIN
  | _ => LONG_MIN
  end.

Definition zero : spec_float := S754_zero false.
Definition one : spec_float := of_int 1.
Definition minus_one : spec_float := of_int (-1).
Definition c32768 : spec_float := of_int 32768.
Definition c2147483648 : spec_float := of_int 2147483648.

End Float32.

(** ** The format converter (audio_format_converter.cpp) *)

Module AudioFormatConverter.

(** *** Typed reads of the byte buffer *)

(** Unsigned little-endian value of a run of bytes. *)
Fixpoint le_combine (l : list byte) : Z :=
  match l with
  | [] => 0
  | b :: rest => u8 b + 256 * le_combine rest
  end.

Definition load (data : list byte) (offset n : nat) : Z :=
  le_combine (firstn n (skipn offset data)).

(** [reinterpret_cast<const int16_t*>(data)[i]] and its siblings. *)
Definition load_int16 (data : list byte) (i : nat) : Z :=
  int16_t (load data (2 * i) 2).
Definition load_int32 (data : list byte) (i : nat) : Z :=
  int32_t (load data (4 * i) 4).
Definition load_float (data : list byte) (i : nat) : spec_float :=
  Float32.of_bits (load data (4 * i) 4).

(** [input.data[i]] *)
Definition byte_at (data : list byte) (i : nat) : Z := u8 (nth i data x00).

(** *** Sample conversions *)

(** One round of the loop of [FloatToInt16]: clamp with [std::max] and
    [std::min], clamp again with [std::fmax] and [std::fmin], scale,
    [lrintf], cast. *)
Definition float_to_int16 (sample : spec_float) : Z :=
  let sample := Float32.std_max Float32.minus_one
                  (Float32.std_min Float32.one sample) in
  let sample := Float32.fmax Float32.minus_one
                  (Float32.fmin Float32.one sample) in
  int16_t (Float32.lrintf (Float32.mul sample Float32.c32768)).

(** [FloatToInt16(samples, count)], on the [count] floats read at
    [samples]. *)
Definition FloatToInt16 (samples : list spec_float) : list Z :=
  map float_to_int16 samples.

(** The conversion written inline in the non-interleaved branch of
    [ConvertToPCM16]. *)
Definition planar_float_to_int16 (x : spec_float) : Z :=
  let sample := Float32.fmax Float32.minus_one (Float32.fmin Float32.one x) in
  int16_t (Float32.lrintf (Float32.mul sample Float32.c32768)).

(** [Int32ToInt16(samples, count)] *)
Definition Int32ToInt16 (samples : list Z) : list Z :=
  map (fun sample32 => int16_t (Z.shiftr sample32 16)) samples.

(** One round of the 24-bit loop of [ConvertToPCM16], on the three bytes
    of sample [i].  The literal 0xFF000000 is an [unsigned int], so the
    [|=] is computed on 32 unsigned bits and converted back. *)
Definition decode24 (b0 b1 b2 : Z) : Z :=
  let sample24 := Z.lor (Z.lor b0 (Z.shiftl b1 8)) (Z.shiftl b2 16) in
  let sample24 :=
    if Z.land sample24 8388608 =? 0 then sample24
    else int32_t (Z.lor (uint32_t sample24) 4278190080) in
  int16_t (Z.shiftr sample24 8).

(** The loop of [StereoToMono], two samples a round. *)
Fixpoint stereo_loop (stereoData : list Z) : list Z :=
  match stereoData with
  | l :: r :: rest =>
      int16_t (Z.shiftr (int32_t (l + r)) 1) :: stereo_loop rest
  | _ => []
  end.

Definition StereoToMono (stereoData : list Z) : list Z :=
  if Z.of_nat (length stereoData) mod 2 =? 0
  then stereo_loop stereoData
  else [].

(** *** ConvertToMonoFloat32 *)

(** The sum over the channels of one frame. *)
Definition frame_sum (channels : Z) (samples : list spec_float) (frame : nat)
  : spec_float :=
  fold_left
    (fun sum ch => Float32.add sum (nth (frame * Z.to_nat channels + ch) samples Float32.zero))
    (seq 0 (Z.to_nat channels)) Float32.zero.

(** Step 1 of [ConvertToMonoFloat32]: the raw bytes as float samples.
    [None] is the early return of the unsupported branch. *)
Definition float32_step1 (input : AudioSample.t)
  : outcome (option (list spec_float)) :=
  let data := AudioSample.data input in
  let fmt := AudioSample.format input in
  let channels := AudioFormat.channels fmt in
  let size := Z.of_nat (length data) in
  if AudioFormat.bitsPerSample fmt =? 16 then
    let sampleCount := size / 2 in
    Value (Some (map (fun i => Float32.div (Float32.of_int (load_int16 data i))
                                           Float32.c32768)
                     (seq 0 (Z.to_nat sampleCount))))
  else if AudioFormat.bitsPerSample fmt =? 32 then
    if 4 * channels =? 0 then Undefined DivisionByZero
    else
      let frameCount := size / (4 * channels) in
      let totalSamples := size_t (frameCount * channels) in
      if AudioFormat.isFloat fmt then
        if AudioFormat.isNonInterleaved fmt && (channels =? 2) then
          Value (Some (flat_map
                         (fun frame =>
                            [load_float data frame;
                             load_float data (Z.to_nat frameCount + frame)])
                         (seq 0 (Z.to_nat frameCount))))
        else
          Value (Some (map (load_float data) (seq 0 (Z.to_nat totalSamples))))
      else
        Value (Some (map (fun i => Float32.div (Float32.of_int (load_int32 data i))
                                               Float32.c2147483648)
                         (seq 0 (Z.to_nat totalSamples))))
  else Value None.

Definition ConvertToMonoFloat32 (input : AudioSample.t)
  : outcome (list spec_float) :=
  let channels := AudioFormat.channels (AudioSample.format input) in
  match AudioSample.data input with
  | [] => Value []
  | _ :: _ =>
      do decoded <- float32_step1 input;
      match decoded with
      | None => Value []
      | Some samples =>
          (* Step 2 *)
          if 1 <? channels then
            let frameCount := Z.of_nat (length samples) / channels in
            Value (map (fun frame => Float32.div (frame_sum channels samples frame)
                                                 (Float32.of_int channels))
                       (seq 0 (Z.to_nat frameCount)))
          else Value samples
      end
  end.

(** *** ConvertToPCM16 *)

(** Step 1 of [ConvertToPCM16]: the raw bytes as int16 samples.  [None]
    is the early return of the unsupported branch.  In the 16-bit branch
    [memcpy] copies [size] bytes into a vector of [size / 2] samples, one
    byte too many when [size] is odd. *)
Definition pcm16_step1 (input : AudioSample.t) : outcome (option (list Z)) :=
  let data := AudioSample.data input in
  let fmt := AudioSample.format input in
  let channels := AudioFormat.channels fmt in
  let size := Z.of_nat (length data) in
  if AudioFormat.bitsPerSample fmt =? 16 then
    let sampleCount := size / 2 in
    if 2 * sampleCount <? size then Undefined OutOfBounds
    else Value (Some (map (load_int16 data) (seq 0 (Z.to_nat sampleCount))))
  else if AudioFormat.bitsPerSample fmt =? 32 then
    if 4 * channels =? 0 then Undefined DivisionByZero
    else
      let frameCount := size / (4 * channels) in
      let totalSamples := size_t (frameCount * channels) in
      if AudioFormat.isFloat fmt then
        if AudioFormat.isNonInterleaved fmt && (channels =? 2) then
          Value (Some (flat_map
                         (fun frame =>
                            [planar_float_to_int16 (load_float data frame);
                             planar_float_to_int16
                               (load_float data (Z.to_nat frameCount + frame))])
                         (seq 0 (Z.to_nat frameCount))))
        else
          Value (Some (FloatToInt16
                         (map (load_float data) (seq 0 (Z.to_nat totalSamples)))))
      else
        Value (Some (Int32ToInt16
                       (map (load_int32 data) (seq 0 (Z.to_nat totalSamples)))))
  else if AudioFormat.bitsPerSample fmt =? 24 then
    let sampleCount := size / 3 in
    Value (Some (map (fun i => decode24 (byte_at data (i * 3))
                                        (byte_at data (i * 3 + 1))
                                        (byte_at data (i * 3 + 2)))
                     (seq 0 (Z.to_nat sampleCount))))
  else Value None.

(** [targetSampleRate] is not read: Step 3 (resampling) is skipped in the
    source. *)
Definition ConvertToPCM16 (input : AudioSample.t)
           (targetSampleRate targetChannels : Z) : outcome (list Z) :=
  let channels := AudioFormat.channels (AudioSample.format input) in
  match AudioSample.data input with
  | [] => Value []
  | _ :: _ =>
      do decoded <- pcm16_step1 input;
      match decoded with
      | None => Value []
      | Some samples =>
          (* Step 2 *)
          if (1 <? channels) && (targetChannels =? 1)
          then Value (StereoToMono samples)
          else Value samples
      end
  end.

(** *** The 24-bit decoding as the specification words it *)

(** Three little-endian bytes, sign-extended from bit 23, shifted right
    arithmetically by 8. *)
Definition decode24_spec (b0 b1 b2 : Z) : Z :=
  let value24 := b0 + b1 * 2 ^ 8 + b2 * 2 ^ 16 in
  let extended := if Z.testbit value24 23 then value24 - 2 ^ 24 else value24 in
  Z.shiftr extended 8.

(** The byte buffer cut in runs of three; an incomplete run at the end is
    left out. *)
Fixpoint triplets (data : list byte) : list (Z * Z * Z) :=
  match data with
  | b0 :: b1 :: b2 :: rest => (u8 b0, u8 b1, u8 b2) :: triplets rest
  | _ => []
  end.

(** A capture format with the given sample layout, 48 kHz. *)
Definition format_of (channels bitsPerSample : Z) (isFloat isNonInterleaved : bool)
  : AudioFormat.t :=
  {| AudioFormat.sampleRate := 48000;
     AudioFormat.channels := channels;
     AudioFormat.bitsPerSample := bitsPerSample;
     AudioFormat.bytesPerFrame := channels * (bitsPerSample / 8);
     AudioFormat.blockAlign := channels * (bitsPerSample / 8);
     AudioFormat.isFloat := isFloat;
     AudioFormat.isNonInterleaved := isNonInterleaved;
     AudioFormat.formatFlags := 0 |}.

Definition sample_of (data : list byte) (fmt : AudioFormat.t) : AudioSample.t :=
  {| AudioSample.data := data;
     AudioSample.format := fmt;
     AudioSample.timestamp := 0;
     AudioSample.frameCount := 0 |}.

(** *** MovingAverageFilter *)

(** The values of a sequence of outcomes, or the first fault. *)
Fixpoint all_values {A : Type} (l : list (outcome A)) : outcome (list A) :=
  match l with
  | [] => Value []
  | x :: rest => do a <- x; do r <- all_values rest; Value (a :: r)
  end.

(** The inner loop of [MovingAverageFilter]: the [int32_t] sum of
    [input[start]] .. [input[start + count - 1]].  Signed overflow is
    undefined in C++; it takes more than 65536 samples in the window, and
    the sum wraps here as it does on the targets. *)
Definition window_sum (input : list Z) (start count : nat) : Z :=
  fold_left (fun sum j => int32_t (sum + nth j input 0)) (seq start count) 0.

(** One round of the outer loop.  [sum / (end - start)] divides a
    [size_t]: the [int32_t] sum is converted to unsigned first. *)
Definition moving_average_at (input : list Z) (windowSize : Z) (i : nat)
  : outcome Z :=
  let size := Z.of_nat (length input) in
  let start := if windowSize / 2 <=? Z.of_nat i
               then size_t (Z.of_nat i - windowSize / 2) else 0 in
  let end_ := Z.min (size_t (Z.of_nat i + windowSize / 2 + 1)) size in
  let sum := window_sum input (Z.to_nat start) (Z.to_nat (end_ - start)) in
  if size_t (end_ - start) =? 0 then Undefined DivisionByZero
  else Value (int16_t (size_t sum / size_t (end_ - start))).

Definition MovingAverageFilter (input : list Z) (windowSize : Z)
  : outcome (list Z) :=
  match input with
  | [] => Value input
  | _ :: _ =>
      if windowSize =? 0 then Value input
      else all_values (map (moving_average_at input windowSize)
                           (seq 0 (length input)))
  end.

(** *** Memory image of int16 samples *)

(** The byte with value [z mod 256]. *)
Definition byte_of (z : Z) : byte :=
  match Byte.of_N (Z.to_N (z mod 256)) with
  | Some b => b
  | None => x00
  end.

(** The two bytes an [int16_t] occupies on a little-endian host. *)
Definition int16_bytes (sample : Z) : list byte :=
  [byte_of sample; byte_of (Z.shiftr sample 8)].

(** [x] is the real number [n / 2^k], exactly. *)
Definition is_dyadic (x : spec_float) (n k : Z) : bool :=
  match x with
  | S754_zero _ => n =? 0
  | S754_finite s m e =>
      let mant := if s then Zneg m else Zpos m in
      if 0 <=? e + k then mant * 2 ^ (e + k) =? n
      else mant =? n * 2 ^ (- (e + k))
  | _ => false
  end.

End AudioFormatConverter.

(** ** The addon's use of the converter and the buffer (audio_capture_addon.cpp) *)

Module AudioCaptureWrapper.

(** [audioBuffer_]: null when the constructor returned before creating
    it, because no platform capture could be created. *)
Definition t : Type := option AudioBuffer.t.

(** The constructor, as far as the buffer is concerned. *)
Definition AudioCaptureWrapper (captureCreated : bool) : t :=
  if captureCreated then Some (AudioBuffer.AudioBuffer (5 * 1024 * 1024)) else None.

Section WithLayout.

Variable sizeof_AudioChunk : Z.

(** [ProcessAndBufferAudio]; [OnAudioData] calls it before it hands the
    raw sample to the JavaScript callback. *)
Definition ProcessAndBufferAudio (sample : AudioSample.t) (now : Z) (w : t)
  : outcome t :=
  match w with
  | None => Value w
  | Some b =>
      do float32Data <- AudioFormatConverter.ConvertToMonoFloat32 sample;
      match float32Data with
      | [] => Value w
      | _ :: _ =>
          Value (Some (AudioBuffer.PushFloat32 sizeof_AudioChunk float32Data 48000 1 now b))
      end
  end.

(** [GetBufferedAudio]: the chunks [PopMultiple(1000)] returns. *)
Definition GetBufferedAudio (w : t) : list AudioChunk.t * t :=
  match w with
  | None => ([], w)
  | Some b =>
      let '(chunks, b') := AudioBuffer.PopMultiple sizeof_AudioChunk 1000 b in
      (chunks, Some b')
  end.

End WithLayout.

(** [GetBufferedFloat32Audio]: the data of the chunks
    [PopMultipleFloat32(1000)] returns, copied one after the other into
    one array. *)
Definition GetBufferedFloat32Audio (w : t) : list spec_float * t :=
  match w with
  | None => ([], w)
  | Some b =>
      let '(chunks, b') := AudioBuffer.PopMultipleFloat32 1000 b in
      (concat (map Float32AudioChunk.data chunks), Some b')
  end.

Definition ClearBuffer (w : t) : t :=
  match w with
  | None => w
  | Some b => Some (AudioBuffer.Clear b)
  end.

(** *** Sequences of calls *)

Inductive call : Type :=
| CallOnAudioData (sample : AudioSample.t) (now : Z)
| CallGetBufferedAudio
| CallGetBufferedFloat32Audio
| CallClearBuffer.

(** The wrapper together with everything it has handed out so far. *)
Record session : Type := Session {
  wrapper : t;
  float32Out : list spec_float;
  pcm16Out : list AudioChunk.t
}.

Definition perform (sizeof_AudioChunk : Z) (c : call) (s : session)
  : outcome session :=
  match c with
  | CallOnAudioData sample now =>
      do w <- ProcessAndBufferAudio sizeof_AudioChunk sample now (wrapper s);
      Value (Session w (float32Out s) (pcm16Out s))
  | CallGetBufferedAudio =>
      let '(chunks, w) := GetBufferedAudio sizeof_AudioChunk (wrapper s) in
      Value (Session w (float32Out s) (pcm16Out s ++ chunks))
  | CallGetBufferedFloat32Audio =>
      let '(samples, w) := GetBufferedFloat32Audio (wrapper s) in
      Value (Session w (float32Out s ++ samples) (pcm16Out s))
  | CallClearBuffer =>
      Value (Session (ClearBuffer (wrapper s)) (float32Out s) (pcm16Out s))
  end.

Fixpoint run (sizeof_AudioChunk : Z) (calls : list call) (s : session)
  : outcome session :=
  match calls with
  | [] => Value s
  | c :: rest => do s' <- perform sizeof_AudioChunk c s; run sizeof_AudioChunk rest s'
  end.

(** A session on a new wrapper. *)
Definition start (captureCreated : bool) : session :=
  Session (AudioCaptureWrapper captureCreated) [] [].

(** The float samples the converter makes of the captured samples of a
    call sequence, in order. *)
Fixpoint converted (calls : list call) : list spec_float :=
  match calls with
  | [] => []
  | CallOnAudioData sample _ :: rest =>
      match AudioFormatConverter.ConvertToMonoFloat32 sample with
      | Value float32Data => float32Data ++ converted rest
      | Undefined _ => converted rest
      end
  | _ :: rest => converted rest
  end.

(** The float samples waiting in the buffer. *)
Definition pending (w : t) : list spec_float :=
  match w with
  | None => []
  | Some b => concat (map Float32AudioChunk.data (AudioBuffer.float32Chunks_ b))
  end.

Definition is_clear (c : call) : bool :=
  match c with CallClearBuffer => true | _ => false end.

(** The call captures a sample on which the converter is defined. *)
Definition converts (c : call) : Prop :=
  match c with
  | CallOnAudioData sample _ =>
      exists float32Data,
        AudioFormatConverter.ConvertToMonoFloat32 sample = Value float32Data
  | _ => True
  end.

(** A chunk as [ProcessAndBufferAudio] labels it. *)
Definition mono_48k (c : Float32AudioChunk.t) : Prop :=
  Float32AudioChunk.sampleRate c = 48000
  /\ Float32AudioChunk.channels c = 1
  /\ Float32AudioChunk.data c <> [].

(** A buffer that holds float32 chunks only, under the budget the
    constructor of the wrapper gives it, with its counter at four bytes a
    queued sample. *)
Definition float32_only (b : AudioBuffer.t) : Prop :=
  AudioBuffer.chunks_ b = []
  /\ AudioBuffer.maxSizeBytes_ b = 5 * 1024 * 1024
  /\ Forall mono_48k (AudioBuffer.float32Chunks_ b)
  /\ AudioBuffer.currentSizeBytes_ b
     = Machine.size_t (AudioBuffer.sumZ (map AudioBuffer.float32_bytes
                                             (AudioBuffer.float32Chunks_ b))).

End AudioCaptureWrapper.

(** ** Quantities for the converter's further properties *)

Module ConverterFacts.

(** [f] holds at [z], [z + 1], ..., [z + n - 1]. *)
Fixpoint all_from (f : Z -> bool) (z : Z) (n : nat) : bool :=
  match n with
  | O => true
  | S n' => f z && all_from f (z + 1) n'
  end.

(** The float the 16-bit branch of [ConvertToMonoFloat32] makes of the
    sample [z]. *)
Definition float_of_int16 (z : Z) : spec_float :=
  Float32.div (Float32.of_int z) Float32.c32768.

Definition same_float (x y : spec_float) : bool :=
  match x, y with
  | S754_zero s1, S754_zero s2 => Bool.eqb s1 s2
  | S754_infinity s1, S754_infinity s2 => Bool.eqb s1 s2
  | S754_nan, S754_nan => true
  | S754_finite s1 m1 e1, S754_finite s2 m2 e2 =>
      Bool.eqb s1 s2 && Pos.eqb m1 m2 && Z.eqb e1 e2
  | _, _ => false
  end.

(** What is checked of [float_of_int16 z]: it is [z / 2^15] exactly, lies
    in [-1, 1), comes back as [z] through both float-to-int16
    conversions, and is the mean of two and of four copies of itself as
    Step 2 of [ConvertToMonoFloat32] computes it. *)
Definition int16_float_ok (z : Z) : bool :=
  let x := float_of_int16 z in
  AudioFormatConverter.is_dyadic x z 15
  && SFleb Float32.minus_one x
  && SFltb x Float32.one
  && (AudioFormatConverter.float_to_int16 x =? z)
  && (AudioFormatConverter.planar_float_to_int16 x =? z)
  && same_float
       (Float32.div (AudioFormatConverter.frame_sum 2 [x; x] 0) (Float32.of_int 2)) x
  && same_float
       (Float32.div (AudioFormatConverter.frame_sum 4 [x; x; x; x] 0) (Float32.of_int 4)) x.

(** The window of [MovingAverageFilter] around position [i], in
    unbounded integers: its first index, the index after its last, and
    the sum of its samples. *)
Definition window_start (windowSize : Z) (i : nat) : Z :=
  Z.max 0 (Z.of_nat i - windowSize / 2).

Definition window_end (input : list Z) (windowSize : Z) (i : nat) : Z :=
  Z.min (Z.of_nat i + windowSize / 2 + 1) (Z.of_nat (length input)).

Definition window_total (input : list Z) (windowSize : Z) (i : nat) : Z :=
  AudioBuffer.sumZ
    (firstn (Z.to_nat (window_end input windowSize i - window_start windowSize i))
            (skipn (Z.to_nat (window_start windowSize i)) input)).

(** The sample with the bytes after its last complete frame removed. *)
Definition complete_frames (input : AudioSample.t) : AudioSample.t :=
  let fmt := AudioSample.format input in
  let frameBytes := AudioFormat.bitsPerSample fmt / 8 * AudioFormat.channels fmt in
  let frames := Z.of_nat (length (AudioSample.data input)) / frameBytes in
  {| AudioSample.data :=
       firstn (Z.to_nat (frames * frameBytes)) (AudioSample.data input);
     AudioSample.format := fmt;
     AudioSample.timestamp := AudioSample.timestamp input;
     AudioSample.frameCount := AudioSample.frameCount input |}.

End ConverterFacts.

(** ** Queue contents an operation may add *)

Module QueueOrder.

(** The PCM16 chunk an operation appends, if any. *)
Definition pushed_pcm16 (o : AudioBuffer.op) : list AudioChunk.t :=
  match o with
  | AudioBuffer.Produce (AudioBuffer.DoPush (x :: d) sampleRate channels now) =>
      [AudioChunk.Build (x :: d) now sampleRate channels]
  | _ => []
  end.

(** The float32 chunk an operation appends, if any. *)
Definition pushed_float32 (o : AudioBuffer.op) : list Float32AudioChunk.t :=
  match o with
  | AudioBuffer.Produce (AudioBuffer.DoPushFloat32 (x :: d) sampleRate channels now) =>
      [Float32AudioChunk.Build (x :: d) now sampleRate channels]
  | _ => []
  end.

(** Bytes the float32 queue is charged for. *)
Definition float32_queued_bytes (b : AudioBuffer.t) : Z :=
  AudioBuffer.sumZ (map AudioBuffer.float32_bytes (AudioBuffer.float32Chunks_ b)).

(** The counter after [k] rounds of the loop of [PopMultipleFloat32]. *)
Fixpoint popped_counter_float32 (k : nat) (cur : Z)
         (q : list Float32AudioChunk.t) : Z :=
  match k, q with
  | S k', c :: rest =>
      popped_counter_float32 k'
        (size_t (cur - size_t (Z.of_nat (length (Float32AudioChunk.data c)) * 4)))
        rest
  | _, _ => cur
  end.

End QueueOrder.

(** * Properties *)

(** ** Wrap-around arithmetic *)

Lemma size_t_range z : 0 <= size_t z < 2 ^ 64.
Proof. unfold size_t, wrap. apply Z.mod_pos_bound. lia. Qed.

Lemma size_t_small z : 0 <= z < 2 ^ 64 -> size_t z = z.
Proof. unfold size_t, wrap. apply Z.mod_small. Qed.

Lemma size_t_le z : 0 <= z -> size_t z <= z.
Proof. unfold size_t, wrap. intros. apply Z.mod_le; lia. Qed.

Lemma size_t_add_l a b : size_t (size_t a + b) = size_t (a + b).
Proof. unfold size_t, wrap. apply Z.add_mod_idemp_l. lia. Qed.

Lemma size_t_add_r a b : size_t (a + size_t b) = size_t (a + b).
Proof. unfold size_t, wrap. apply Z.add_mod_idemp_r. lia. Qed.

Lemma size_t_sub_l a b : size_t (size_t a - b) = size_t (a - b).
Proof. unfold size_t, wrap. apply Zminus_mod_idemp_l. Qed.

Lemma size_t_sub_r a b : size_t (a - size_t b) = size_t (a - b).
Proof. unfold size_t, wrap. apply Zminus_mod_idemp_r. Qed.

Lemma size_t_idem a : size_t (size_t a) = size_t a.
Proof. unfold size_t, wrap. apply Z.mod_mod. lia. Qed.

Create Rewrite HintDb size_t.
#[local] Hint Rewrite size_t_add_l size_t_add_r size_t_sub_l size_t_sub_r
  size_t_idem : size_t.

(** ** The bounded buffer *)

Section BufferProperties.

Import AudioBuffer.
Variable sizeof_AudioChunk : Z.

#[local] Abbreviation GetChunkSize := (AudioBuffer.GetChunkSize sizeof_AudioChunk).
#[local] Abbreviation trim_loop := (AudioBuffer.trim_loop sizeof_AudioChunk).
#[local] Abbreviation TrimToSize := (AudioBuffer.TrimToSize sizeof_AudioChunk).
#[local] Abbreviation pcm16_bytes := (AudioBuffer.pcm16_bytes sizeof_AudioChunk).
#[local] Abbreviation queued_bytes := (AudioBuffer.queued_bytes sizeof_AudioChunk).
#[local] Abbreviation evicted_counter := (AudioBuffer.evicted_counter sizeof_AudioChunk).
#[local] Abbreviation accounted := (AudioBuffer.accounted sizeof_AudioChunk).

Lemma GetChunkSize_bytes c : GetChunkSize c = size_t (pcm16_bytes c).
Proof.
  unfold AudioBuffer.GetChunkSize, AudioBuffer.pcm16_bytes.
  rewrite size_t_add_r. f_equal. lia.
Qed.

(** *** Eviction *)

Lemma trim_loop_exit maxSizeBytes q : forall cur,
  snd (trim_loop maxSizeBytes cur q) <> [] ->
  fst (trim_loop maxSizeBytes cur q) <= maxSizeBytes.
Proof.
  induction q as [|c rest IH]; intros cur; simpl.
  - intros Hne. now elim Hne.
  - destruct (maxSizeBytes <? cur) eqn:E.
    + apply IH.
    + intros _. simpl. apply Z.ltb_ge in E. exact E.
Qed.

Lemma trim_loop_rounds maxSizeBytes q : forall cur,
  exists k : nat,
    (k <= length q)%nat
    /\ trim_loop maxSizeBytes cur q = (evicted_counter k cur q, skipn k q)
    /\ (evicted_counter k cur q <= maxSizeBytes \/ skipn k q = [])
    /\ (forall j : nat, (j < k)%nat -> maxSizeBytes < evicted_counter j cur q).
Proof.
  induction q as [|c rest IH]; intros cur.
  - exists 0%nat. simpl. repeat split; auto. intros j Hj. lia.
  - simpl. destruct (maxSizeBytes <? cur) eqn:E.
    + destruct (IH (size_t (cur - GetChunkSize c))) as (k & Hk & Heq & Hstop & Hmin).
      exists (S k). simpl. split; [lia|]. split; [exact Heq|]. split; [exact Hstop|].
      intros [|j] Hj; simpl.
      * apply Z.ltb_lt in E. exact E.
      * apply Hmin. lia.
    + exists 0%nat. simpl. split; [lia|]. split; [reflexivity|]. split.
      * left. apply Z.ltb_ge in E. exact E.
      * intros j Hj. lia.
Qed.

Lemma TrimToSize_within_budget b : within_budget (TrimToSize b).
Proof.
  unfold within_budget, AudioBuffer.TrimToSize.
  pose proof (trim_loop_exit (maxSizeBytes_ b) (chunks_ b) (currentSizeBytes_ b)) as Hx.
  destruct (trim_loop (maxSizeBytes_ b) (currentSizeBytes_ b) (chunks_ b)) as [cur q].
  simpl in *. exact Hx.
Qed.

Lemma produce_within_budget p b :
  within_budget b -> within_budget (produce sizeof_AudioChunk p b).
Proof.
  intros Hb. destruct p as [d sr ch now | d sr ch now | m]; simpl.
  - unfold Push. destruct d; [exact Hb | apply TrimToSize_within_budget].
  - unfold PushFloat32. destruct d; [exact Hb | apply TrimToSize_within_budget].
  - apply TrimToSize_within_budget.
Qed.

Lemma run_producer_within_budget ops : forall b,
  within_budget b -> within_budget (run_producer sizeof_AudioChunk ops b).
Proof.
  induction ops as [|p ops IH]; intros b Hb; simpl.
  - exact Hb.
  - apply IH. apply produce_within_budget. exact Hb.
Qed.

(** *** Accounting *)

Lemma trim_loop_accounted maxSizeBytes F q : forall cur,
  cur = size_t (sumZ (map pcm16_bytes q) + F) ->
  fst (trim_loop maxSizeBytes cur q)
  = size_t (sumZ (map pcm16_bytes (snd (trim_loop maxSizeBytes cur q))) + F).
Proof.
  induction q as [|c rest IH]; intros cur Hcur; simpl.
  - exact Hcur.
  - destruct (maxSizeBytes <? cur); simpl.
    + apply IH. subst cur. simpl. rewrite GetChunkSize_bytes.
      autorewrite with size_t. f_equal. lia.
    + exact Hcur.
Qed.

Lemma TrimToSize_accounted b : accounted b -> accounted (TrimToSize b).
Proof.
  unfold AudioBuffer.accounted, AudioBuffer.queued_bytes, AudioBuffer.TrimToSize. intros Hb.
  pose proof (trim_loop_accounted (maxSizeBytes_ b)
                (sumZ (map float32_bytes (float32Chunks_ b)))
                (chunks_ b) (currentSizeBytes_ b) Hb) as Hx.
  destruct (trim_loop (maxSizeBytes_ b) (currentSizeBytes_ b) (chunks_ b)) as [cur q].
  simpl in *. exact Hx.
Qed.

Lemma sumZ_app l1 l2 : sumZ (l1 ++ l2) = sumZ l1 + sumZ l2.
Proof. induction l1 as [|x l1 IH]; simpl; lia. Qed.

Lemma Push_accounted d sr ch now b :
  accounted b -> accounted (Push sizeof_AudioChunk d sr ch now b).
Proof.
  intros Hb. unfold Push. destruct d as [|x d]; [exact Hb|].
  apply TrimToSize_accounted. unfold AudioBuffer.accounted, AudioBuffer.queued_bytes in *. simpl.
  rewrite Hb, GetChunkSize_bytes, map_app, sumZ_app. simpl.
  autorewrite with size_t. f_equal. lia.
Qed.

Lemma PushFloat32_accounted d sr ch now b :
  accounted b -> accounted (PushFloat32 sizeof_AudioChunk d sr ch now b).
Proof.
  intros Hb. unfold PushFloat32. destruct d as [|x d]; [exact Hb|].
  apply TrimToSize_accounted. unfold AudioBuffer.accounted, AudioBuffer.queued_bytes in *.
  cbn [chunks_ float32Chunks_ currentSizeBytes_].
  rewrite Hb, map_app, sumZ_app. cbn [map sumZ fold_right].
  autorewrite with size_t. f_equal.
  unfold float32_bytes. cbn [Float32AudioChunk.data]. lia.
Qed.

Lemma pop_loop_accounted maxChunks F q : forall count cur result,
  cur = size_t (sumZ (map pcm16_bytes q) + F) ->
  let r := pop_loop sizeof_AudioChunk maxChunks count cur q result in
  fst (fst r) = size_t (sumZ (map pcm16_bytes (snd (fst r))) + F).
Proof.
  induction q as [|c rest IH]; intros count cur result Hcur; simpl.
  - exact Hcur.
  - destruct (count <? maxChunks); simpl.
    + apply IH. subst cur. simpl. rewrite GetChunkSize_bytes.
      autorewrite with size_t. f_equal. lia.
    + exact Hcur.
Qed.

Lemma pop_loop_float32_accounted maxChunks P q : forall count cur result,
  cur = size_t (P + sumZ (map float32_bytes q)) ->
  let r := pop_loop_float32 maxChunks count cur q result in
  fst (fst r) = size_t (P + sumZ (map float32_bytes (snd (fst r)))).
Proof.
  induction q as [|c rest IH]; intros count cur result Hcur; simpl.
  - exact Hcur.
  - destruct (count <? maxChunks); simpl.
    + apply IH. subst cur. simpl. unfold float32_bytes at 1.
      autorewrite with size_t. f_equal. lia.
    + exact Hcur.
Qed.

Lemma step_accounted o b : accounted b -> accounted (step sizeof_AudioChunk o b).
Proof.
  intros Hb. destruct o as [p | | m | m | ]; simpl.
  - destruct p as [d sr ch now | d sr ch now | m]; simpl.
    + now apply Push_accounted.
    + now apply PushFloat32_accounted.
    + apply TrimToSize_accounted. exact Hb.
  - unfold Pop. destruct (chunks_ b) as [|c rest] eqn:E; simpl; [exact Hb|].
    unfold AudioBuffer.accounted, AudioBuffer.queued_bytes in *. simpl.
    rewrite Hb, E, GetChunkSize_bytes. simpl.
    autorewrite with size_t. f_equal. lia.
  - unfold PopMultiple.
    pose proof (pop_loop_accounted m (sumZ (map float32_bytes (float32Chunks_ b)))
                  (chunks_ b) 0 (currentSizeBytes_ b) [] Hb) as Hx.
    destruct (pop_loop sizeof_AudioChunk m 0 (currentSizeBytes_ b) (chunks_ b) [])
      as [[cur q] result].
    simpl in *. exact Hx.
  - unfold PopMultipleFloat32.
    pose proof (pop_loop_float32_accounted m (sumZ (map pcm16_bytes (chunks_ b)))
                  (float32Chunks_ b) 0 (currentSizeBytes_ b) [] Hb) as Hx.
    destruct (pop_loop_float32 m 0 (currentSizeBytes_ b) (float32Chunks_ b) [])
      as [[cur q] result].
    simpl in *. exact Hx.
  - reflexivity.
Qed.

Lemma run_accounted ops : forall b,
  accounted b -> accounted (run sizeof_AudioChunk ops b).
Proof.
  induction ops as [|o ops IH]; intros b Hb; simpl.
  - exact Hb.
  - apply IH. apply step_accounted. exact Hb.
Qed.

Lemma sumZ_nonneg l : Forall (fun x => 0 <= x) l -> 0 <= sumZ l.
Proof. induction 1; simpl; lia. Qed.

Lemma queued_bytes_nonneg b : 0 <= sizeof_AudioChunk -> 0 <= queued_bytes b.
Proof.
  intros HH. unfold AudioBuffer.queued_bytes.
  assert (0 <= sumZ (map pcm16_bytes (chunks_ b))).
  { apply sumZ_nonneg, Forall_map, Forall_forall. intros c _.
    unfold AudioBuffer.pcm16_bytes. lia. }
  assert (0 <= sumZ (map float32_bytes (float32Chunks_ b))).
  { apply sumZ_nonneg, Forall_map, Forall_forall. intros c _.
    unfold float32_bytes. lia. }
  lia.
Qed.

(** *** Claims on the byte budget and on the accounting *)

(** C1.  Byte-budget invariant.  After any sequence of [Push],
    [PushFloat32] and [SetMaxSize] on a fresh buffer, a non-empty PCM16
    queue implies that the byte counter is at most the budget in force;
    each of the three operations that runs its eviction pass establishes
    this from any state whatever.  The eviction pass removes [k] chunks
    from the front of the PCM16 queue and nothing else, where [k] is the
    first round at which the counter is within the budget or the queue is
    empty: before each of the [k] removals the counter exceeded the
    budget. *)
Theorem C1_byte_budget_invariant :
  (forall (B : Z) (ops : list producer_op),
      let b := run_producer sizeof_AudioChunk ops (AudioBuffer B) in
      chunks_ b <> [] -> currentSizeBytes_ b <= maxSizeBytes_ b)
  /\ (forall x d sr ch now b,
         within_budget (Push sizeof_AudioChunk (x :: d) sr ch now b))
  /\ (forall x d sr ch now b,
         within_budget (PushFloat32 sizeof_AudioChunk (x :: d) sr ch now b))
  /\ (forall B b, within_budget (SetMaxSize sizeof_AudioChunk B b)
                  /\ maxSizeBytes_ (SetMaxSize sizeof_AudioChunk B b) = B)
  /\ (forall b : t,
         exists k : nat,
           (k <= length (chunks_ b))%nat
           /\ chunks_ (TrimToSize b) = skipn k (chunks_ b)
           /\ currentSizeBytes_ (TrimToSize b)
              = evicted_counter k (currentSizeBytes_ b) (chunks_ b)
           /\ float32Chunks_ (TrimToSize b) = float32Chunks_ b
           /\ maxSizeBytes_ (TrimToSize b) = maxSizeBytes_ b
           /\ (currentSizeBytes_ (TrimToSize b) <= maxSizeBytes_ b
               \/ chunks_ (TrimToSize b) = [])
           /\ (forall j : nat, (j < k)%nat ->
                 maxSizeBytes_ b < evicted_counter j (currentSizeBytes_ b) (chunks_ b))).
Proof.
  split; [|split; [|split; [|split]]].
  - intros B ops. cbv zeta.
    apply (run_producer_within_budget ops (AudioBuffer B)).
    intros Hne. now elim Hne.
  - intros. apply TrimToSize_within_budget.
  - intros. apply TrimToSize_within_budget.
  - intros B b. split; [apply TrimToSize_within_budget|].
    unfold SetMaxSize, AudioBuffer.TrimToSize. simpl.
    now destruct (trim_loop B (currentSizeBytes_ b) (chunks_ b)).
  - intros b.
    destruct (trim_loop_rounds (maxSizeBytes_ b) (chunks_ b) (currentSizeBytes_ b))
      as (k & Hk & Heq & Hstop & Hmin).
    exists k. unfold AudioBuffer.TrimToSize. rewrite Heq. simpl.
    repeat split; auto.
Qed.

(** C2.  Counter accounting.  In every state reachable from a fresh
    buffer through [Push], [PushFloat32], [Pop], [PopMultiple],
    [PopMultipleFloat32], [Clear] and [SetMaxSize], the byte counter is the
    sum over the queued PCM16 chunks of [sizeof(AudioChunk) + 2 * samples]
    plus the sum over the queued float32 chunks of [4 * samples]: as
    [size_t] values always, and as integers whenever that sum is below
    2^64, which the address space of the process guarantees since the
    queued chunks occupy at least that many bytes.  [Push] and
    [PushFloat32] leave the buffer as it is on empty input. *)
Theorem C2_counter_accounting :
  (forall (B : Z) (ops : list op),
      let b := run sizeof_AudioChunk ops (AudioBuffer B) in
      currentSizeBytes_ b = queued_bytes b mod 2 ^ 64
      /\ (0 <= sizeof_AudioChunk -> queued_bytes b < 2 ^ 64 ->
          currentSizeBytes_ b = queued_bytes b))
  /\ (forall sr ch now b, Push sizeof_AudioChunk [] sr ch now b = b)
  /\ (forall sr ch now b, PushFloat32 sizeof_AudioChunk [] sr ch now b = b).
Proof.
  split; [|split; reflexivity].
  intros B ops. cbv zeta.
  assert (Hacc : accounted (run sizeof_AudioChunk ops (AudioBuffer B))).
  { apply run_accounted. reflexivity. }
  unfold AudioBuffer.accounted in Hacc. split.
  - exact Hacc.
  - intros HH Hlt. rewrite Hacc. apply size_t_small.
    split; [apply queued_bytes_nonneg; exact HH | exact Hlt].
Qed.

End BufferProperties.

(** A mono chunk of two samples on a default buffer, with the usual 64-bit
    layout of [AudioChunk]. *)
Lemma C1_byte_budget_invariant_witness :
  let b := AudioBuffer.run_producer 40
             [AudioBuffer.DoPush [7; -7] 48000 1 0]
             (AudioBuffer.AudioBuffer AudioBuffer.default_maxSizeBytes) in
  AudioBuffer.chunks_ b <> []
  /\ AudioBuffer.currentSizeBytes_ b <= AudioBuffer.maxSizeBytes_ b.
Proof.
  split.
  - vm_compute. discriminate.
  - apply (proj1 (C1_byte_budget_invariant 40)
             AudioBuffer.default_maxSizeBytes
             [AudioBuffer.DoPush [7; -7] 48000 1 0]).
    vm_compute. discriminate.
Defined.

Lemma C2_counter_accounting_witness :
  let b := AudioBuffer.run 40
             [AudioBuffer.Produce (AudioBuffer.DoPush [7; -7] 48000 1 0);
              AudioBuffer.Produce (AudioBuffer.DoPushFloat32 [Float32.one] 48000 1 1);
              AudioBuffer.DoPop]
             (AudioBuffer.AudioBuffer AudioBuffer.default_maxSizeBytes) in
  0 <= 40 /\ AudioBuffer.queued_bytes 40 b < 2 ^ 64
  /\ AudioBuffer.currentSizeBytes_ b = AudioBuffer.queued_bytes 40 b.
Proof.
  split; [lia|]. split; [vm_compute; reflexivity|].
  apply (proj1 (C2_counter_accounting 40) AudioBuffer.default_maxSizeBytes).
  - lia.
  - vm_compute. reflexivity.
Defined.

(** ** Queue order, batch pops and the buffered duration *)

Section QueueProperties.

Import AudioBuffer.
Variable sizeof_AudioChunk : Z.

#[local] Abbreviation GetChunkSize := (AudioBuffer.GetChunkSize sizeof_AudioChunk).
#[local] Abbreviation TrimToSize := (AudioBuffer.TrimToSize sizeof_AudioChunk).
#[local] Abbreviation Push := (AudioBuffer.Push sizeof_AudioChunk).
#[local] Abbreviation PushFloat32 := (AudioBuffer.PushFloat32 sizeof_AudioChunk).
#[local] Abbreviation Pop := (AudioBuffer.Pop sizeof_AudioChunk).
#[local] Abbreviation PopMultiple := (AudioBuffer.PopMultiple sizeof_AudioChunk).

Lemma trim_loop_fits maxSizeBytes cur q :
  cur <= maxSizeBytes ->
  trim_loop sizeof_AudioChunk maxSizeBytes cur q = (cur, q).
Proof.
  intros Hle. destruct q as [|c rest]; simpl; [reflexivity|].
  apply Z.ltb_ge in Hle. now rewrite Hle.
Qed.

(** A push that leaves the counter within the budget appends and evicts
    nothing. *)
Lemma Push_appends x d sr ch now q f m cur :
  let chunk := AudioChunk.Build (x :: d) now sr ch in
  size_t (cur + GetChunkSize chunk) <= m ->
  Push (x :: d) sr ch now (Build q f m cur)
  = Build (q ++ [chunk]) f m (size_t (cur + GetChunkSize chunk)).
Proof.
  intros chunk Hle. unfold AudioBuffer.Push, AudioBuffer.TrimToSize.
  cbn [chunks_ float32Chunks_ maxSizeBytes_ currentSizeBytes_].
  fold chunk. now rewrite trim_loop_fits.
Qed.

Lemma Push_appends_accounted x d sr ch now q f m cur total :
  let chunk := AudioChunk.Build (x :: d) now sr ch in
  cur = size_t total ->
  0 <= total + pcm16_bytes sizeof_AudioChunk chunk <= m ->
  Push (x :: d) sr ch now (Build q f m cur)
  = Build (q ++ [chunk]) f m (size_t (total + pcm16_bytes sizeof_AudioChunk chunk)).
Proof.
  intros chunk Hcur Hfit.
  assert (Hc : size_t (cur + GetChunkSize chunk)
               = size_t (total + pcm16_bytes sizeof_AudioChunk chunk)).
  { rewrite Hcur, GetChunkSize_bytes. now autorewrite with size_t. }
  rewrite <- Hc. apply Push_appends. fold chunk. rewrite Hc.
  eapply Z.le_trans; [apply size_t_le|]; lia.
Qed.

(** A push onto a queue of one chunk that does not fit the budget together
    with the new one evicts the older chunk. *)
Lemma Push_evicts_front x d sr ch now c0 f m cur :
  let chunk := AudioChunk.Build (x :: d) now sr ch in
  cur = pcm16_bytes sizeof_AudioChunk c0 ->
  0 <= sizeof_AudioChunk ->
  pcm16_bytes sizeof_AudioChunk chunk <= m ->
  m < pcm16_bytes sizeof_AudioChunk c0 + pcm16_bytes sizeof_AudioChunk chunk < 2 ^ 64 ->
  Push (x :: d) sr ch now (Build [c0] f m cur)
  = Build [chunk] f m (pcm16_bytes sizeof_AudioChunk chunk).
Proof.
  intros chunk -> HH Hfit Hover.
  unfold AudioBuffer.Push, AudioBuffer.TrimToSize.
  cbn [chunks_ float32Chunks_ maxSizeBytes_ currentSizeBytes_ app trim_loop].
  fold chunk. rewrite !GetChunkSize_bytes.
  remember (pcm16_bytes sizeof_AudioChunk c0) as s0 eqn:E0.
  remember (pcm16_bytes sizeof_AudioChunk chunk) as s1 eqn:E1.
  assert (H0 : 0 <= s0) by (subst s0; unfold pcm16_bytes; lia).
  assert (H1 : 0 <= s1) by (subst s1; unfold pcm16_bytes; lia).
  rewrite (size_t_small s1), (size_t_small s0), (size_t_small (s0 + s1)) by lia.
  replace (s0 + s1 - s0) with s1 by lia.
  rewrite (size_t_small s1) by lia.
  destruct (Z.ltb_spec m (s0 + s1)) as [_|Hle]; [|lia].
  destruct (Z.ltb_spec m s1) as [Hlt|_]; [lia|].
  reflexivity.
Qed.

(** The eviction pass never touches the float32 queue. *)
Lemma PushFloat32_appends x d sr ch now b :
  float32Chunks_ (PushFloat32 (x :: d) sr ch now b)
  = float32Chunks_ b ++ [Float32AudioChunk.Build (x :: d) now sr ch].
Proof.
  unfold AudioBuffer.PushFloat32, AudioBuffer.TrimToSize.
  cbn [chunks_ float32Chunks_ maxSizeBytes_ currentSizeBytes_].
  now destruct (trim_loop sizeof_AudioChunk _ _ _).
Qed.

Lemma pop_loop_takes maxChunks q : forall count cur result,
  let r := pop_loop sizeof_AudioChunk maxChunks count cur q result in
  let n := Z.to_nat (maxChunks - count) in
  snd r = result ++ firstn n q /\ snd (fst r) = skipn n q.
Proof.
  induction q as [|c rest IH]; intros count cur result; cbv zeta; simpl.
  - rewrite firstn_nil, skipn_nil, app_nil_r. split; reflexivity.
  - destruct (count <? maxChunks) eqn:E.
    + apply Z.ltb_lt in E.
      destruct (IH (count + 1) (size_t (cur - GetChunkSize c)) (result ++ [c]))
        as [Hr Hq].
      replace (Z.to_nat (maxChunks - count))
        with (S (Z.to_nat (maxChunks - (count + 1)))) by lia.
      simpl. rewrite Hr, Hq, <- app_assoc. split; reflexivity.
    + apply Z.ltb_ge in E.
      replace (Z.to_nat (maxChunks - count)) with 0%nat by lia.
      simpl. rewrite app_nil_r. split; reflexivity.
Qed.

Lemma pop_loop_float32_takes maxChunks q : forall count cur result,
  let r := pop_loop_float32 maxChunks count cur q result in
  let n := Z.to_nat (maxChunks - count) in
  snd r = result ++ firstn n q /\ snd (fst r) = skipn n q.
Proof.
  induction q as [|c rest IH]; intros count cur result; cbv zeta; simpl.
  - rewrite firstn_nil, skipn_nil, app_nil_r. split; reflexivity.
  - destruct (count <? maxChunks) eqn:E.
    + apply Z.ltb_lt in E.
      destruct (IH (count + 1)
                  (size_t (cur - size_t (Z.of_nat (length (Float32AudioChunk.data c)) * 4)))
                  (result ++ [c])) as [Hr Hq].
      replace (Z.to_nat (maxChunks - count))
        with (S (Z.to_nat (maxChunks - (count + 1)))) by lia.
      simpl. rewrite Hr, Hq, <- app_assoc. split; reflexivity.
    + apply Z.ltb_ge in E.
      replace (Z.to_nat (maxChunks - count)) with 0%nat by lia.
      simpl. rewrite app_nil_r. split; reflexivity.
Qed.

Lemma PopMultiple_takes maxChunks b :
  fst (PopMultiple maxChunks b) = firstn (Z.to_nat maxChunks) (chunks_ b)
  /\ chunks_ (snd (PopMultiple maxChunks b)) = skipn (Z.to_nat maxChunks) (chunks_ b)
  /\ float32Chunks_ (snd (PopMultiple maxChunks b)) = float32Chunks_ b.
Proof.
  unfold AudioBuffer.PopMultiple.
  destruct (pop_loop_takes maxChunks (chunks_ b) 0 (currentSizeBytes_ b) []) as [Hr Hq].
  destruct (pop_loop sizeof_AudioChunk maxChunks 0 (currentSizeBytes_ b) (chunks_ b) [])
    as [[cur q] result].
  rewrite Z.sub_0_r in Hr, Hq. simpl in *. auto.
Qed.

Lemma PopMultipleFloat32_takes maxChunks b :
  fst (PopMultipleFloat32 maxChunks b)
  = firstn (Z.to_nat maxChunks) (float32Chunks_ b)
  /\ float32Chunks_ (snd (PopMultipleFloat32 maxChunks b))
     = skipn (Z.to_nat maxChunks) (float32Chunks_ b)
  /\ chunks_ (snd (PopMultipleFloat32 maxChunks b)) = chunks_ b.
Proof.
  unfold PopMultipleFloat32.
  destruct (pop_loop_float32_takes maxChunks (float32Chunks_ b) 0 (currentSizeBytes_ b) [])
    as [Hr Hq].
  destruct (pop_loop_float32 maxChunks 0 (currentSizeBytes_ b) (float32Chunks_ b) [])
    as [[cur q] result].
  rewrite Z.sub_0_r in Hr, Hq. simpl in *. auto.
Qed.

(** C3 (amended).  FIFO order and batch pops.  On a fresh buffer, three
    non-empty PCM16 chunks pushed in order come back from three [Pop]s in
    that order, and the queue is then empty, provided the three fit the
    byte budget together, so that no push evicts; three non-empty float32
    chunks pushed in order come back from three [PopMultipleFloat32(1)] in
    that order whatever the budget is, since the float32 queue is never
    evicted.  In every state, [PopMultiple(maxChunks)] returns the first
    [min(maxChunks, queue length)] chunks of the PCM16 queue in queue
    order, leaves the rest in the queue and does not touch the float32
    queue; on an empty queue it returns the empty sequence.
    [PopMultipleFloat32] does the same on the float32 queue. *)
Theorem C3_fifo_and_batch_pop :
  (forall B x1 d1 sr1 ch1 t1 x2 d2 sr2 ch2 t2 x3 d3 sr3 ch3 t3,
      0 <= sizeof_AudioChunk ->
      3 * sizeof_AudioChunk
      + 2 * Z.of_nat (length (x1 :: d1) + length (x2 :: d2) + length (x3 :: d3)) <= B ->
      let b := Push (x3 :: d3) sr3 ch3 t3
                 (Push (x2 :: d2) sr2 ch2 t2
                    (Push (x1 :: d1) sr1 ch1 t1 (AudioBuffer B))) in
      let r1 := Pop b in
      let r2 := Pop (snd r1) in
      let r3 := Pop (snd r2) in
      fst r1 = Some (AudioChunk.Build (x1 :: d1) t1 sr1 ch1)
      /\ fst r2 = Some (AudioChunk.Build (x2 :: d2) t2 sr2 ch2)
      /\ fst r3 = Some (AudioChunk.Build (x3 :: d3) t3 sr3 ch3)
      /\ chunks_ (snd r3) = [])
  /\ (forall B x1 d1 sr1 ch1 t1 x2 d2 sr2 ch2 t2 x3 d3 sr3 ch3 t3,
        let b := PushFloat32 (x3 :: d3) sr3 ch3 t3
                   (PushFloat32 (x2 :: d2) sr2 ch2 t2
                      (PushFloat32 (x1 :: d1) sr1 ch1 t1 (AudioBuffer B))) in
        let r1 := PopMultipleFloat32 1 b in
        let r2 := PopMultipleFloat32 1 (snd r1) in
        let r3 := PopMultipleFloat32 1 (snd r2) in
        fst r1 = [Float32AudioChunk.Build (x1 :: d1) t1 sr1 ch1]
        /\ fst r2 = [Float32AudioChunk.Build (x2 :: d2) t2 sr2 ch2]
        /\ fst r3 = [Float32AudioChunk.Build (x3 :: d3) t3 sr3 ch3]
        /\ float32Chunks_ (snd r3) = [])
  /\ (forall maxChunks b,
        let n := Nat.min (Z.to_nat maxChunks) (length (chunks_ b)) in
        fst (PopMultiple maxChunks b) = firstn n (chunks_ b)
        /\ length (fst (PopMultiple maxChunks b)) = n
        /\ chunks_ (snd (PopMultiple maxChunks b)) = skipn n (chunks_ b)
        /\ float32Chunks_ (snd (PopMultiple maxChunks b)) = float32Chunks_ b)
  /\ (forall maxChunks f m cur, fst (PopMultiple maxChunks (Build [] f m cur)) = [])
  /\ (forall maxChunks b,
        let n := Nat.min (Z.to_nat maxChunks) (length (float32Chunks_ b)) in
        fst (PopMultipleFloat32 maxChunks b) = firstn n (float32Chunks_ b)
        /\ length (fst (PopMultipleFloat32 maxChunks b)) = n
        /\ float32Chunks_ (snd (PopMultipleFloat32 maxChunks b))
           = skipn n (float32Chunks_ b)
        /\ chunks_ (snd (PopMultipleFloat32 maxChunks b)) = chunks_ b)
  /\ (forall maxChunks q m cur, fst (PopMultipleFloat32 maxChunks (Build q [] m cur)) = []).
Proof.
  split; [|split; [|split; [|split; [|split]]]].
  - intros B x1 d1 sr1 ch1 t1 x2 d2 sr2 ch2 t2 x3 d3 sr3 ch3 t3 HH Hfit.
    unfold AudioBuffer.AudioBuffer. simpl length in Hfit.
    rewrite (Push_appends_accounted x1 d1 sr1 ch1 t1 [] [] B 0 0);
      [| reflexivity | unfold pcm16_bytes; cbn [AudioChunk.data length]; lia].
    rewrite (Push_appends_accounted x2 d2 sr2 ch2 t2 _ [] B _ _ eq_refl);
      [| unfold pcm16_bytes; cbn [AudioChunk.data length]; lia].
    rewrite (Push_appends_accounted x3 d3 sr3 ch3 t3 _ [] B _ _ eq_refl);
      [| unfold pcm16_bytes; cbn [AudioChunk.data length]; lia].
    cbv zeta. unfold AudioBuffer.Pop.
    cbn [app chunks_ float32Chunks_ maxSizeBytes_ currentSizeBytes_ fst snd].
    repeat split; reflexivity.
  - intros B x1 d1 sr1 ch1 t1 x2 d2 sr2 ch2 t2 x3 d3 sr3 ch3 t3. cbv zeta.
    set (b := PushFloat32 (x3 :: d3) sr3 ch3 t3 _).
    assert (Hq : float32Chunks_ b
                 = [Float32AudioChunk.Build (x1 :: d1) t1 sr1 ch1;
                    Float32AudioChunk.Build (x2 :: d2) t2 sr2 ch2;
                    Float32AudioChunk.Build (x3 :: d3) t3 sr3 ch3]).
    { subst b. rewrite !PushFloat32_appends. reflexivity. }
    destruct (PopMultipleFloat32_takes 1 b) as (R1 & Q1 & _).
    destruct (PopMultipleFloat32_takes 1 (snd (PopMultipleFloat32 1 b))) as (R2 & Q2 & _).
    destruct (PopMultipleFloat32_takes 1
                (snd (PopMultipleFloat32 1 (snd (PopMultipleFloat32 1 b)))))
      as (R3 & Q3 & _).
    rewrite R1, R2, R3, Q3, Q2, Q1, Hq. repeat split; reflexivity.
  - intros maxChunks b. cbv zeta.
    destruct (PopMultiple_takes maxChunks b) as (R & Q & F).
    rewrite R, Q, F, length_firstn.
    destruct (Nat.le_ge_cases (Z.to_nat maxChunks) (length (chunks_ b))) as [Hle|Hge].
    + rewrite Nat.min_l by exact Hle. repeat split; reflexivity.
    + rewrite Nat.min_r by exact Hge.
      rewrite firstn_all, firstn_all2, skipn_all, skipn_all2 by exact Hge.
      repeat split; reflexivity.
  - intros maxChunks f m cur.
    destruct (PopMultiple_takes maxChunks (Build [] f m cur)) as (R & _).
    rewrite R. apply firstn_nil.
  - intros maxChunks b. cbv zeta.
    destruct (PopMultipleFloat32_takes maxChunks b) as (R & Q & F).
    rewrite R, Q, F, length_firstn.
    destruct (Nat.le_ge_cases (Z.to_nat maxChunks) (length (float32Chunks_ b))) as [Hle|Hge].
    + rewrite Nat.min_l by exact Hle. repeat split; reflexivity.
    + rewrite Nat.min_r by exact Hge.
      rewrite firstn_all, firstn_all2, skipn_all, skipn_all2 by exact Hge.
      repeat split; reflexivity.
  - intros maxChunks q m cur.
    destruct (PopMultipleFloat32_takes maxChunks (Build q [] m cur)) as (R & _).
    rewrite R. apply firstn_nil.
Qed.

(** *** The buffered duration *)

Lemma last_cons {A : Type} (a d : A) (l : list A) : last (a :: l) d = last l a.
Proof.
  revert a d. induction l as [|y l IH]; intros a d; [reflexivity|].
  change (last (a :: y :: l) d) with (last (y :: l) d). now rewrite !IH.
Qed.

Lemma uint64_t_add_l a b : uint64_t (uint64_t a + b) = uint64_t (a + b).
Proof. exact (size_t_add_l a b). Qed.

Lemma uint64_t_mul_l a b : uint64_t (uint64_t a * b) = uint64_t (a * b).
Proof. unfold uint64_t, wrap. apply Z.mul_mod_idemp_l. lia. Qed.

Lemma duration_loop_value q : forall total rate,
  Forall (fun c => AudioChunk.channels c <> 0) q ->
  duration_loop q (uint64_t total) rate
  = Value (uint64_t (total + queued_frames q), last (map AudioChunk.sampleRate q) rate).
Proof.
  induction q as [|c rest IH]; intros total rate Hnz; cbn [duration_loop].
  - unfold queued_frames. simpl. now rewrite Z.add_0_r.
  - inversion Hnz as [|c' rest' Hc Hrest]; subst.
    apply Z.eqb_neq in Hc. rewrite Hc, uint64_t_add_l, IH by exact Hrest.
    f_equal. f_equal.
    + unfold queued_frames, sumZ. cbn [map fold_right]. f_equal. lia.
    + cbn [map]. now rewrite last_cons.
Qed.

Lemma duration_loop_faults q :
  Exists (fun c => AudioChunk.channels c = 0) q ->
  forall total rate, duration_loop q total rate = Undefined DivisionByZero.
Proof.
  induction q as [|c rest IH]; intros Hex total rate.
  - inversion Hex.
  - simpl. destruct (AudioChunk.channels c =? 0) eqn:E; [reflexivity|].
    apply IH. inversion Hex as [c' rest' Hc | c' rest' Hrest]; subst.
    + apply Z.eqb_neq in E. contradiction.
    + exact Hrest.
Qed.

Lemma GetBufferedDurationMs_value b :
  Forall (fun c => AudioChunk.channels c <> 0) (chunks_ b) ->
  GetBufferedDurationMs b
  = Value (match chunks_ b with
           | [] => 0
           | _ :: _ =>
               if last_sampleRate (chunks_ b) =? 0 then 0
               else uint64_t (queued_frames (chunks_ b) * 1000)
                    / last_sampleRate (chunks_ b)
           end).
Proof.
  intros Hnz. unfold GetBufferedDurationMs.
  destruct (chunks_ b) as [|c rest] eqn:E; [reflexivity|].
  change 0 with (uint64_t 0) at 1.
  rewrite duration_loop_value by exact Hnz. cbn [bind].
  unfold last_sampleRate. rewrite Z.add_0_l, uint64_t_mul_l.
  destruct (last (map AudioChunk.sampleRate (c :: rest)) 0 =? 0); reflexivity.
Qed.

(** When every chunk holds whole frames of [c] channels, the frames of the
    queue are its samples over [c]. *)
Lemma whole_frames q c :
  Forall (fun chunk => AudioChunk.channels chunk = c
                       /\ Z.of_nat (length (AudioChunk.data chunk)) mod c = 0) q ->
  total_samples q = c * queued_frames q.
Proof.
  unfold total_samples, queued_frames, sumZ.
  induction 1 as [|chunk rest [Hc Hmod] Hrest IH]; cbn [map fold_right]; [lia|].
  rewrite IH, Hc.
  pose proof (Z.div_mod (Z.of_nat (length (AudioChunk.data chunk))) c) as Hdiv.
  destruct (Z.eq_dec c 0) as [->|Hnz].
  - rewrite Z.mod_0_r in Hmod. lia.
  - specialize (Hdiv Hnz). lia.
Qed.

(** C4.  [GetBufferedDurationMs] reads the PCM16 queue only.  When no
    queued chunk has a zero channel count and the frame total times 1000
    fits 64 bits, it returns the frames of the queue (samples over
    channels, chunk by chunk) times 1000 over the sample rate of the chunk
    pushed last, in integer arithmetic; it returns 0 on an empty queue and
    0 when that rate is 0.  A chunk of 960 samples pushed at 48000 Hz mono
    into a fresh buffer whose budget holds it gives 20 and leaves
    [IsEmpty] false; [Pop] then returns that chunk and [IsEmpty] is true
    afterwards.  When all queued
    chunks have the same channel count [c] and hold whole frames, the
    result is the integer part of total samples / [c] / rate * 1000. *)
Theorem C4_buffered_duration :
  (forall b,
      Forall (fun c => AudioChunk.channels c <> 0) (chunks_ b) ->
      0 <= queued_frames (chunks_ b) * 1000 < 2 ^ 64 ->
      GetBufferedDurationMs b = Value (duration_ms_spec (chunks_ b)))
  /\ (forall f m cur, GetBufferedDurationMs (Build [] f m cur) = Value 0)
  /\ (forall b,
        Forall (fun c => AudioChunk.channels c <> 0) (chunks_ b) ->
        last_sampleRate (chunks_ b) = 0 ->
        GetBufferedDurationMs b = Value 0)
  /\ (forall B d now,
        length d = 960%nat ->
        0 <= sizeof_AudioChunk ->
        sizeof_AudioChunk + 1920 <= B ->
        let b := Push d 48000 1 now (AudioBuffer B) in
        GetBufferedDurationMs b = Value 20
        /\ IsEmpty b = false
        /\ fst (Pop b) = Some (AudioChunk.Build d now 48000 1)
        /\ IsEmpty (snd (Pop b)) = true)
  /\ (forall b c,
        0 < c ->
        Forall (fun chunk => AudioChunk.channels chunk = c
                             /\ Z.of_nat (length (AudioChunk.data chunk)) mod c = 0)
               (chunks_ b) ->
        last_sampleRate (chunks_ b) <> 0 ->
        0 <= total_samples (chunks_ b) * 1000 < 2 ^ 64 ->
        GetBufferedDurationMs b
        = Value (total_samples (chunks_ b) * 1000 / (c * last_sampleRate (chunks_ b)))).
Proof.
  split; [|split; [|split; [|split]]].
  - intros b Hnz Hfit. rewrite GetBufferedDurationMs_value by exact Hnz.
    unfold duration_ms_spec. destruct (chunks_ b) as [|c rest]; [reflexivity|].
    unfold uint64_t, wrap. rewrite Z.mod_small by exact Hfit. reflexivity.
  - reflexivity.
  - intros b Hnz Hrate. rewrite GetBufferedDurationMs_value by exact Hnz.
    rewrite Hrate. destruct (chunks_ b); reflexivity.
  - intros B d now Hlen HH Hfit. cbv zeta.
    destruct d as [|x d]; [discriminate Hlen|].
    unfold AudioBuffer.AudioBuffer.
    rewrite (Push_appends_accounted x d 48000 1 now [] [] B 0 0);
      [| reflexivity | unfold pcm16_bytes; cbn [AudioChunk.data]; rewrite Hlen; lia].
    split; [|split; [|split]; reflexivity].
    unfold GetBufferedDurationMs. cbn [chunks_ app duration_loop AudioChunk.channels
      AudioChunk.data AudioChunk.sampleRate]. rewrite Hlen. reflexivity.
  - intros b c Hc Hwhole Hrate Hfit.
    pose proof (whole_frames (chunks_ b) c Hwhole) as Htotal.
    assert (Hnz : Forall (fun chunk => AudioChunk.channels chunk <> 0) (chunks_ b)).
    { eapply Forall_impl; [|exact Hwhole]. intros chunk [Hch _]. lia. }
    rewrite GetBufferedDurationMs_value by exact Hnz.
    destruct (chunks_ b) as [|chunk rest] eqn:E.
    + unfold total_samples. simpl. now rewrite Zdiv_0_l.
    + apply Z.eqb_neq in Hrate. rewrite Hrate. apply Z.eqb_neq in Hrate.
      rewrite Htotal in *.
      unfold uint64_t, wrap. rewrite Z.mod_small by nia.
      replace (c * queued_frames (chunk :: rest) * 1000)
        with (c * (queued_frames (chunk :: rest) * 1000)) by lia.
      rewrite Z.div_mul_cancel_l by lia. reflexivity.
Qed.

(** C10.  [Push] stores a chunk whose channel count is 0 as it stands, and
    on the state so reached [GetBufferedDurationMs] divides by zero.  The
    division faults in every state whose PCM16 queue holds such a chunk;
    when no queued chunk has a zero channel count the function returns a
    value whatever the sample rates are, a rate of 0 giving 0: its only
    zero-check is the one on the rate. *)
Theorem C10_zero_channels_division :
  (forall B x d sr now,
      0 <= sizeof_AudioChunk ->
      sizeof_AudioChunk + 2 * Z.of_nat (length (x :: d)) <= B ->
      let b := Push (x :: d) sr 0 now (AudioBuffer B) in
      chunks_ b = [AudioChunk.Build (x :: d) now sr 0]
      /\ GetBufferedDurationMs b = Undefined DivisionByZero)
  /\ (forall b,
        Exists (fun c => AudioChunk.channels c = 0) (chunks_ b) ->
        GetBufferedDurationMs b = Undefined DivisionByZero)
  /\ (forall b,
        Forall (fun c => AudioChunk.channels c <> 0) (chunks_ b) ->
        exists ms, GetBufferedDurationMs b = Value ms)
  /\ (forall B x d ch now,
        0 <= sizeof_AudioChunk ->
        sizeof_AudioChunk + 2 * Z.of_nat (length (x :: d)) <= B ->
        ch <> 0 ->
        GetBufferedDurationMs (Push (x :: d) 0 ch now (AudioBuffer B)) = Value 0).
Proof.
  split; [|split; [|split]].
  - intros B x d sr now HH Hfit. cbv zeta. unfold AudioBuffer.AudioBuffer.
    rewrite (Push_appends_accounted x d sr 0 now [] [] B 0 0);
      [| reflexivity | unfold pcm16_bytes; cbn [AudioChunk.data]; lia].
    split; reflexivity.
  - intros b Hex. unfold GetBufferedDurationMs.
    destruct (chunks_ b) as [|c rest] eqn:E; [inversion Hex|].
    now rewrite duration_loop_faults.
  - intros b Hnz. rewrite GetBufferedDurationMs_value by exact Hnz. eauto.
  - intros B x d ch now HH Hfit Hch. unfold AudioBuffer.AudioBuffer.
    rewrite (Push_appends_accounted x d 0 ch now [] [] B 0 0);
      [| reflexivity | unfold pcm16_bytes; cbn [AudioChunk.data]; lia].
    rewrite GetBufferedDurationMs_value; [reflexivity|].
    repeat constructor. exact Hch.
Qed.

End QueueProperties.

(** Three one-sample chunks on a default buffer. *)
Lemma C3_fifo_and_batch_pop_witness :
  let b := AudioBuffer.Push 40 [3] 48000 1 2
             (AudioBuffer.Push 40 [2] 48000 1 1
                (AudioBuffer.Push 40 [1] 48000 1 0
                   (AudioBuffer.AudioBuffer AudioBuffer.default_maxSizeBytes))) in
  let r1 := AudioBuffer.Pop 40 b in
  let r2 := AudioBuffer.Pop 40 (snd r1) in
  let r3 := AudioBuffer.Pop 40 (snd r2) in
  (0 <= 40
   /\ 3 * 40 + 2 * Z.of_nat (length [1] + length [2] + length [3])
      <= AudioBuffer.default_maxSizeBytes)
  /\ fst r1 = Some (AudioChunk.Build [1] 0 48000 1)
  /\ fst r2 = Some (AudioChunk.Build [2] 1 48000 1)
  /\ fst r3 = Some (AudioChunk.Build [3] 2 48000 1)
  /\ AudioBuffer.chunks_ (snd r3) = [].
Proof.
  split.
  - vm_compute. split; discriminate.
  - apply (proj1 (C3_fifo_and_batch_pop 40) AudioBuffer.default_maxSizeBytes
             1 [] 48000 1 0 2 [] 48000 1 1 3 [] 48000 1 2).
    + lia.
    + vm_compute. discriminate.
Defined.

Lemma long_chunk_length :
  Z.of_nat (length (0 :: repeat 0 (Z.to_nat 1999999))) = 2000000.
Proof. cbn [length]. rewrite repeat_length. lia. Qed.

(** Eviction breaks the order of the claim.  With a budget of 100 bytes
    and 42-byte chunks the third push evicts the first chunk: the three
    pops yield the second chunk, the third chunk and nothing.  On a default
    buffer (5 MiB) with chunks of 2,000,000 samples each push evicts the
    chunk before it: the first pop yields the third chunk, the second
    nothing. *)
Lemma C3_fifo_counterexample :
  (let b := AudioBuffer.Push 40 [3] 48000 1 2
              (AudioBuffer.Push 40 [2] 48000 1 1
                 (AudioBuffer.Push 40 [1] 48000 1 0
                    (AudioBuffer.AudioBuffer 100))) in
   let r1 := AudioBuffer.Pop 40 b in
   let r2 := AudioBuffer.Pop 40 (snd r1) in
   let r3 := AudioBuffer.Pop 40 (snd r2) in
   fst r1 <> Some (AudioChunk.Build [1] 0 48000 1)
   /\ fst r1 = Some (AudioChunk.Build [2] 1 48000 1)
   /\ fst r2 = Some (AudioChunk.Build [3] 2 48000 1)
   /\ fst r3 = None)
  /\ (let d := 0 :: repeat 0 (Z.to_nat 1999999) in
      let b := AudioBuffer.Push 40 d 48000 1 2
                 (AudioBuffer.Push 40 d 48000 1 1
                    (AudioBuffer.Push 40 d 48000 1 0
                       (AudioBuffer.AudioBuffer AudioBuffer.default_maxSizeBytes))) in
      let r1 := AudioBuffer.Pop 40 b in
      let r2 := AudioBuffer.Pop 40 (snd r1) in
      fst r1 <> Some (AudioChunk.Build d 0 48000 1)
      /\ fst r1 = Some (AudioChunk.Build d 2 48000 1)
      /\ fst r2 = None).
Proof.
  split.
  - vm_compute. repeat split; try reflexivity. discriminate.
  - cbv zeta. unfold AudioBuffer.AudioBuffer.
    assert (Hbytes : forall now,
               AudioBuffer.pcm16_bytes 40
                 (AudioChunk.Build (0 :: repeat 0 (Z.to_nat 1999999)) now 48000 1)
               = 4000040).
    { intros now. unfold AudioBuffer.pcm16_bytes. cbn [AudioChunk.data].
      rewrite long_chunk_length. reflexivity. }
    rewrite (Push_appends_accounted 40 0 (repeat 0 (Z.to_nat 1999999)) 48000 1 0
               [] [] AudioBuffer.default_maxSizeBytes 0 0);
      [| reflexivity | rewrite Hbytes; vm_compute; split; discriminate ].
    cbn [app].
    rewrite (Push_evicts_front 40 0 (repeat 0 (Z.to_nat 1999999)) 48000 1 1);
      [| rewrite Hbytes; reflexivity | lia
       | rewrite Hbytes; vm_compute; discriminate
       | rewrite !Hbytes; vm_compute; split; reflexivity ].
    rewrite (Push_evicts_front 40 0 (repeat 0 (Z.to_nat 1999999)) 48000 1 2);
      [| reflexivity | lia
       | rewrite Hbytes; vm_compute; discriminate
       | rewrite !Hbytes; vm_compute; split; reflexivity ].
    unfold AudioBuffer.Pop.
    cbn [AudioBuffer.chunks_ AudioBuffer.float32Chunks_ AudioBuffer.maxSizeBytes_
         AudioBuffer.currentSizeBytes_ fst snd].
    split; [|split; reflexivity].
    intros Heq.
    assert (Hts : 2 = 0)
      by exact (f_equal (fun o => match o with
                                  | Some c => AudioChunk.timestamp c
                                  | None => 0
                                  end) Heq).
    discriminate Hts.
Qed.

(** The scenario of the specification on a default buffer, and the general
    formula on the state it reaches. *)
Lemma C4_buffered_duration_witness :
  let d := repeat 0 960 in
  let b := AudioBuffer.Push 40 d 48000 1 0
             (AudioBuffer.AudioBuffer AudioBuffer.default_maxSizeBytes) in
  (length d = 960%nat /\ 0 <= 40 /\ 40 + 1920 <= AudioBuffer.default_maxSizeBytes)
  /\ (AudioBuffer.GetBufferedDurationMs b = Value 20
      /\ AudioBuffer.IsEmpty b = false
      /\ fst (AudioBuffer.Pop 40 b) = Some (AudioChunk.Build d 0 48000 1)
      /\ AudioBuffer.IsEmpty (snd (AudioBuffer.Pop 40 b)) = true)
  /\ (Forall (fun c => AudioChunk.channels c <> 0) (AudioBuffer.chunks_ b)
      /\ 0 <= AudioBuffer.queued_frames (AudioBuffer.chunks_ b) * 1000 < 2 ^ 64)
  /\ AudioBuffer.GetBufferedDurationMs b
     = Value (AudioBuffer.duration_ms_spec (AudioBuffer.chunks_ b)).
Proof.
  assert (Hnz : Forall (fun c => AudioChunk.channels c <> 0)
                  (AudioBuffer.chunks_
                     (AudioBuffer.Push 40 (repeat 0 960) 48000 1 0
                        (AudioBuffer.AudioBuffer AudioBuffer.default_maxSizeBytes)))).
  { vm_compute. repeat constructor. discriminate. }
  assert (Hfit : 0 <= AudioBuffer.queued_frames
                        (AudioBuffer.chunks_
                           (AudioBuffer.Push 40 (repeat 0 960) 48000 1 0
                              (AudioBuffer.AudioBuffer AudioBuffer.default_maxSizeBytes)))
                      * 1000 < 2 ^ 64).
  { vm_compute. split; [discriminate | reflexivity]. }
  cbv zeta. split; [|split; [|split]].
  - split; [reflexivity | split; [lia | vm_compute; discriminate]].
  - apply (proj1 (proj2 (proj2 (proj2 (C4_buffered_duration 40))))
             AudioBuffer.default_maxSizeBytes (repeat 0 960) 0).
    + reflexivity.
    + lia.
    + vm_compute. discriminate.
  - split; [exact Hnz | exact Hfit].
  - apply (proj1 (C4_buffered_duration 40) _ Hnz Hfit).
Defined.

(** One sample pushed with a channel count of 0 on a default buffer. *)
Lemma C10_zero_channels_division_witness :
  let b := AudioBuffer.Push 40 [1] 48000 0 0
             (AudioBuffer.AudioBuffer AudioBuffer.default_maxSizeBytes) in
  (0 <= 40 /\ 40 + 2 * Z.of_nat (length [1]) <= AudioBuffer.default_maxSizeBytes)
  /\ AudioBuffer.chunks_ b = [AudioChunk.Build [1] 0 48000 0]
  /\ AudioBuffer.GetBufferedDurationMs b = Undefined DivisionByZero.
Proof.
  split.
  - split; [lia | vm_compute; discriminate].
  - apply (proj1 (C10_zero_channels_division 40)
             AudioBuffer.default_maxSizeBytes 1 [] 48000 0).
    + lia.
    + vm_compute. discriminate.
Defined.

(** ** The format converter *)

Lemma int16_t_id z : is_int16 z -> int16_t z = z.
Proof.
  unfold is_int16, int16_t, swrap. intros Hz.
  change (2 ^ (16 - 1)) with 32768. change (2 ^ 16) with 65536.
  rewrite Z.mod_small; lia.
Qed.

Lemma int32_t_id z : is_int32 z -> int32_t z = z.
Proof.
  unfold is_int32, int32_t, swrap. intros Hz.
  change (2 ^ (32 - 1)) with 2147483648. change (2 ^ 32) with 4294967296.
  rewrite Z.mod_small; lia.
Qed.

Lemma int16_t_range z : is_int16 (int16_t z).
Proof.
  unfold is_int16, int16_t, swrap.
  change (2 ^ (16 - 1)) with 32768. change (2 ^ 16) with 65536.
  pose proof (Z.mod_pos_bound (z + 32768) 65536). lia.
Qed.

Lemma u8_range b : 0 <= u8 b < 256.
Proof. unfold u8. pose proof (Byte.to_N_bounded b). lia. Qed.

(** *** Bytes joined with [|] and [<<] *)

Lemma lor_shiftl_add a b n :
  0 <= n -> 0 <= a < 2 ^ n -> Z.lor a (Z.shiftl b n) = a + b * 2 ^ n.
Proof.
  intros Hn Ha. rewrite <- Z.shiftl_mul_pow2 by exact Hn.
  assert (Hdisjoint : Z.land a (Z.shiftl b n) = 0).
  { apply Z.bits_inj'. intros i Hi.
    rewrite Z.land_spec, Z.bits_0.
    destruct (Z.lt_ge_cases i n) as [Hlt|Hge].
    - rewrite (Z.shiftl_spec_low b n i Hlt). apply andb_false_r.
    - rewrite <- (Z.mod_small a (2 ^ n)) by exact Ha.
      rewrite Z.mod_pow2_bits_high by lia. reflexivity. }
  rewrite <- (Z.lxor_lor _ _ Hdisjoint). symmetry.
  apply Z.add_nocarry_lxor. exact Hdisjoint.
Qed.

Lemma land_bit a n :
  0 <= n -> Z.land a (2 ^ n) = if Z.testbit a n then 2 ^ n else 0.
Proof.
  intros Hn. apply Z.bits_inj'. intros i Hi.
  rewrite Z.land_spec, Z.pow2_bits_eqb by exact Hn.
  destruct (Z.eqb_spec n i) as [->|Hne].
  - destruct (Z.testbit a i); [|now rewrite Z.bits_0].
    rewrite Z.pow2_bits_true by exact Hi. reflexivity.
  - rewrite andb_false_r.
    destruct (Z.testbit a n); [|now rewrite Z.bits_0].
    rewrite Z.pow2_bits_false by exact Hne. reflexivity.
Qed.

Lemma testbit23 v : 0 <= v < 2 ^ 24 -> Z.testbit v 23 = (8388608 <=? v).
Proof.
  intros Hv. change (2 ^ 24) with 16777216 in Hv.
  destruct (Z.leb_spec 8388608 v) as [Hge|Hlt].
  - apply Z.testbit_true; [lia|]. change (2 ^ 23) with 8388608.
    replace (v / 8388608) with 1; [reflexivity|].
    apply Z.div_unique with (r := v - 8388608); lia.
  - apply Z.testbit_false; [lia|]. change (2 ^ 23) with 8388608.
    rewrite Z.div_small by lia. reflexivity.
Qed.

Lemma land_0x800000 v :
  0 <= v < 2 ^ 24 -> (Z.land v 8388608 =? 0) = negb (8388608 <=? v).
Proof.
  intros Hv. change 8388608 with (2 ^ 23) at 1.
  rewrite land_bit, (testbit23 v Hv) by lia.
  destruct (8388608 <=? v); reflexivity.
Qed.

(** The sign extension [sample24 |= 0xFF000000] on a 24-bit value with
    bit 23 set. *)
Lemma sign_extend24 v :
  8388608 <= v < 2 ^ 24 -> int32_t (Z.lor (uint32_t v) 4278190080) = v - 2 ^ 24.
Proof.
  change (2 ^ 24) with 16777216. intros Hv.
  unfold uint32_t, wrap. change (2 ^ 32) with 4294967296.
  rewrite Z.mod_small by lia.
  change 4278190080 with (Z.shiftl 255 24).
  rewrite lor_shiftl_add by (change (2 ^ 24) with 16777216; lia).
  unfold int32_t, swrap.
  change (2 ^ (32 - 1)) with 2147483648. change (2 ^ 32) with 4294967296.
  change (2 ^ 24) with 16777216.
  replace (v + 255 * 16777216 + 2147483648)
    with (v + 2130706432 + 1 * 4294967296) by lia.
  rewrite Z.mod_add by lia. rewrite Z.mod_small; lia.
Qed.

Section ConverterProperties.

Import AudioFormatConverter.

(** The 24-bit round of the source computes what the specification
    describes, a value of [int16_t] that is negative exactly when bit 7 of
    the third byte is set. *)
Lemma decode24_refines b0 b1 b2 :
  0 <= b0 < 256 -> 0 <= b1 < 256 -> 0 <= b2 < 256 ->
  decode24 b0 b1 b2 = decode24_spec b0 b1 b2
  /\ decode24 b0 b1 b2 = b1 + 256 * b2 - (if 128 <=? b2 then 65536 else 0).
Proof.
  intros H0 H1 H2. unfold decode24, decode24_spec. cbv zeta.
  rewrite (lor_shiftl_add b0 b1 8) by (change (2 ^ 8) with 256; lia).
  rewrite (lor_shiftl_add (b0 + b1 * 2 ^ 8) b2 16)
    by (change (2 ^ 8) with 256; change (2 ^ 16) with 65536; lia).
  remember (b0 + b1 * 2 ^ 8 + b2 * 2 ^ 16) as v eqn:Ev.
  change (2 ^ 8) with 256 in Ev. change (2 ^ 16) with 65536 in Ev.
  assert (Hv : 0 <= v < 2 ^ 24) by (change (2 ^ 24) with 16777216; lia).
  rewrite (land_0x800000 v Hv), (testbit23 v Hv).
  destruct (Z.leb_spec 8388608 v) as [Hneg|Hpos]; cbn [negb].
  - rewrite sign_extend24 by lia. rewrite Z.shiftr_div_pow2 by lia.
    change (2 ^ 24) with 16777216 in *. change (2 ^ 8) with 256.
    assert (Hq : (v - 16777216) / 256 = b1 + 256 * b2 - 65536).
    { symmetry. apply Z.div_unique with (r := b0); lia. }
    rewrite Hq, int16_t_id by (unfold is_int16; lia).
    destruct (Z.leb_spec 128 b2); [split; reflexivity | lia].
  - rewrite Z.shiftr_div_pow2 by lia.
    change (2 ^ 24) with 16777216 in *. change (2 ^ 8) with 256.
    assert (Hq : v / 256 = b1 + 256 * b2).
    { symmetry. apply Z.div_unique with (r := b0); lia. }
    rewrite Hq, int16_t_id by (unfold is_int16; lia).
    destruct (Z.leb_spec 128 b2); [lia | split; [reflexivity | lia]].
Qed.

(** *** Loops that advance by two or three elements *)

Lemma pair_induction {A : Type} (P : list A -> Prop) :
  P [] -> (forall a, P [a]) -> (forall a b l, P l -> P (a :: b :: l)) ->
  forall l, P l.
Proof.
  intros H0 H1 H2.
  assert (H : forall l, P l /\ forall a, P (a :: l)).
  { induction l as [|x l [IH0 IH1]]; [auto|].
    split; [apply IH1|]. intros a. apply H2. exact IH0. }
  intros l. apply H.
Qed.

Lemma triple_induction {A : Type} (P : list A -> Prop) :
  P [] -> (forall a, P [a]) -> (forall a b, P [a; b]) ->
  (forall a b c l, P l -> P (a :: b :: c :: l)) ->
  forall l, P l.
Proof.
  intros H0 H1 H2 H3.
  assert (H : forall l, P l /\ (forall a, P (a :: l)) /\ (forall a b, P (a :: b :: l))).
  { induction l as [|x l (IH0 & IH1 & IH2)]; [auto|].
    split; [apply IH1|]. split; [intros a; apply IH2|].
    intros a b. apply H3. exact IH0. }
  intros l. apply H.
Qed.

(** The indexed 24-bit loop visits the runs of three bytes in order. *)
Lemma decode_loop_triplets (f : Z -> Z -> Z -> Z) (data : list byte) :
  map (fun i => f (byte_at data (i * 3)) (byte_at data (i * 3 + 1))
                 (byte_at data (i * 3 + 2)))
      (seq 0 (Z.to_nat (Z.of_nat (length data) / 3)))
  = map (fun '(b0, b1, b2) => f b0 b1 b2) (triplets data).
Proof.
  induction data as [| a | a b | a b c l IH] using triple_induction;
    try reflexivity.
  assert (Hn : Z.to_nat (Z.of_nat (length (a :: b :: c :: l)) / 3)
               = S (Z.to_nat (Z.of_nat (length l) / 3))).
  { cbn [length]. rewrite !Nat2Z.inj_succ.
    replace (Z.succ (Z.succ (Z.succ (Z.of_nat (length l)))))
      with (Z.of_nat (length l) + 1 * 3) by lia.
    rewrite Z.div_add by lia.
    pose proof (Z.div_pos (Z.of_nat (length l)) 3). lia. }
  rewrite Hn. cbn [seq map triplets]. f_equal.
  rewrite <- seq_shift, map_map, <- IH. apply map_ext. intros i. reflexivity.
Qed.

Lemma decode24_triplets (data : list byte) :
  map (fun '(b0, b1, b2) => decode24 b0 b1 b2) (triplets data)
  = map (fun '(b0, b1, b2) => decode24_spec b0 b1 b2) (triplets data).
Proof.
  induction data as [| a | a b | a b c l IH] using triple_induction;
    try reflexivity.
  cbn [triplets map]. rewrite IH. f_equal.
  apply decode24_refines; apply u8_range.
Qed.

(** C5.  The 24-bit branch of [ConvertToPCM16].  Each round of the loop
    computes, from three bytes, the little-endian 24-bit value,
    sign-extended from bit 23 and shifted right arithmetically by 8; the
    result is an [int16_t] that is negative exactly when bit 23 is set.
    For a sample of 24 bits per sample, Step 1 yields these values for the
    successive runs of three bytes, and [ConvertToPCM16] returns them, or
    their stereo downmix when that is asked for.  The bytes
    [0x00,0x00,0x80] decode to -32768 and [0xFF,0xFF,0x7F] to 32767. *)
Theorem C5_decode_24bit :
  (forall b0 b1 b2 : byte,
      let r := decode24 (u8 b0) (u8 b1) (u8 b2) in
      r = decode24_spec (u8 b0) (u8 b1) (u8 b2)
      /\ is_int16 r
      /\ (r < 0 <-> Z.testbit (u8 b0 + u8 b1 * 2 ^ 8 + u8 b2 * 2 ^ 16) 23 = true))
  /\ (forall input targetSampleRate targetChannels,
        AudioFormat.bitsPerSample (AudioSample.format input) = 24 ->
        let decoded := map (fun '(b0, b1, b2) => decode24_spec b0 b1 b2)
                           (triplets (AudioSample.data input)) in
        pcm16_step1 input = Value (Some decoded)
        /\ ConvertToPCM16 input targetSampleRate targetChannels
           = Value (if (1 <? AudioFormat.channels (AudioSample.format input))
                       && (targetChannels =? 1)
                    then StereoToMono decoded
                    else decoded))
  /\ ConvertToPCM16 (sample_of [x00; x00; x80] (format_of 1 24 false false)) 48000 1
     = Value [-32768]
  /\ ConvertToPCM16 (sample_of [xff; xff; x7f] (format_of 1 24 false false)) 48000 1
     = Value [32767].
Proof.
  split; [|split; [|split; reflexivity]].
  - intros b0 b1 b2. cbv zeta.
    pose proof (u8_range b0) as H0. pose proof (u8_range b1) as H1.
    pose proof (u8_range b2) as H2.
    destruct (decode24_refines _ _ _ H0 H1 H2) as [Hspec Hval].
    split; [exact Hspec|]. rewrite Hval.
    rewrite testbit23
      by (change (2 ^ 8) with 256; change (2 ^ 16) with 65536;
          change (2 ^ 24) with 16777216; lia).
    change (2 ^ 8) with 256. change (2 ^ 16) with 65536.
    destruct (Z.leb_spec 128 (u8 b2));
      destruct (Z.leb_spec 8388608 (u8 b0 + u8 b1 * 256 + u8 b2 * 65536));
      unfold is_int16; try lia;
      (split; [lia|]; split; [intros _; try reflexivity; lia | intros Hbit; try lia; discriminate Hbit]).
  - intros input rate tc Hbps. cbv zeta.
    assert (Hstep : pcm16_step1 input
                    = Value (Some (map (fun '(b0, b1, b2) => decode24_spec b0 b1 b2)
                                       (triplets (AudioSample.data input))))).
    { unfold pcm16_step1. rewrite Hbps. cbn [Z.eqb Pos.eqb].
      now rewrite (decode_loop_triplets decode24), decode24_triplets. }
    split; [exact Hstep|].
    unfold ConvertToPCM16. rewrite Hstep.
    destruct (AudioSample.data input) as [|b rest]; cbn [bind].
    + destruct ((1 <? AudioFormat.channels (AudioSample.format input)) && (tc =? 1));
        reflexivity.
    + destruct ((1 <? AudioFormat.channels (AudioSample.format input)) && (tc =? 1));
        reflexivity.
Qed.

(** C6.  Unsupported bit depths fail softly.  For a non-empty sample,
    [ConvertToMonoFloat32] returns the empty sequence when the bit depth
    is neither 16 nor 32, and [ConvertToPCM16] returns the empty sequence
    when it is none of 16, 24 and 32; in both cases the result is a value,
    not a fault. *)
Theorem C6_unsupported_bit_depth :
  forall input : AudioSample.t,
    AudioSample.data input <> [] ->
    let bits := AudioFormat.bitsPerSample (AudioSample.format input) in
    (bits <> 16 -> bits <> 32 -> ConvertToMonoFloat32 input = Value [])
    /\ (bits <> 16 -> bits <> 24 -> bits <> 32 ->
        forall targetSampleRate targetChannels,
          ConvertToPCM16 input targetSampleRate targetChannels = Value []).
Proof.
  intros input Hne. cbv zeta. split.
  - intros H16 H32. unfold ConvertToMonoFloat32, float32_step1.
    destruct (AudioSample.data input) as [|b rest]; [reflexivity|].
    apply Z.eqb_neq in H16, H32. rewrite H16, H32. reflexivity.
  - intros H16 H24 H32 rate tc. unfold ConvertToPCM16, pcm16_step1.
    destruct (AudioSample.data input) as [|b rest]; [reflexivity|].
    apply Z.eqb_neq in H16, H24, H32. rewrite H16, H24, H32. reflexivity.
Qed.

(** *** Stereo to mono *)

Lemma stereo_loop_nth (stereoData : list Z) :
  Forall is_int16 stereoData ->
  forall (i : nat) (mono : Z),
    nth_error (stereo_loop stereoData) i = Some mono ->
    exists l r,
      nth_error stereoData (2 * i) = Some l
      /\ nth_error stereoData (2 * i + 1) = Some r
      /\ is_int32 (l + r)
      /\ mono = Z.shiftr (l + r) 1
      /\ is_int16 mono.
Proof.
  induction stereoData as [| a | a b rest IH] using pair_induction;
    intros Hall i mono Hnth.
  - destruct i; discriminate Hnth.
  - destruct i; discriminate Hnth.
  - inversion Hall as [|a' l' Ha Hall']; subst.
    inversion Hall' as [|b' l'' Hb Hrest]; subst.
    destruct i as [|i].
    + cbn [stereo_loop nth_error] in Hnth. injection Hnth as <-. exists a, b.
      unfold is_int16 in Ha, Hb.
      assert (H32 : is_int32 (a + b)) by (unfold is_int32; lia).
      rewrite (int32_t_id _ H32), Z.shiftr_div_pow2 by lia. change (2 ^ 1) with 2.
      assert (H16 : is_int16 ((a + b) / 2)).
      { unfold is_int16. pose proof (Z.div_mod (a + b) 2).
        pose proof (Z.mod_pos_bound (a + b) 2). lia. }
      rewrite (int16_t_id _ H16).
      split; [reflexivity|]. split; [reflexivity|]. split; [exact H32|].
      split; [reflexivity | exact H16].
    + cbn [stereo_loop nth_error] in Hnth.
      destruct (IH Hrest i mono Hnth) as (l & r & Hl & Hr & Hrange).
      exists l, r. replace (2 * S i)%nat with (S (S (2 * i))) by lia.
      cbn [nth_error Nat.add]. auto.
Qed.

Lemma stereo_loop_length (stereoData : list Z) :
  Z.of_nat (length stereoData) mod 2 = 0 ->
  (2 * length (stereo_loop stereoData) = length stereoData)%nat.
Proof.
  induction stereoData as [| a | a b rest IH] using pair_induction; intros Heven.
  - reflexivity.
  - discriminate Heven.
  - cbn [stereo_loop length] in *.
    assert (Hrest : Z.of_nat (length rest) mod 2 = 0).
    { rewrite !Nat2Z.inj_succ in Heven.
      replace (Z.succ (Z.succ (Z.of_nat (length rest))))
        with (Z.of_nat (length rest) + 1 * 2) in Heven by lia.
      now rewrite Z.mod_add in Heven by lia. }
    specialize (IH Hrest). lia.
Qed.

(** Every sample Step 1 of [ConvertToPCM16] produces went through a cast
    to [int16_t]. *)
Lemma pcm16_step1_int16 input samples :
  pcm16_step1 input = Value (Some samples) -> Forall is_int16 samples.
Proof.
  unfold pcm16_step1.
  repeat match goal with
         | |- context [if ?c then _ else _] => destruct c
         end;
    intros Heq; try discriminate Heq; injection Heq as <-;
    unfold FloatToInt16, Int32ToInt16, load_int16, planar_float_to_int16,
      float_to_int16, decode24;
    apply Forall_forall; intros x Hin.
  - apply in_map_iff in Hin. destruct Hin as (i & <- & _). apply int16_t_range.
  - apply in_flat_map in Hin. destruct Hin as (i & _ & [<- | [<- | []]]);
      apply int16_t_range.
  - apply in_map_iff in Hin. destruct Hin as (i & <- & _). apply int16_t_range.
  - apply in_map_iff in Hin. destruct Hin as (i & <- & _). apply int16_t_range.
  - apply in_map_iff in Hin. destruct Hin as (i & <- & _). apply int16_t_range.
Qed.

(** C7.  Stereo-to-mono downmix.  On samples of [int16_t], every output
    sample of [StereoToMono] is [(left + right) >> 1] for the pair of
    adjacent input samples at its position, the sum stays within
    [int32_t] and the result within [int16_t]; an input of even length
    yields one output per pair.  [ConvertToPCM16] applies [StereoToMono]
    to the samples of Step 1, which are [int16_t] values, exactly when the
    source has more than one channel and [targetChannels] is 1.
    [StereoToMono [100; 200; -100; -200]] is [[150; -150]]. *)
Theorem C7_stereo_downmix :
  (forall stereoData : list Z,
      Forall is_int16 stereoData ->
      forall (i : nat) (mono : Z),
        nth_error (StereoToMono stereoData) i = Some mono ->
        exists l r,
          nth_error stereoData (2 * i) = Some l
          /\ nth_error stereoData (2 * i + 1) = Some r
          /\ is_int32 (l + r)
          /\ mono = Z.shiftr (l + r) 1
          /\ is_int16 mono)
  /\ (forall stereoData : list Z,
        Z.of_nat (length stereoData) mod 2 = 0 ->
        (2 * length (StereoToMono stereoData) = length stereoData)%nat)
  /\ (forall input targetSampleRate targetChannels samples,
        AudioSample.data input <> [] ->
        pcm16_step1 input = Value (Some samples) ->
        Forall is_int16 samples
        /\ ConvertToPCM16 input targetSampleRate targetChannels
           = Value (if (1 <? AudioFormat.channels (AudioSample.format input))
                       && (targetChannels =? 1)
                    then StereoToMono samples
                    else samples))
  /\ StereoToMono [100; 200; -100; -200] = [150; -150].
Proof.
  split; [|split; [|split; [|reflexivity]]].
  - intros stereoData Hall i mono. unfold StereoToMono.
    destruct (Z.of_nat (length stereoData) mod 2 =? 0).
    + apply stereo_loop_nth. exact Hall.
    + destruct i; discriminate.
  - intros stereoData Heven. unfold StereoToMono. rewrite Heven. cbn [Z.eqb].
    apply stereo_loop_length. exact Heven.
  - intros input rate tc samples Hne Hstep.
    split; [exact (pcm16_step1_int16 input samples Hstep)|].
    unfold ConvertToPCM16. rewrite Hstep.
    destruct (AudioSample.data input) as [|b rest]; [now elim Hne|]. cbn [bind].
    destruct ((1 <? AudioFormat.channels (AudioSample.format input)) && (tc =? 1));
      reflexivity.
Qed.

(** C9.  [StereoToMono] returns the empty sequence on every input of odd
    length; no pair of the input is kept. *)
Theorem C9_odd_length_discarded :
  forall stereoData : list Z,
    Nat.odd (length stereoData) = true ->
    StereoToMono stereoData = [].
Proof.
  intros stereoData Hodd. unfold StereoToMono.
  apply Nat.odd_spec in Hodd. destruct Hodd as [m Hm]. rewrite Hm.
  replace (Z.of_nat (2 * m + 1)) with (1 + Z.of_nat m * 2) by lia.
  rewrite Z.mod_add by lia. reflexivity.
Qed.

(** *** Float samples at or above full scale *)

(** The comparison of mantissas [SFcompare] uses, with its arguments
    swapped. *)
Lemma compare_cont_antisym (p q : positive) (c : comparison) :
  CompOpp (PosDef.Pos.compare_cont c p q) = PosDef.Pos.compare_cont (CompOpp c) q p.
Proof.
  revert q c. induction p as [p IH | p IH |]; intros [q | q |] c; cbn;
    try rewrite IH; reflexivity.
Qed.

(** [1.0f <= x] excludes [x < 1.0f], and [x] is not a NaN. *)
Lemma one_le_not_lt (x : spec_float) :
  SFleb Float32.one x = true -> SFltb x Float32.one = false /\ Float32.is_nan x = false.
Proof.
  change Float32.one with (S754_finite false 8388608 (-23)).
  unfold SFleb, SFltb. destruct x as [s | s | | s m e]; cbn [SFcompare Float32.is_nan].
  - discriminate.
  - destruct s; [discriminate | auto].
  - discriminate.
  - destruct s; [discriminate|].
    rewrite (Z.compare_antisym (-23) e).
    destruct (-23 ?= e) eqn:E; cbn [CompOpp]; try discriminate; auto.
    pose proof (compare_cont_antisym 8388608 m Eq) as Hanti.
    cbn [CompOpp] in Hanti. rewrite <- Hanti.
    destruct (PosDef.Pos.compare_cont Eq 8388608 m); cbn [CompOpp];
      try discriminate; auto.
Qed.

Lemma clamp_above_one (x : spec_float) :
  SFleb Float32.one x = true ->
  Float32.std_min Float32.one x = Float32.one
  /\ Float32.fmin Float32.one x = Float32.one.
Proof.
  intros Hx. destruct (one_le_not_lt x Hx) as [Hlt Hnan].
  unfold Float32.std_min, Float32.fmin. rewrite Hlt, Hnan. split; reflexivity.
Qed.

(** [ConvertToPCM16] on one mono float sample, and on one frame of
    non-interleaved stereo floats. *)
Lemma pcm16_of_one_float (b0 b1 b2 b3 : byte) targetSampleRate targetChannels :
  ConvertToPCM16 (sample_of [b0; b1; b2; b3] (format_of 1 32 true false))
    targetSampleRate targetChannels
  = Value [float_to_int16 (load_float [b0; b1; b2; b3] 0)].
Proof. reflexivity. Qed.

Lemma pcm16_of_planar_frame (l0 l1 l2 l3 r0 r1 r2 r3 : byte) targetSampleRate :
  ConvertToPCM16 (sample_of [l0; l1; l2; l3; r0; r1; r2; r3] (format_of 2 32 true true))
    targetSampleRate 2
  = Value [planar_float_to_int16 (load_float [l0; l1; l2; l3; r0; r1; r2; r3] 0);
           planar_float_to_int16 (load_float [l0; l1; l2; l3; r0; r1; r2; r3] 1)].
Proof. reflexivity. Qed.

(** C8.  A float sample at or above full scale becomes -32768.  For every
    [x] with [1.0f <= x], infinity included, both float-to-int16
    conversions of [ConvertToPCM16] (the loop of [FloatToInt16] and the
    inline one of the non-interleaved branch) return -32768, not 32767:
    the clamp gives 1.0, [lrintf(1.0 * 32768.0)] is 32768, and the cast to
    [int16_t] takes 32768 to -32768.  Hence [ConvertToPCM16] returns
    -32768 for a mono float sample whose four bytes denote such an [x],
    and for each channel of a non-interleaved stereo frame of such
    floats; the four bytes of [1.0f] are an instance. *)
Theorem C8_full_scale_float_wraps :
  (forall x : spec_float,
      SFleb Float32.one x = true ->
      float_to_int16 x = -32768 /\ planar_float_to_int16 x = -32768)
  /\ (forall samples : list spec_float,
        Forall (fun x => SFleb Float32.one x = true) samples ->
        FloatToInt16 samples = repeat (-32768) (length samples))
  /\ Float32.lrintf (Float32.mul Float32.one Float32.c32768) = 32768
  /\ int16_t 32768 = -32768
  /\ (forall (b0 b1 b2 b3 : byte) targetSampleRate targetChannels,
        SFleb Float32.one (load_float [b0; b1; b2; b3] 0) = true ->
        ConvertToPCM16 (sample_of [b0; b1; b2; b3] (format_of 1 32 true false))
          targetSampleRate targetChannels
        = Value [-32768])
  /\ (forall (l0 l1 l2 l3 r0 r1 r2 r3 : byte) targetSampleRate,
        let data := [l0; l1; l2; l3; r0; r1; r2; r3] in
        SFleb Float32.one (load_float data 0) = true ->
        SFleb Float32.one (load_float data 1) = true ->
        ConvertToPCM16 (sample_of data (format_of 2 32 true true)) targetSampleRate 2
        = Value [-32768; -32768])
  /\ ConvertToPCM16 (sample_of [x00; x00; x80; x3f] (format_of 1 32 true false)) 48000 1
     = Value [-32768].
Proof.
  assert (Hone : forall x, SFleb Float32.one x = true ->
                           float_to_int16 x = -32768 /\ planar_float_to_int16 x = -32768).
  { intros x Hx. destruct (clamp_above_one x Hx) as [Hmin Hfmin].
    unfold float_to_int16, planar_float_to_int16. rewrite Hmin, Hfmin.
    split; vm_compute; reflexivity. }
  split; [exact Hone|]. split; [|split; [|split; [|split; [|split]]]].
  - intros samples Hall. unfold FloatToInt16.
    induction Hall as [|x rest Hx Hrest IH]; [reflexivity|].
    cbn [map length repeat]. rewrite IH, (proj1 (Hone x Hx)). reflexivity.
  - vm_compute. reflexivity.
  - vm_compute. reflexivity.
  - intros b0 b1 b2 b3 rate tc Hx.
    rewrite pcm16_of_one_float, (proj1 (Hone _ Hx)). reflexivity.
  - intros l0 l1 l2 l3 r0 r1 r2 r3 rate data Hl Hr. subst data.
    rewrite pcm16_of_planar_frame, (proj2 (Hone _ Hl)), (proj2 (Hone _ Hr)).
    reflexivity.
  - vm_compute. reflexivity.
Qed.

End ConverterProperties.

(** The bytes [0xFF,0xFF,0xFF] as one mono 24-bit sample. *)
Lemma C5_decode_24bit_witness :
  let input := AudioFormatConverter.sample_of [xff; xff; xff]
                 (AudioFormatConverter.format_of 1 24 false false) in
  AudioFormat.bitsPerSample (AudioSample.format input) = 24
  /\ AudioFormatConverter.ConvertToPCM16 input 48000 1 = Value [-1].
Proof.
  split; [reflexivity|].
  apply (proj2 (proj1 (proj2 C5_decode_24bit)
                  (AudioFormatConverter.sample_of [xff; xff; xff]
                     (AudioFormatConverter.format_of 1 24 false false))
                  48000 1 eq_refl)).
Defined.

(** Two bytes announced as 8 bits per sample. *)
Lemma C6_unsupported_bit_depth_witness :
  let input := AudioFormatConverter.sample_of [x01; x02]
                 (AudioFormatConverter.format_of 1 8 false false) in
  AudioSample.data input <> []
  /\ AudioFormatConverter.ConvertToMonoFloat32 input = Value []
  /\ AudioFormatConverter.ConvertToPCM16 input 48000 1 = Value [].
Proof.
  assert (Hne : AudioSample.data
                  (AudioFormatConverter.sample_of [x01; x02]
                     (AudioFormatConverter.format_of 1 8 false false)) <> [])
    by discriminate.
  split; [exact Hne|]. split.
  - apply (proj1 (C6_unsupported_bit_depth _ Hne)); discriminate.
  - apply (proj2 (C6_unsupported_bit_depth _ Hne)); discriminate.
Defined.

(** The second output of the example of the specification. *)
Lemma C7_stereo_downmix_witness :
  Forall is_int16 [100; 200; -100; -200]
  /\ nth_error (AudioFormatConverter.StereoToMono [100; 200; -100; -200]) 1 = Some (-150)
  /\ exists l r,
       nth_error [100; 200; -100; -200] (2 * 1) = Some l
       /\ nth_error [100; 200; -100; -200] (2 * 1 + 1) = Some r
       /\ is_int32 (l + r)
       /\ -150 = Z.shiftr (l + r) 1
       /\ is_int16 (-150).
Proof.
  assert (Hall : Forall is_int16 [100; 200; -100; -200])
    by (repeat constructor; unfold is_int16; lia).
  split; [exact Hall|]. split; [reflexivity|].
  apply (proj1 C7_stereo_downmix [100; 200; -100; -200] Hall 1%nat (-150)).
  reflexivity.
Defined.

(** Twice full scale, [2.0f]. *)
Lemma C8_full_scale_float_wraps_witness :
  SFleb Float32.one (Float32.of_bits 1073741824) = true
  /\ AudioFormatConverter.float_to_int16 (Float32.of_bits 1073741824) = -32768
  /\ AudioFormatConverter.planar_float_to_int16 (Float32.of_bits 1073741824) = -32768.
Proof.
  split; [reflexivity|].
  apply (proj1 C8_full_scale_float_wraps (Float32.of_bits 1073741824)).
  reflexivity.
Defined.

(** Three samples: one pair and a half. *)
Lemma C9_odd_length_discarded_witness :
  Nat.odd (length [100; 200; -100]) = true
  /\ AudioFormatConverter.StereoToMono [100; 200; -100] = [].
Proof.
  split; [reflexivity|].
  apply (C9_odd_length_discarded [100; 200; -100]). reflexivity.
Defined.

(** * Further properties of the buffer *)

Section BufferOrder.

Import AudioBuffer QueueOrder.
Variable sizeof_AudioChunk : Z.

#[local] Abbreviation GetChunkSize := (AudioBuffer.GetChunkSize sizeof_AudioChunk).
#[local] Abbreviation Push := (AudioBuffer.Push sizeof_AudioChunk).
#[local] Abbreviation PushFloat32 := (AudioBuffer.PushFloat32 sizeof_AudioChunk).
#[local] Abbreviation Pop := (AudioBuffer.Pop sizeof_AudioChunk).
#[local] Abbreviation PopMultiple := (AudioBuffer.PopMultiple sizeof_AudioChunk).
#[local] Abbreviation step := (AudioBuffer.step sizeof_AudioChunk).
#[local] Abbreviation pcm16_bytes := (AudioBuffer.pcm16_bytes sizeof_AudioChunk).
#[local] Abbreviation queued_bytes := (AudioBuffer.queued_bytes sizeof_AudioChunk).
#[local] Abbreviation evicted_counter := (AudioBuffer.evicted_counter sizeof_AudioChunk).
#[local] Abbreviation accounted := (AudioBuffer.accounted sizeof_AudioChunk).

Lemma TrimToSize_queues b :
  (exists k, chunks_ (TrimToSize sizeof_AudioChunk b) = skipn k (chunks_ b))
  /\ float32Chunks_ (TrimToSize sizeof_AudioChunk b) = float32Chunks_ b.
Proof.
  destruct (trim_loop_rounds sizeof_AudioChunk (maxSizeBytes_ b) (chunks_ b)
              (currentSizeBytes_ b)) as (k & _ & Heq & _).
  unfold TrimToSize. rewrite Heq. simpl. eauto.
Qed.

(** X1.  No operation reorders a queue or removes a chunk from its middle:
    after any of the seven state-changing operations each queue is what
    is left of the old queue, followed by the chunk the operation pushed
    if it pushed one, once some number of chunks is removed from the
    front. *)
Theorem X1_queues_change_at_the_ends (o : op) (b : t) :
  (exists k, chunks_ (step o b) = skipn k (chunks_ b ++ pushed_pcm16 o))
  /\ (exists k, float32Chunks_ (step o b)
                = skipn k (float32Chunks_ b ++ pushed_float32 o)).
Proof.
  destruct o as [[[|x d] sr ch now | [|x d] sr ch now | m] | | m | m | ];
    cbn [step produce pushed_pcm16 pushed_float32 AudioBuffer.Push
         AudioBuffer.PushFloat32 SetMaxSize];
    rewrite ?app_nil_r.
  - split; exists 0%nat; reflexivity.
  - match goal with |- context [TrimToSize _ ?s] =>
      destruct (TrimToSize_queues s) as [[k Hk] Hf] end.
    split; [exists k; exact Hk | exists 0%nat; exact Hf].
  - split; exists 0%nat; reflexivity.
  - match goal with |- context [TrimToSize _ ?s] =>
      destruct (TrimToSize_queues s) as [[k Hk] Hf] end.
    split; [exists k; exact Hk | exists 0%nat; exact Hf].
  - unfold SetMaxSize.
    match goal with |- context [TrimToSize _ ?s] =>
      destruct (TrimToSize_queues s) as [[k Hk] Hf] end.
    split; [exists k; exact Hk | exists 0%nat; exact Hf].
  - unfold AudioBuffer.Pop. destruct (chunks_ b) as [|c rest] eqn:E; cbn [snd chunks_ float32Chunks_].
    + split; exists 0%nat; [now rewrite E | reflexivity].
    + split; [exists 1%nat; reflexivity | exists 0%nat; reflexivity].
  - destruct (PopMultiple_takes sizeof_AudioChunk m b) as (_ & Hq & Hf).
    split; [exists (Z.to_nat m); exact Hq | exists 0%nat; exact Hf].
  - destruct (PopMultipleFloat32_takes m b) as (_ & Hq & Hf).
    split; [exists 0%nat; exact Hf | exists (Z.to_nat m); exact Hq].
  - split; [exists (length (chunks_ b)) | exists (length (float32Chunks_ b))];
      cbn [Clear chunks_ float32Chunks_]; now rewrite skipn_all.
Qed.

(** X2.  The eviction pass never removes a float32 chunk.  [PushFloat32]
    of non-empty data always appends its chunk to the float32 queue and
    keeps all the chunks that were there; when the PCM16 queue is empty
    the buffer after the push is the old one with the chunk appended and
    the counter raised by four bytes a sample, whatever the budget is. *)
Theorem X2_float32_never_evicted x d sr ch now (b : t) :
  let chunk := Float32AudioChunk.Build (x :: d) now sr ch in
  float32Chunks_ (PushFloat32 (x :: d) sr ch now b) = float32Chunks_ b ++ [chunk]
  /\ (chunks_ b = [] ->
      PushFloat32 (x :: d) sr ch now b
      = Build [] (float32Chunks_ b ++ [chunk]) (maxSizeBytes_ b)
          (size_t (currentSizeBytes_ b + size_t (Z.of_nat (length (x :: d)) * 4)))).
Proof.
  cbv zeta. split; [apply PushFloat32_appends|].
  intros Hempty. unfold AudioBuffer.PushFloat32, TrimToSize.
  cbn [chunks_ float32Chunks_ maxSizeBytes_ currentSizeBytes_].
  rewrite Hempty. reflexivity.
Qed.

(** X3.  [Pop] is [PopMultiple(1)]: the same chunk comes out, if any, and
    the buffer is left in the same state. *)
Theorem X3_Pop_is_PopMultiple_1 (b : t) :
  PopMultiple 1 b
  = (match fst (Pop b) with Some chunk => [chunk] | None => [] end, snd (Pop b)).
Proof.
  unfold AudioBuffer.PopMultiple, AudioBuffer.Pop.
  destruct b as [q f m cur]. cbn [chunks_ float32Chunks_ maxSizeBytes_ currentSizeBytes_].
  destruct q as [|c [|c2 rest]]; reflexivity.
Qed.

Lemma pop_loop_state maxChunks q : forall count cur result,
  pop_loop sizeof_AudioChunk maxChunks count cur q result
  = (evicted_counter (Z.to_nat (maxChunks - count)) cur q,
     skipn (Z.to_nat (maxChunks - count)) q,
     result ++ firstn (Z.to_nat (maxChunks - count)) q).
Proof.
  induction q as [|c rest IH]; intros count cur result; cbn [pop_loop].
  - destruct (Z.to_nat (maxChunks - count)); cbn; now rewrite app_nil_r.
  - destruct (count <? maxChunks) eqn:E.
    + apply Z.ltb_lt in E. rewrite IH.
      replace (Z.to_nat (maxChunks - count))
        with (S (Z.to_nat (maxChunks - (count + 1)))) by lia.
      cbn [AudioBuffer.evicted_counter skipn firstn]. now rewrite <- app_assoc.
    + apply Z.ltb_ge in E.
      replace (Z.to_nat (maxChunks - count)) with 0%nat by lia.
      cbn. now rewrite app_nil_r.
Qed.

Lemma pop_loop_float32_state maxChunks q : forall count cur result,
  pop_loop_float32 maxChunks count cur q result
  = (popped_counter_float32 (Z.to_nat (maxChunks - count)) cur q,
     skipn (Z.to_nat (maxChunks - count)) q,
     result ++ firstn (Z.to_nat (maxChunks - count)) q).
Proof.
  induction q as [|c rest IH]; intros count cur result; cbn [pop_loop_float32].
  - destruct (Z.to_nat (maxChunks - count)); cbn; now rewrite app_nil_r.
  - destruct (count <? maxChunks) eqn:E.
    + apply Z.ltb_lt in E. rewrite IH.
      replace (Z.to_nat (maxChunks - count))
        with (S (Z.to_nat (maxChunks - (count + 1)))) by lia.
      cbn [popped_counter_float32 skipn firstn]. now rewrite <- app_assoc.
    + apply Z.ltb_ge in E.
      replace (Z.to_nat (maxChunks - count)) with 0%nat by lia.
      cbn. now rewrite app_nil_r.
Qed.

Lemma evicted_counter_add n m : forall cur q,
  evicted_counter m (evicted_counter n cur q) (skipn n q)
  = evicted_counter (n + m) cur q.
Proof.
  induction n as [|n IH]; intros cur q; [reflexivity|].
  destruct q as [|c rest]; cbn [AudioBuffer.evicted_counter skipn Nat.add].
  - destruct m; reflexivity.
  - apply IH.
Qed.

Lemma popped_counter_float32_add n m : forall cur q,
  popped_counter_float32 m (popped_counter_float32 n cur q) (skipn n q)
  = popped_counter_float32 (n + m) cur q.
Proof.
  induction n as [|n IH]; intros cur q; [reflexivity|].
  destruct q as [|c rest]; cbn [popped_counter_float32 skipn Nat.add].
  - destruct m; reflexivity.
  - apply IH.
Qed.

Lemma firstn_add {A : Type} n m : forall l : list A,
  firstn n l ++ firstn m (skipn n l) = firstn (n + m) l.
Proof.
  induction n as [|n IH]; intros l; [reflexivity|].
  destruct l as [|a l]; cbn [firstn skipn Nat.add app].
  - now rewrite firstn_nil.
  - now rewrite IH.
Qed.

(** X4.  Batch pops compose: popping [n] chunks and then [m] chunks
    returns, in order, what one pop of [n + m] chunks returns, and leaves
    the buffer in the same state, counter included; on the PCM16 queue
    and on the float32 queue. *)
Theorem X4_batch_pops_compose (n m : Z) (b : t) :
  0 <= n -> 0 <= m ->
  (let r1 := PopMultiple n b in
   let r2 := PopMultiple m (snd r1) in
   PopMultiple (n + m) b = (fst r1 ++ fst r2, snd r2))
  /\ (let r1 := PopMultipleFloat32 n b in
      let r2 := PopMultipleFloat32 m (snd r1) in
      PopMultipleFloat32 (n + m) b = (fst r1 ++ fst r2, snd r2)).
Proof.
  intros Hn Hm. destruct b as [q f mx cur]. cbv zeta. split.
  - unfold AudioBuffer.PopMultiple.
    cbn [chunks_ float32Chunks_ maxSizeBytes_ currentSizeBytes_].
    rewrite !pop_loop_state.
    cbn [fst snd chunks_ float32Chunks_ maxSizeBytes_ currentSizeBytes_].
    rewrite ?pop_loop_state. rewrite !Z.sub_0_r. cbn [app fst snd].
    replace (Z.to_nat (n + m)) with (Z.to_nat n + Z.to_nat m)%nat by lia.
    rewrite evicted_counter_add, firstn_add, skipn_skipn.
    replace (Z.to_nat m + Z.to_nat n)%nat with (Z.to_nat n + Z.to_nat m)%nat by lia.
    reflexivity.
  - unfold PopMultipleFloat32.
    cbn [chunks_ float32Chunks_ maxSizeBytes_ currentSizeBytes_].
    rewrite !pop_loop_float32_state.
    cbn [fst snd chunks_ float32Chunks_ maxSizeBytes_ currentSizeBytes_].
    rewrite ?pop_loop_float32_state. rewrite !Z.sub_0_r. cbn [app fst snd].
    replace (Z.to_nat (n + m)) with (Z.to_nat n + Z.to_nat m)%nat by lia.
    rewrite popped_counter_float32_add, firstn_add, skipn_skipn.
    replace (Z.to_nat m + Z.to_nat n)%nat with (Z.to_nat n + Z.to_nat m)%nat by lia.
    reflexivity.
Qed.

End BufferOrder.

Section BufferRetention.

Import AudioBuffer QueueOrder.
Variable sizeof_AudioChunk : Z.
Hypothesis sizeof_nonneg : 0 <= sizeof_AudioChunk.

#[local] Abbreviation pcm16_bytes := (AudioBuffer.pcm16_bytes sizeof_AudioChunk).
#[local] Abbreviation trim_loop := (AudioBuffer.trim_loop sizeof_AudioChunk).

Lemma pcm16_bytes_nonneg c : 0 <= pcm16_bytes c.
Proof. unfold AudioBuffer.pcm16_bytes. lia. Qed.

Lemma pcm16_sum_nonneg q : 0 <= sumZ (map pcm16_bytes q).
Proof.
  apply sumZ_nonneg, Forall_map, Forall_forall. intros c _. apply pcm16_bytes_nonneg.
Qed.

Lemma float32_sum_nonneg q : 0 <= sumZ (map float32_bytes q).
Proof.
  apply sumZ_nonneg, Forall_map, Forall_forall. intros c _. unfold float32_bytes. lia.
Qed.

(** One round of eviction on exact byte counts. *)
Lemma evict_exact a cur :
  0 <= cur - pcm16_bytes a -> cur < 2 ^ 64 ->
  size_t (cur - GetChunkSize sizeof_AudioChunk a) = cur - pcm16_bytes a.
Proof.
  intros Hlo Hhi. pose proof (pcm16_bytes_nonneg a).
  rewrite GetChunkSize_bytes, size_t_sub_r. apply size_t_small. lia.
Qed.

Lemma trim_keeps_last B c F q : forall cur,
  0 <= F -> F + pcm16_bytes c <= B ->
  cur = sumZ (map pcm16_bytes q) + pcm16_bytes c + F -> cur < 2 ^ 64 ->
  exists front, snd (trim_loop B cur (q ++ [c])) = front ++ [c].
Proof.
  induction q as [|a rest IH]; intros cur HF Hfit Hcur Hhi;
    cbn [app AudioBuffer.trim_loop map sumZ fold_right] in *.
  - destruct (Z.ltb_spec B cur) as [Hlt|_]; [lia|]. exists []. reflexivity.
  - destruct (Z.ltb_spec B cur) as [_|_]; [|exists (a :: rest); reflexivity].
    pose proof (pcm16_sum_nonneg rest) as Hrest. unfold sumZ in Hrest.
    pose proof (pcm16_bytes_nonneg a). pose proof (pcm16_bytes_nonneg c).
    rewrite (evict_exact a cur) by lia.
    apply IH; try assumption; unfold sumZ; lia.
Qed.

Lemma trim_drops_all B c F q : forall cur,
  0 <= F -> B < F + pcm16_bytes c ->
  cur = sumZ (map pcm16_bytes q) + pcm16_bytes c + F -> cur < 2 ^ 64 ->
  snd (trim_loop B cur (q ++ [c])) = [].
Proof.
  induction q as [|a rest IH]; intros cur HF Hover Hcur Hhi;
    cbn [app AudioBuffer.trim_loop map sumZ fold_right] in *.
  - destruct (Z.ltb_spec B cur) as [_|Hle]; [reflexivity | lia].
  - pose proof (pcm16_sum_nonneg rest) as Hrest. unfold sumZ in Hrest.
    pose proof (pcm16_bytes_nonneg a). pose proof (pcm16_bytes_nonneg c).
    destruct (Z.ltb_spec B cur) as [_|Hle]; [|lia].
    rewrite (evict_exact a cur) by lia.
    apply IH; try assumption; unfold sumZ; lia.
Qed.

(** X5.  What a push keeps of the chunk it pushes.  In a state where the
    counter is the sum of the queued sizes and the sum with the new chunk
    stays below 2^64: if the new PCM16 chunk fits the budget together
    with the bytes of the float32 queue, it is in the queue after [Push],
    at the back; if it does not, [Push] leaves the PCM16 queue empty: the
    eviction pass removes every older chunk and then the new chunk
    itself. *)
Theorem X5_push_keeps_or_drops_new_chunk x d sr ch now (b : t) :
  let chunk := AudioChunk.Build (x :: d) now sr ch in
  let after := Push sizeof_AudioChunk (x :: d) sr ch now b in
  accounted sizeof_AudioChunk b ->
  queued_bytes sizeof_AudioChunk b + pcm16_bytes chunk < 2 ^ 64 ->
  (float32_queued_bytes b + pcm16_bytes chunk <= maxSizeBytes_ b ->
   exists front, chunks_ after = front ++ [chunk])
  /\ (maxSizeBytes_ b < float32_queued_bytes b + pcm16_bytes chunk ->
      chunks_ after = []).
Proof.
  intros chunk after Hacc Hhi. subst after.
  pose proof (queued_bytes_nonneg sizeof_AudioChunk b sizeof_nonneg) as Hq.
  pose proof (pcm16_bytes_nonneg chunk) as Hc.
  pose proof (float32_sum_nonneg (float32Chunks_ b)) as HF.
  unfold accounted in Hacc. rewrite size_t_small in Hacc by lia.
  assert (Hcur : size_t (currentSizeBytes_ b + GetChunkSize sizeof_AudioChunk chunk)
                 = sumZ (map pcm16_bytes (chunks_ b)) + pcm16_bytes chunk
                   + float32_queued_bytes b).
  { rewrite GetChunkSize_bytes, size_t_add_r, Hacc.
    unfold AudioBuffer.queued_bytes, float32_queued_bytes in *.
    rewrite size_t_small by lia. lia. }
  assert (Hlt : sumZ (map pcm16_bytes (chunks_ b)) + pcm16_bytes chunk
                + float32_queued_bytes b < 2 ^ 64).
  { unfold AudioBuffer.queued_bytes, float32_queued_bytes in *. lia. }
  unfold Push, TrimToSize.
  cbn [chunks_ float32Chunks_ maxSizeBytes_ currentSizeBytes_]. fold chunk.
  rewrite Hcur. split; intros Hb.
  - destruct (trim_keeps_last (maxSizeBytes_ b) chunk (float32_queued_bytes b)
                (chunks_ b) _ HF Hb eq_refl Hlt) as [front Hfront].
    exists front.
    destruct (trim_loop (maxSizeBytes_ b) _ (chunks_ b ++ [chunk])) as [cur q].
    exact Hfront.
  - pose proof (trim_drops_all (maxSizeBytes_ b) chunk (float32_queued_bytes b)
                  (chunks_ b) _ HF Hb eq_refl Hlt) as Hnil.
    destruct (trim_loop (maxSizeBytes_ b) _ (chunks_ b ++ [chunk])) as [cur q].
    exact Hnil.
Qed.

End BufferRetention.

(** * Further properties of the converter *)

Section ConverterMore.

Import AudioFormatConverter ConverterFacts.

Lemma all_from_spec f n : forall z k,
  all_from f z n = true -> z <= k < z + Z.of_nat n -> f k = true.
Proof.
  induction n as [|n IH]; intros z k Hall Hk; [lia|].
  cbn [all_from] in Hall. apply andb_prop in Hall. destruct Hall as [Hz Hrest].
  destruct (Z.eq_dec k z) as [->|Hne]; [exact Hz|].
  apply (IH (z + 1)); [exact Hrest | lia].
Qed.

Lemma same_float_eq x y : same_float x y = true -> x = y.
Proof.
  destruct x as [s1 | s1 | | s1 m1 e1], y as [s2 | s2 | | s2 m2 e2];
    cbn [same_float]; intros H; try discriminate H; try reflexivity.
  - apply Bool.eqb_prop in H. now subst.
  - apply Bool.eqb_prop in H. now subst.
  - apply andb_prop in H. destruct H as [H He].
    apply andb_prop in H. destruct H as [Hs Hm].
    apply Bool.eqb_prop in Hs. apply Pos.eqb_eq in Hm. apply Z.eqb_eq in He.
    now subst.
Qed.

(** Every 16-bit sample passes the check; by evaluation of the 65536
    cases. *)
Lemma int16_float_all : all_from int16_float_ok (-32768) (Z.to_nat 65536) = true.
Proof. vm_compute. reflexivity. Qed.

Lemma int16_float_facts z :
  is_int16 z ->
  let x := float_of_int16 z in
  is_dyadic x z 15 = true
  /\ SFleb Float32.minus_one x = true
  /\ SFltb x Float32.one = true
  /\ float_to_int16 x = z
  /\ planar_float_to_int16 x = z
  /\ Float32.div (frame_sum 2 [x; x] 0) (Float32.of_int 2) = x
  /\ Float32.div (frame_sum 4 [x; x; x; x] 0) (Float32.of_int 4) = x.
Proof.
  intros Hz. cbv zeta.
  assert (Hok : int16_float_ok z = true).
  { apply (all_from_spec _ _ _ _ int16_float_all). unfold is_int16 in Hz. lia. }
  unfold int16_float_ok in Hok. cbv zeta in Hok.
  repeat (apply andb_prop in Hok; destruct Hok as [Hok ?]).
  repeat split; auto using same_float_eq; now apply Z.eqb_eq.
Qed.

End ConverterMore.

Section ConverterFormats.
Import AudioFormatConverter ConverterFacts.

Lemma byte_of_u8 b : byte_of (u8 b) = b.
Proof.
  unfold byte_of. pose proof (u8_range b) as Hb.
  rewrite Z.mod_small by exact Hb. unfold u8. rewrite N2Z.id, Byte.of_to_N. reflexivity.
Qed.

Lemma byte_of_mod z : byte_of z = byte_of (z mod 256).
Proof. unfold byte_of. now rewrite Z.mod_mod by lia. Qed.

Lemma int16_bytes_load b0 b1 :
  int16_bytes (int16_t (u8 b0 + 256 * (u8 b1 + 256 * 0))) = [b0; b1].
Proof.
  pose proof (u8_range b0) as H0. pose proof (u8_range b1) as H1.
  unfold int16_bytes, int16_t, swrap.
  change (2 ^ (16 - 1)) with 32768. change (2 ^ 16) with 65536.
  rewrite Z.shiftr_div_pow2 by lia. change (2 ^ 8) with 256.
  set (v := u8 b0 + 256 * (u8 b1 + 256 * 0)).
  set (s := (v + 32768) mod 65536 - 32768).
  assert (Hlow : s mod 256 = u8 b0).
  { subst s v. Z.div_mod_to_equations. lia. }
  assert (Hhigh : (s / 256) mod 256 = u8 b1).
  { subst s v. Z.div_mod_to_equations. lia. }
  rewrite (byte_of_mod s), Hlow, (byte_of_mod (s / 256)), Hhigh, !byte_of_u8.
  reflexivity.
Qed.

Lemma load_int16_head a b rest :
  load_int16 (a :: b :: rest) 0 = int16_t (u8 a + 256 * (u8 b + 256 * 0)).
Proof. reflexivity. Qed.

Lemma load_int16_tail a b rest i :
  load_int16 (a :: b :: rest) (S i) = load_int16 rest i.
Proof.
  unfold load_int16, load. replace (2 * S i)%nat with (S (S (2 * i))) by lia.
  reflexivity.
Qed.

Lemma half_length_step {A : Type} (a b : A) rest :
  Z.to_nat (Z.of_nat (length (a :: b :: rest)) / 2)
  = S (Z.to_nat (Z.of_nat (length rest) / 2)).
Proof.
  cbn [length]. rewrite !Nat2Z.inj_succ.
  replace (Z.succ (Z.succ (Z.of_nat (length rest))))
    with (Z.of_nat (length rest) + 1 * 2) by lia.
  rewrite Z.div_add by lia.
  pose proof (Z.div_pos (Z.of_nat (length rest)) 2). lia.
Qed.

Lemma even_length_step {A : Type} (a b : A) rest :
  Z.of_nat (length (a :: b :: rest)) mod 2 = Z.of_nat (length rest) mod 2.
Proof.
  cbn [length]. rewrite !Nat2Z.inj_succ.
  replace (Z.succ (Z.succ (Z.of_nat (length rest))))
    with (Z.of_nat (length rest) + 1 * 2) by lia.
  now rewrite Z.mod_add by lia.
Qed.

(** The samples the 16-bit branches read, written back as bytes, are the
    buffer. *)
Lemma load_int16_bytes (data : list byte) :
  Z.of_nat (length data) mod 2 = 0 ->
  flat_map int16_bytes
    (map (load_int16 data) (seq 0 (Z.to_nat (Z.of_nat (length data) / 2))))
  = data.
Proof.
  induction data as [| a | a b rest IH] using pair_induction; intros Heven.
  - reflexivity.
  - discriminate Heven.
  - rewrite even_length_step in Heven. rewrite half_length_step.
    cbn [seq map flat_map]. rewrite load_int16_head, int16_bytes_load.
    rewrite <- seq_shift, map_map.
    rewrite (map_ext _ (load_int16 rest) (load_int16_tail a b rest)).
    rewrite (IH Heven). reflexivity.
Qed.

(** What [ConvertToPCM16] returns at 16 bits per sample without downmix. *)
Lemma pcm16_of_16bit (input : AudioSample.t) (targetSampleRate targetChannels : Z) :
  AudioFormat.bitsPerSample (AudioSample.format input) = 16 ->
  Z.of_nat (length (AudioSample.data input)) mod 2 = 0 ->
  (1 <? AudioFormat.channels (AudioSample.format input)) && (targetChannels =? 1) = false ->
  ConvertToPCM16 input targetSampleRate targetChannels
  = Value (map (load_int16 (AudioSample.data input))
               (seq 0 (Z.to_nat (Z.of_nat (length (AudioSample.data input)) / 2)))).
Proof.
  intros Hbps Heven Hmix.
  unfold ConvertToPCM16, pcm16_step1. rewrite Hbps, Hmix. cbn [Z.eqb Pos.eqb].
  destruct (Z.ltb_spec (2 * (Z.of_nat (length (AudioSample.data input)) / 2))
                       (Z.of_nat (length (AudioSample.data input)))) as [Hlt|_].
  - pose proof (Z.div_mod (Z.of_nat (length (AudioSample.data input))) 2). lia.
  - destruct (AudioSample.data input); reflexivity.
Qed.

(** X6.  A 16-bit sample passes through [ConvertToPCM16] unchanged.  For
    a buffer of even length at 16 bits per sample, when no downmix is
    asked for, the samples returned, laid out in memory as little-endian
    [int16_t], are the bytes of the input, and there are [size / 2] of
    them. *)
Theorem X6_pcm16_passthrough (input : AudioSample.t) (targetSampleRate targetChannels : Z) :
  AudioFormat.bitsPerSample (AudioSample.format input) = 16 ->
  Z.of_nat (length (AudioSample.data input)) mod 2 = 0 ->
  (1 <? AudioFormat.channels (AudioSample.format input)) && (targetChannels =? 1) = false ->
  exists samples,
    ConvertToPCM16 input targetSampleRate targetChannels = Value samples
    /\ flat_map int16_bytes samples = AudioSample.data input
    /\ Z.of_nat (length samples) = Z.of_nat (length (AudioSample.data input)) / 2.
Proof.
  intros Hbps Heven Hmix.
  exists (map (load_int16 (AudioSample.data input))
              (seq 0 (Z.to_nat (Z.of_nat (length (AudioSample.data input)) / 2)))).
  split; [|split].
  - apply pcm16_of_16bit; assumption.
  - apply load_int16_bytes. exact Heven.
  - rewrite length_map, length_seq.
    pose proof (Z.div_pos (Z.of_nat (length (AudioSample.data input))) 2). lia.
Qed.

(** X7.  At 16 bits per sample a buffer of odd length makes
    [ConvertToPCM16] copy one byte more than the vector of [size / 2]
    samples holds, while [ConvertToMonoFloat32] reads [size / 2] samples
    and leaves the last byte alone. *)
Theorem X7_odd_length_16bit (input : AudioSample.t) (targetSampleRate targetChannels : Z) :
  AudioFormat.bitsPerSample (AudioSample.format input) = 16 ->
  Z.of_nat (length (AudioSample.data input)) mod 2 = 1 ->
  ConvertToPCM16 input targetSampleRate targetChannels = Undefined OutOfBounds
  /\ float32_step1 input
     = Value (Some (map (fun i => ConverterFacts.float_of_int16
                                    (load_int16 (AudioSample.data input) i))
                        (seq 0 (Z.to_nat (Z.of_nat (length (AudioSample.data input)) / 2)))))
  /\ exists samples, ConvertToMonoFloat32 input = Value samples.
Proof.
  intros Hbps Hodd. split; [|split].
  - unfold ConvertToPCM16, pcm16_step1. rewrite Hbps. cbn [Z.eqb Pos.eqb].
    destruct (AudioSample.data input) as [|b rest] eqn:E; [discriminate Hodd|].
    rewrite <- E in *.
    destruct (Z.ltb_spec (2 * (Z.of_nat (length (AudioSample.data input)) / 2))
                         (Z.of_nat (length (AudioSample.data input)))) as [_|Hge];
      [reflexivity|].
    pose proof (Z.div_mod (Z.of_nat (length (AudioSample.data input))) 2). lia.
  - unfold float32_step1. rewrite Hbps. reflexivity.
  - unfold ConvertToMonoFloat32, float32_step1. rewrite Hbps. cbn [Z.eqb Pos.eqb bind].
    destruct (AudioSample.data input); [eauto|].
    destruct (1 <? AudioFormat.channels (AudioSample.format input)); eauto.
Qed.

(** X8.  A channel count of 0 is fatal at 32 bits per sample only.  On a
    non-empty buffer both converters divide the buffer size by
    [4 * channels] at 32 bits; at every other bit depth neither divides
    by the channel count and both return a value. *)
Theorem X8_zero_channels (input : AudioSample.t) :
  AudioSample.data input <> [] ->
  AudioFormat.channels (AudioSample.format input) = 0 ->
  (AudioFormat.bitsPerSample (AudioSample.format input) = 32 ->
   ConvertToMonoFloat32 input = Undefined DivisionByZero
   /\ forall targetSampleRate targetChannels,
        ConvertToPCM16 input targetSampleRate targetChannels = Undefined DivisionByZero)
  /\ (AudioFormat.bitsPerSample (AudioSample.format input) <> 32 ->
      (exists samples, ConvertToMonoFloat32 input = Value samples)
      /\ (Z.of_nat (length (AudioSample.data input)) mod 2 = 0 ->
          forall targetSampleRate targetChannels,
          exists samples,
            ConvertToPCM16 input targetSampleRate targetChannels = Value samples)).
Proof.
  intros Hne Hch. split.
  - intros Hbps. unfold ConvertToMonoFloat32, ConvertToPCM16, float32_step1, pcm16_step1.
    rewrite Hbps, Hch. destruct (AudioSample.data input); [now elim Hne|].
    split; reflexivity.
  - intros Hbps. apply Z.eqb_neq in Hbps.
    unfold ConvertToMonoFloat32, ConvertToPCM16, float32_step1, pcm16_step1.
    rewrite Hbps, Hch. destruct (AudioSample.data input) as [|b rest] eqn:E; [now elim Hne|].
    rewrite <- E. split.
    + destruct (AudioFormat.bitsPerSample (AudioSample.format input) =? 16);
        cbn [bind Z.ltb Z.compare]; eauto.
    + intros Heven rate tc.
      destruct (AudioFormat.bitsPerSample (AudioSample.format input) =? 16).
      * destruct (Z.ltb_spec (2 * (Z.of_nat (length (AudioSample.data input)) / 2))
                             (Z.of_nat (length (AudioSample.data input)))) as [Hlt|_].
        -- pose proof (Z.div_mod (Z.of_nat (length (AudioSample.data input))) 2). lia.
        -- cbn [bind Z.ltb Z.compare andb]. eauto.
      * destruct (AudioFormat.bitsPerSample (AudioSample.format input) =? 24);
          cbn [bind Z.ltb Z.compare andb]; eauto.
Qed.

(** *** 16-bit samples as floats *)

Lemma load_int16_range data i : is_int16 (load_int16 data i).
Proof. apply int16_t_range. Qed.

(** What [ConvertToMonoFloat32] returns for one channel of 16-bit
    samples. *)
Lemma mono_float32_of_16bit (input : AudioSample.t) :
  AudioFormat.bitsPerSample (AudioSample.format input) = 16 ->
  AudioFormat.channels (AudioSample.format input) <= 1 ->
  ConvertToMonoFloat32 input
  = Value (map float_of_int16
               (map (load_int16 (AudioSample.data input))
                    (seq 0 (Z.to_nat (Z.of_nat (length (AudioSample.data input)) / 2))))).
Proof.
  intros Hbps Hch. unfold ConvertToMonoFloat32, float32_step1. rewrite Hbps.
  cbn [Z.eqb Pos.eqb bind].
  destruct (Z.ltb_spec 1 (AudioFormat.channels (AudioSample.format input))) as [Hlt|_];
    [lia|].
  rewrite map_map. destruct (AudioSample.data input); reflexivity.
Qed.

(** X9.  Decoding 16-bit samples to float loses nothing.  For one channel
    at 16 bits per sample, [ConvertToMonoFloat32] returns one float a
    sample, each exactly the sample over 32768 and therefore at least
    -1.0 and below 1.0. *)
Theorem X9_16bit_to_float_exact (input : AudioSample.t) :
  AudioFormat.bitsPerSample (AudioSample.format input) = 16 ->
  AudioFormat.channels (AudioSample.format input) <= 1 ->
  let pcm := map (load_int16 (AudioSample.data input))
                 (seq 0 (Z.to_nat (Z.of_nat (length (AudioSample.data input)) / 2))) in
  exists floats,
    ConvertToMonoFloat32 input = Value floats
    /\ Forall2 (fun x z => is_dyadic x z 15 = true) floats pcm
    /\ Forall (fun x => SFleb Float32.minus_one x = true
                        /\ SFltb x Float32.one = true) floats.
Proof.
  intros Hbps Hch pcm. exists (map float_of_int16 pcm).
  split; [apply mono_float32_of_16bit; assumption|].
  assert (Hpcm : Forall is_int16 pcm).
  { apply Forall_map, Forall_forall. intros i _. apply load_int16_range. }
  clearbody pcm. induction Hpcm as [|z rest Hz Hrest [IH1 IH2]].
  - split; constructor.
  - destruct (int16_float_facts z Hz) as (Hd & Hlo & Hhi & _).
    split; constructor; auto.
Qed.

(** X10.  Float and back.  For one channel at 16 bits per sample,
    [FloatToInt16] applied to what [ConvertToMonoFloat32] returns gives
    the 16-bit samples of the buffer, which is what [ConvertToPCM16]
    returns when the buffer has an even length. *)
Theorem X10_float_round_trip (input : AudioSample.t) (targetSampleRate targetChannels : Z) :
  AudioFormat.bitsPerSample (AudioSample.format input) = 16 ->
  AudioFormat.channels (AudioSample.format input) <= 1 ->
  exists floats,
    ConvertToMonoFloat32 input = Value floats
    /\ FloatToInt16 floats
       = map (load_int16 (AudioSample.data input))
             (seq 0 (Z.to_nat (Z.of_nat (length (AudioSample.data input)) / 2)))
    /\ (Z.of_nat (length (AudioSample.data input)) mod 2 = 0 ->
        ConvertToPCM16 input targetSampleRate targetChannels
        = Value (FloatToInt16 floats)).
Proof.
  intros Hbps Hch.
  set (pcm := map (load_int16 (AudioSample.data input))
                  (seq 0 (Z.to_nat (Z.of_nat (length (AudioSample.data input)) / 2)))).
  assert (Hback : FloatToInt16 (map float_of_int16 pcm) = pcm).
  { assert (Hpcm : Forall is_int16 pcm).
    { apply Forall_map, Forall_forall. intros i _. apply load_int16_range. }
    clearbody pcm. unfold FloatToInt16.
    induction Hpcm as [|z rest Hz Hrest IH]; [reflexivity|].
    cbn [map]. rewrite IH.
    destruct (int16_float_facts z Hz) as (_ & _ & _ & Hrt & _). cbv zeta in Hrt.
    now rewrite Hrt. }
  exists (map float_of_int16 pcm).
  split; [apply mono_float32_of_16bit; assumption|]. split; [exact Hback|].
  intros Heven. rewrite Hback.
  assert (Hmix : (1 <? AudioFormat.channels (AudioSample.format input))
                 && (targetChannels =? 1) = false).
  { destruct (Z.ltb_spec 1 (AudioFormat.channels (AudioSample.format input)));
      [lia | reflexivity]. }
  apply pcm16_of_16bit; assumption.
Qed.

(** *** Number of samples [ConvertToMonoFloat32] returns *)

Lemma flat_map_pairs_length {A B : Type} (f : A -> list B) (l : list A) :
  (forall a, length (f a) = 2%nat) -> length (flat_map f l) = (2 * length l)%nat.
Proof.
  intros Hf. induction l as [|a l IH]; [reflexivity|].
  cbn [flat_map]. rewrite length_app, Hf, IH. cbn [length]. lia.
Qed.

(** [ConvertToMonoFloat32] returns as many floats as the buffer holds
    complete frames. *)
Lemma mono_float32_frame_count (input : AudioSample.t) :
  let fmt := AudioSample.format input in
  let size := Z.of_nat (length (AudioSample.data input)) in
  AudioFormat.bitsPerSample fmt = 16 \/ AudioFormat.bitsPerSample fmt = 32 ->
  1 <= AudioFormat.channels fmt ->
  size < 2 ^ 64 ->
  exists floats,
    ConvertToMonoFloat32 input = Value floats
    /\ Z.of_nat (length floats)
       = size / (AudioFormat.bitsPerSample fmt / 8 * AudioFormat.channels fmt).
Proof.
  cbv zeta. intros Hbps Hch Hsize.
  set (size := Z.of_nat (length (AudioSample.data input))) in *.
  set (c := AudioFormat.channels (AudioSample.format input)) in *.
  assert (Hsz : 0 <= size) by (subst size; lia).
  unfold ConvertToMonoFloat32, float32_step1. fold size. fold c.
  destruct Hbps as [Hbps|Hbps]; rewrite Hbps; cbn [Z.eqb Pos.eqb].
  - change (16 / 8) with 2.
    assert (Hempty : AudioSample.data input = [] -> size / (2 * c) = 0).
    { intros E. subst size. rewrite E. reflexivity. }
    destruct (AudioSample.data input) as [|b rest] eqn:E.
    { eexists. split; [reflexivity|]. rewrite Hempty; reflexivity. }
    clear Hempty. cbn [bind].
    pose proof (Z.div_pos size 2 Hsz) as Hhalf.
    destruct (Z.ltb_spec 1 c) as [Hmulti|Hmono]; eexists; (split; [reflexivity|]).
    + rewrite !length_map, !length_seq.
      rewrite Z2Nat.id by (apply Z.div_pos; lia).
      rewrite Z2Nat.id by lia. apply Z.div_div; lia.
    + rewrite !length_map, !length_seq. replace c with 1 by lia.
      rewrite Z2Nat.id by lia. reflexivity.
  - change (32 / 8) with 4.
    assert (Hempty : AudioSample.data input = [] -> size / (4 * c) = 0).
    { intros E. subst size. rewrite E. reflexivity. }
    destruct (AudioSample.data input) as [|b rest] eqn:E.
    { eexists. split; [reflexivity|]. rewrite Hempty; reflexivity. }
    clear Hempty.
    destruct (Z.eqb_spec (4 * c) 0) as [Hzero|_]; [lia|].
    set (frameCount := size / (4 * c)).
    assert (Hfc : 0 <= frameCount) by (apply Z.div_pos; lia).
    assert (Hfcc : frameCount * c <= size).
    { pose proof (Z.mul_div_le size (4 * c)). fold frameCount in H. nia. }
    rewrite (size_t_small (frameCount * c)) by nia.
    assert (Hdiv : frameCount * c / c = frameCount) by (apply Z.div_mul; lia).
    destruct (AudioFormat.isFloat (AudioSample.format input));
      [destruct (AudioFormat.isNonInterleaved (AudioSample.format input) && (c =? 2)) eqn:Eplanar|];
      cbn [bind];
      (destruct (Z.ltb_spec 1 c) as [Hmulti|Hmono]; eexists; (split; [reflexivity|]));
      rewrite ?length_map, ?length_seq.
    + apply andb_prop in Eplanar. destruct Eplanar as [_ Hc2]. apply Z.eqb_eq in Hc2.
      rewrite flat_map_pairs_length by (intros; reflexivity). rewrite length_seq.
      rewrite Hc2 in *.
      rewrite Nat2Z.inj_mul. change (Z.of_nat 2) with 2.
      rewrite (Z2Nat.id frameCount) by lia.
      rewrite (Z.mul_comm 2 frameCount), Z.div_mul by lia.
      apply Z2Nat.id. lia.
    + apply andb_prop in Eplanar. destruct Eplanar as [_ Hc2]. apply Z.eqb_eq in Hc2. lia.
    + rewrite (Z2Nat.id (frameCount * c)) by nia. rewrite Hdiv. apply Z2Nat.id. lia.
    + replace c with 1 in * by lia. rewrite Z.mul_1_r. apply Z2Nat.id. lia.
    + rewrite (Z2Nat.id (frameCount * c)) by nia. rewrite Hdiv. apply Z2Nat.id. lia.
    + replace c with 1 in * by lia. rewrite Z.mul_1_r. apply Z2Nat.id. lia.
Qed.

(** *** 32-bit integers to 16 bits *)

Lemma int32_t_cases v :
  0 <= v < 2 ^ 32 ->
  int32_t v = if v <? 2 ^ 31 then v else v - 2 ^ 32.
Proof.
  change (2 ^ 32) with 4294967296. change (2 ^ 31) with 2147483648. intros Hv.
  unfold int32_t, swrap.
  change (2 ^ (32 - 1)) with 2147483648. change (2 ^ 32) with 4294967296.
  destruct (Z.ltb_spec v 2147483648).
  - rewrite Z.mod_small; lia.
  - replace (v + 2147483648) with (v - 2147483648 + 1 * 4294967296) by lia.
    rewrite Z.mod_add by lia. rewrite Z.mod_small; lia.
Qed.

Lemma int16_t_cases v :
  0 <= v < 2 ^ 16 ->
  int16_t v = if v <? 2 ^ 15 then v else v - 2 ^ 16.
Proof.
  change (2 ^ 16) with 65536. change (2 ^ 15) with 32768. intros Hv.
  unfold int16_t, swrap.
  change (2 ^ (16 - 1)) with 32768. change (2 ^ 16) with 65536.
  destruct (Z.ltb_spec v 32768).
  - rewrite Z.mod_small; lia.
  - replace (v + 32768) with (v - 32768 + 1 * 65536) by lia.
    rewrite Z.mod_add by lia. rewrite Z.mod_small; lia.
Qed.

Lemma narrow_int32 s : is_int32 s -> int16_t (Z.shiftr s 16) = s / 65536.
Proof.
  unfold is_int32. intros Hs. rewrite Z.shiftr_div_pow2 by lia.
  change (2 ^ 16) with 65536. apply int16_t_id. unfold is_int16.
  pose proof (Z.div_mod s 65536). pose proof (Z.mod_pos_bound s 65536). lia.
Qed.

(** X12.  [Int32ToInt16] keeps the upper half of each sample.  On
    [int32_t] samples every output is the sample divided by 65536,
    rounded down, with no wrap in the cast; for a sample stored in four
    little-endian bytes this is the [int16_t] its last two bytes hold,
    and it is what [ConvertToPCM16] returns for one such mono sample. *)
Theorem X12_int32_keeps_upper_half :
  (forall samples : list Z,
      Forall is_int32 samples ->
      Int32ToInt16 samples = map (fun sample32 => sample32 / 65536) samples)
  /\ (forall b0 b1 b2 b3 : byte,
        Int32ToInt16 [load_int32 [b0; b1; b2; b3] 0] = [load_int16 [b2; b3] 0])
  /\ (forall (b0 b1 b2 b3 : byte) targetSampleRate targetChannels,
        ConvertToPCM16 (sample_of [b0; b1; b2; b3] (format_of 1 32 false false))
          targetSampleRate targetChannels
        = Value [load_int16 [b2; b3] 0]).
Proof.
  assert (Hbytes : forall b0 b1 b2 b3 : byte,
             Int32ToInt16 [load_int32 [b0; b1; b2; b3] 0] = [load_int16 [b2; b3] 0]).
  { intros b0 b1 b2 b3.
    pose proof (u8_range b0). pose proof (u8_range b1).
    pose proof (u8_range b2). pose proof (u8_range b3).
    unfold Int32ToInt16, load_int32, load_int16, load.
    cbn [map Nat.mul Nat.add skipn firstn le_combine].
    set (v := u8 b0 + 256 * (u8 b1 + 256 * (u8 b2 + 256 * (u8 b3 + 256 * 0)))).
    set (w := u8 b2 + 256 * (u8 b3 + 256 * 0)).
    assert (Hv : 0 <= v < 2 ^ 32)
      by (subst v; change (2 ^ 32) with 4294967296; lia).
    assert (Hw : 0 <= w < 2 ^ 16) by (subst w; change (2 ^ 16) with 65536; lia).
    assert (Hquot : v = 65536 * w + (u8 b0 + 256 * u8 b1)) by (subst v w; lia).
    rewrite narrow_int32
      by (rewrite (int32_t_cases v Hv); unfold is_int32;
          change (2 ^ 32) with 4294967296 in *; change (2 ^ 31) with 2147483648;
          destruct (Z.ltb_spec v 2147483648); lia).
    rewrite (int32_t_cases v Hv), (int16_t_cases w Hw).
    change (2 ^ 32) with 4294967296 in *. change (2 ^ 31) with 2147483648.
    change (2 ^ 16) with 65536 in *. change (2 ^ 15) with 32768.
    f_equal.
    destruct (Z.ltb_spec v 2147483648); destruct (Z.ltb_spec w 32768); try lia.
    - symmetry. apply Z.div_unique with (r := u8 b0 + 256 * u8 b1); lia.
    - symmetry. apply Z.div_unique with (r := u8 b0 + 256 * u8 b1); lia. }
  split; [|split; [exact Hbytes|]].
  - intros samples Hall. unfold Int32ToInt16.
    induction Hall as [|s rest Hs Hrest IH]; [reflexivity|].
    cbn [map]. now rewrite IH, (narrow_int32 s Hs).
  - intros b0 b1 b2 b3 rate tc. rewrite <- (Hbytes b0 b1 b2 b3). reflexivity.
Qed.

(** *** Identical channels *)

Lemma stereo_loop_duplicated (samples : list Z) :
  Forall is_int16 samples ->
  stereo_loop (flat_map (fun x => [x; x]) samples) = samples.
Proof.
  induction 1 as [|x rest Hx Hrest IH]; [reflexivity|].
  cbn [flat_map app stereo_loop]. rewrite IH. f_equal.
  unfold is_int16 in Hx.
  rewrite int32_t_id by (unfold is_int32; lia).
  rewrite Z.shiftr_div_pow2 by lia. change (2 ^ 1) with 2.
  replace (x + x) with (x * 2) by lia. rewrite Z.div_mul by lia.
  apply int16_t_id. exact Hx.
Qed.

(** X13.  The stereo downmix of two identical channels is that channel:
    [StereoToMono] of [x0, x0, x1, x1, ...] is [x0, x1, ...] for
    [int16_t] samples. *)
Theorem X13_stereo_of_identical_channels (samples : list Z) :
  Forall is_int16 samples ->
  StereoToMono (flat_map (fun x => [x; x]) samples) = samples.
Proof.
  intros Hall. unfold StereoToMono.
  rewrite flat_map_pairs_length by (intros; reflexivity).
  rewrite Nat2Z.inj_mul, Z.mul_comm, Z.mod_mul by lia. cbn [Z.eqb].
  apply stereo_loop_duplicated. exact Hall.
Qed.

Lemma u8_byte_of z : u8 (byte_of z) = z mod 256.
Proof.
  unfold byte_of, u8. pose proof (Z.mod_pos_bound z 256 ltac:(lia)) as Hm.
  destruct (Byte.of_N (Z.to_N (z mod 256))) as [b|] eqn:E.
  - apply Byte.to_of_N in E. rewrite E. lia.
  - apply Byte.of_N_None_iff in E. lia.
Qed.

Lemma load_int16_encoded z rest :
  is_int16 z -> load_int16 (int16_bytes z ++ rest) 0 = z.
Proof.
  unfold is_int16. intros Hz. unfold int16_bytes. cbn [app].
  rewrite load_int16_head, !u8_byte_of, Z.shiftr_div_pow2 by lia.
  change (2 ^ 8) with 256.
  unfold int16_t, swrap. change (2 ^ (16 - 1)) with 32768. change (2 ^ 16) with 65536.
  Z.div_mod_to_equations. lia.
Qed.

(** Samples written as bytes and read back. *)
Lemma load_int16_of_bytes (samples : list Z) :
  Forall is_int16 samples ->
  map (load_int16 (flat_map int16_bytes samples)) (seq 0 (length samples)) = samples.
Proof.
  induction 1 as [|z rest Hz Hrest IH]; [reflexivity|].
  cbn [length seq map flat_map]. rewrite (load_int16_encoded z _ Hz). f_equal.
  rewrite <- seq_shift, map_map. rewrite <- IH at 2.
  apply map_ext. intros i. unfold int16_bytes. cbn [app]. apply load_int16_tail.
Qed.

Lemma int16_bytes_length samples :
  Z.of_nat (length (flat_map int16_bytes samples)) = 2 * Z.of_nat (length samples).
Proof.
  rewrite flat_map_pairs_length by (intros; reflexivity). lia.
Qed.

Lemma nth_flat_map_repeat {A : Type} (n : nat) (d : A) (l : list A) : forall f ch,
  (ch < n)%nat -> (f < length l)%nat ->
  nth (f * n + ch) (flat_map (fun x => repeat x n) l) d = nth f l d.
Proof.
  induction l as [|x l IH]; intros f ch Hch Hf; [cbn in Hf; lia|].
  cbn [flat_map]. destruct f as [|f].
  - cbn [Nat.mul Nat.add nth]. rewrite app_nth1 by (rewrite repeat_length; exact Hch).
    apply nth_repeat_lt. exact Hch.
  - replace (S f * n + ch)%nat with (n + (f * n + ch))%nat by lia.
    rewrite app_nth2 by (rewrite repeat_length; lia).
    rewrite repeat_length.
    replace (n + (f * n + ch) - n)%nat with (f * n + ch)%nat by lia.
    cbn [nth length] in *. apply IH; lia.
Qed.

Lemma fold_left_ext_in {A B : Type} (g h : A -> B -> A) (l : list B) : forall a,
  (forall acc j, In j l -> g acc j = h acc j) ->
  fold_left g l a = fold_left h l a.
Proof.
  induction l as [|j l IH]; intros a Hext; [reflexivity|].
  cbn [fold_left]. rewrite (Hext a j (or_introl eq_refl)).
  apply IH. intros acc k Hk. apply Hext. right. exact Hk.
Qed.

Lemma frame_sum_identical (n : nat) (floats : list spec_float) (f : nat) :
  (f < length floats)%nat ->
  frame_sum (Z.of_nat n) (flat_map (fun x => repeat x n) floats) f
  = frame_sum (Z.of_nat n) (repeat (nth f floats Float32.zero) n) 0.
Proof.
  intros Hf. unfold frame_sum. rewrite Nat2Z.id.
  apply fold_left_ext_in. intros acc ch Hin. apply in_seq in Hin. f_equal.
  rewrite nth_flat_map_repeat by lia.
  cbn [Nat.mul Nat.add]. symmetry. apply nth_repeat_lt. lia.
Qed.

Lemma map_nth_seq {A : Type} (d : A) (l : list A) :
  map (fun i => nth i l d) (seq 0 (length l)) = l.
Proof.
  induction l as [|x l IH]; [reflexivity|].
  cbn [length seq map nth]. f_equal.
  rewrite <- seq_shift, map_map. exact IH.
Qed.

Lemma flat_map_repeat_map {A B : Type} (g : A -> B) (n : nat) (l : list A) :
  map g (flat_map (fun x => repeat x n) l)
  = flat_map (fun x => repeat x n) (map g l).
Proof.
  induction l as [|x l IH]; [reflexivity|].
  cbn [flat_map map]. rewrite map_app, IH. f_equal. clear IH.
  induction n as [|n IHn]; [reflexivity|]. cbn [repeat map]. now rewrite IHn.
Qed.

Lemma flat_map_repeat_1 {A : Type} (l : list A) :
  flat_map (fun x => repeat x 1) l = l.
Proof. induction l as [|x l IH]; [reflexivity|]. simpl. f_equal. exact IH. Qed.

Lemma flat_map_repeat_length {A : Type} (n : nat) (l : list A) :
  length (flat_map (fun x => repeat x n) l) = (length l * n)%nat.
Proof.
  induction l as [|x l IH]; [reflexivity|].
  cbn [flat_map length]. rewrite length_app, repeat_length, IH. lia.
Qed.

(** X14.  Identical channels downmix to the channel.  For 16-bit samples
    [z0, z1, ...] stored with 1, 2 or 4 interleaved channels that all
    carry the same sample in each frame, [ConvertToMonoFloat32] returns
    the floats [z0 / 32768, z1 / 32768, ...]: what it returns for the
    one-channel buffer. *)
Theorem X14_identical_channels_to_mono (n : nat) (samples : list Z) :
  n = 1%nat \/ n = 2%nat \/ n = 4%nat ->
  Forall is_int16 samples ->
  ConvertToMonoFloat32
    (sample_of (flat_map int16_bytes (flat_map (fun z => repeat z n) samples))
               (format_of (Z.of_nat n) 16 false false))
  = Value (map float_of_int16 samples).
Proof.
  intros Hn Hall.
  set (interleaved := flat_map (fun z => repeat z n) samples).
  assert (Hinter : Forall is_int16 interleaved).
  { subst interleaved. apply Forall_flat_map.
    eapply Forall_impl; [|exact Hall]. intros z Hz.
    apply Forall_forall. intros y Hy. apply repeat_spec in Hy. now subst. }
  assert (Hlen : Z.to_nat (Z.of_nat (length (flat_map int16_bytes interleaved)) / 2)
                 = length interleaved).
  { rewrite int16_bytes_length, Z.mul_comm, Z.div_mul by lia. apply Nat2Z.id. }
  assert (Hstep : float32_step1
                    (sample_of (flat_map int16_bytes interleaved)
                               (format_of (Z.of_nat n) 16 false false))
                  = Value (Some (map float_of_int16 interleaved))).
  { unfold float32_step1.
    cbn [sample_of format_of AudioSample.data AudioSample.format
         AudioFormat.bitsPerSample AudioFormat.channels Z.eqb Pos.eqb].
    rewrite Hlen. do 2 f_equal.
    rewrite <- (load_int16_of_bytes interleaved Hinter) at 2.
    rewrite map_map. reflexivity. }
  unfold ConvertToMonoFloat32. rewrite Hstep.
  cbn [sample_of format_of AudioSample.data AudioSample.format
       AudioFormat.bitsPerSample AudioFormat.channels].
  assert (Hsamples : map float_of_int16 interleaved
                     = flat_map (fun x => repeat x n) (map float_of_int16 samples))
    by apply flat_map_repeat_map.
  destruct (flat_map int16_bytes interleaved) as [|b rest] eqn:E.
  { assert (Hnil : samples = []).
    { destruct samples as [|z rest]; [reflexivity|].
      apply (f_equal (@length byte)) in E.
      rewrite flat_map_pairs_length in E by (intros; reflexivity).
      subst interleaved. rewrite flat_map_repeat_length in E. cbn [length] in E.
      destruct Hn as [->|[->| ->]]; lia. }
    subst samples. reflexivity. }
  cbn [bind].
  destruct Hn as [->|Hn].
  - cbn [Z.of_nat Pos.of_succ_nat Z.ltb Z.compare Pos.compare Pos.compare_cont].
    rewrite Hsamples. f_equal. apply flat_map_repeat_1.
  - assert (Hmulti : (1 <? Z.of_nat n) = true)
      by (apply Z.ltb_lt; destruct Hn as [->| ->]; lia).
    rewrite Hmulti, Hsamples, flat_map_repeat_length, length_map.
    rewrite Nat2Z.inj_mul, Z.div_mul by (destruct Hn as [->| ->]; lia).
    rewrite Nat2Z.id. f_equal.
    etransitivity; [|apply (map_nth_seq Float32.zero (map float_of_int16 samples))].
    rewrite length_map. apply map_ext_in. intros f Hf. apply in_seq in Hf.
    rewrite frame_sum_identical by (rewrite length_map; lia).
    assert (Hx : exists z, is_int16 z
                           /\ nth f (map float_of_int16 samples) Float32.zero
                              = float_of_int16 z).
    { exists (nth f samples 0). split.
      - apply Forall_nth; [exact Hall | lia].
      - rewrite <- (map_nth float_of_int16).
        apply nth_indep. rewrite length_map. lia. }
    destruct Hx as (z & Hz & ->).
    destruct (int16_float_facts z Hz) as (_ & _ & _ & _ & _ & H2 & H4).
    destruct Hn as [->| ->]; [exact H2 | exact H4].
Qed.

(** *** Complete frames *)

Lemma load_firstn (data : list byte) (k off n : nat) :
  (off + n <= k)%nat -> load (firstn k data) off n = load data off n.
Proof.
  intros Hk. unfold load. f_equal.
  rewrite skipn_firstn_comm, firstn_firstn. f_equal. lia.
Qed.

Lemma nth_map_seq {A : Type} (f : nat -> A) (n i : nat) (d : A) :
  (i < n)%nat -> nth i (map f (seq 0 n)) d = f i.
Proof.
  intros Hi. rewrite (nth_indep _ d (f 0%nat)) by (rewrite length_map, length_seq; lia).
  rewrite map_nth, seq_nth by lia. reflexivity.
Qed.

Lemma flat_map_ext_in {A B : Type} (f g : A -> list B) (l : list A) :
  (forall a, In a l -> f a = g a) -> flat_map f l = flat_map g l.
Proof.
  induction l as [|a l IH]; intros Hfg; [reflexivity|].
  cbn [flat_map]. rewrite (Hfg a (or_introl eq_refl)), IH; [reflexivity|].
  intros b Hb. apply Hfg. right. exact Hb.
Qed.

(** Step 2 of [ConvertToMonoFloat32] looks at the samples of complete
    frames only. *)
Lemma frame_sum_agree (channels : Z) (s1 s2 : list spec_float) (frame : nat) :
  (forall ch, (ch < Z.to_nat channels)%nat ->
              nth (frame * Z.to_nat channels + ch) s1 Float32.zero
              = nth (frame * Z.to_nat channels + ch) s2 Float32.zero) ->
  frame_sum channels s1 frame = frame_sum channels s2 frame.
Proof.
  intros Hnth. unfold frame_sum. apply fold_left_ext_in.
  intros acc ch Hin. apply in_seq in Hin. rewrite Hnth by lia. reflexivity.
Qed.


Lemma ConvertToMonoFloat32_empty (input : AudioSample.t) :
  AudioSample.data input = [] -> ConvertToMonoFloat32 input = Value [].
Proof. intros E. unfold ConvertToMonoFloat32. now rewrite E. Qed.

Lemma ConvertToMonoFloat32_steps (input : AudioSample.t) :
  AudioSample.data input <> [] ->
  ConvertToMonoFloat32 input
  = (do decoded <- float32_step1 input;
     match decoded with
     | None => Value []
     | Some samples =>
         let channels := AudioFormat.channels (AudioSample.format input) in
         if 1 <? channels then
           Value (map (fun frame => Float32.div (frame_sum channels samples frame)
                                                (Float32.of_int channels))
                      (seq 0 (Z.to_nat (Z.of_nat (length samples) / channels))))
         else Value samples
     end).
Proof.
  intros Hne. unfold ConvertToMonoFloat32.
  destruct (AudioSample.data input); [contradiction|reflexivity].
Qed.

(** Step 2 on two sample vectors that agree on the first [frames]
    frames and hold [frames] complete frames each. *)
Lemma step2_agree (channels frames : Z) (s1 s2 : list spec_float) :
  1 < channels -> 0 <= frames ->
  Z.of_nat (length s1) / channels = frames ->
  Z.of_nat (length s2) / channels = frames ->
  (forall i, (i < Z.to_nat (frames * channels))%nat ->
             nth i s1 Float32.zero = nth i s2 Float32.zero) ->
  map (fun frame => Float32.div (frame_sum channels s1 frame) (Float32.of_int channels))
      (seq 0 (Z.to_nat (Z.of_nat (length s1) / channels)))
  = map (fun frame => Float32.div (frame_sum channels s2 frame) (Float32.of_int channels))
        (seq 0 (Z.to_nat (Z.of_nat (length s2) / channels))).
Proof.
  intros Hch Hfr H1 H2 Hnth. rewrite H1, H2.
  apply map_ext_in. intros frame Hin. apply in_seq in Hin. f_equal.
  apply frame_sum_agree. intros ch Hlt. apply Hnth. nia.
Qed.

Lemma mono_float32_complete_frames (input : AudioSample.t) (floats : list spec_float) :
  let fmt := AudioSample.format input in
  let size := Z.of_nat (length (AudioSample.data input)) in
  AudioFormat.bitsPerSample fmt = 16 \/ AudioFormat.bitsPerSample fmt = 32 ->
  1 <= AudioFormat.channels fmt ->
  size < 2 ^ 64 ->
  ConvertToMonoFloat32 input = Value floats ->
  Z.of_nat (length floats)
  = size / (AudioFormat.bitsPerSample fmt / 8 * AudioFormat.channels fmt) ->
  ConvertToMonoFloat32 (complete_frames input) = Value floats.
Proof.
  cbv zeta. intros Hbps Hch Hsize Hrun Hlen.
  destruct input as [data fmt ts fc].
  cbn [AudioSample.data AudioSample.format] in *.
  set (c := AudioFormat.channels fmt) in *.
  set (size := Z.of_nat (length data)) in *.
  set (frameBytes := AudioFormat.bitsPerSample fmt / 8 * c) in *.
  set (frames := size / frameBytes) in *.
  assert (Hfb : 0 < frameBytes).
  { unfold frameBytes. destruct Hbps as [-> | ->];
      [change (16 / 8) with 2 | change (32 / 8) with 4]; lia. }
  assert (Hsz : 0 <= size) by (subst size; lia).
  assert (Hfr : 0 <= frames) by (apply Z.div_pos; lia).
  assert (Hle : frames * frameBytes <= size).
  { pose proof (Z.mul_div_le size frameBytes Hfb). fold frames in H. lia. }
  set (kept := complete_frames (AudioSample.Build data fmt ts fc)).
  assert (Hkept : AudioSample.data kept = firstn (Z.to_nat (frames * frameBytes)) data)
    by reflexivity.
  assert (Hklen : Z.of_nat (length (AudioSample.data kept)) = frames * frameBytes).
  { rewrite Hkept, length_firstn. subst size. lia. }
  assert (Hkfmt : AudioSample.format kept = fmt) by reflexivity.
  destruct (Z.eq_dec frames 0) as [Hzero|Hpos].
  { rewrite ConvertToMonoFloat32_empty.
    - rewrite Hzero in Hlen. destruct floats; [reflexivity | cbn [length] in Hlen; lia].
    - rewrite Hkept, Hzero. reflexivity. }
  assert (Hne : data <> []).
  { intros E. subst size. rewrite E in Hle. cbn [length Z.of_nat] in Hle. nia. }
  assert (Hkne : AudioSample.data kept <> []).
  { intros E. rewrite E in Hklen. cbn [length Z.of_nat] in Hklen. nia. }
  rewrite ConvertToMonoFloat32_steps in Hrun by exact Hne.
  rewrite ConvertToMonoFloat32_steps by exact Hkne.
  rewrite <- Hrun. rewrite Hkfmt. cbn [AudioSample.format]. fold c.
  unfold float32_step1. rewrite Hkfmt, Hklen.
  cbn [AudioSample.data AudioSample.format]. fold c. fold size.
  destruct Hbps as [Hbps|Hbps]; rewrite Hbps; cbn [Z.eqb Pos.eqb bind].
  - (* 16 bits *)
    assert (HfbE : frameBytes = 2 * c) by (unfold frameBytes; rewrite Hbps; reflexivity).
    assert (Hhalf : frames * frameBytes / 2 = frames * c).
    { rewrite HfbE. replace (frames * (2 * c)) with (frames * c * 2) by lia.
      apply Z.div_mul. lia. }
    assert (Hsame : forall i, (i < Z.to_nat (frames * c))%nat ->
              load_int16 (AudioSample.data kept) i = load_int16 data i).
    { intros i Hi. unfold load_int16. f_equal. rewrite Hkept.
      apply load_firstn. nia. }
    assert (Hframes : size / 2 / c = frames).
    { unfold frames. rewrite HfbE. apply Z.div_div; lia. }
    assert (Hmore : frames * c <= size / 2).
    { apply Z.div_le_lower_bound; [lia | nia]. }
    rewrite Hhalf.
    destruct (Z.ltb_spec 1 c) as [Hmulti|Hmono]; f_equal.
    + apply step2_agree with (frames := frames); try assumption.
      * rewrite length_map, length_seq, Z2Nat.id by nia. apply Z.div_mul. lia.
      * rewrite length_map, length_seq, Z2Nat.id by (apply Z.div_pos; lia).
        exact Hframes.
      * intros i Hi.
        rewrite (nth_map_seq _ _ i) by exact Hi.
        rewrite (nth_map_seq _ _ i) by lia.
        now rewrite Hsame.
    + assert (Hc1 : c = 1) by lia.
      rewrite Hc1, Z.div_1_r in Hframes. rewrite Hc1, Z.mul_1_r in *. rewrite Hframes.
      apply map_ext_in. intros i Hin. apply in_seq in Hin. rewrite Hsame by lia.
      reflexivity.
  - (* 32 bits *)
    assert (HfbE : frameBytes = 4 * c) by (unfold frameBytes; rewrite Hbps; reflexivity).
    rewrite <- HfbE.
    destruct (Z.eqb_spec frameBytes 0) as [Hz|_]; [lia|].
    rewrite (Z.div_mul frames frameBytes) by lia. fold frames.
    assert (Hsame : forall i, (i < Z.to_nat (frames * c))%nat ->
              load (AudioSample.data kept) (4 * i) 4 = load data (4 * i) 4).
    { intros i Hi. rewrite Hkept. apply load_firstn. nia. }
    assert (Htotal : size_t (frames * c) = frames * c).
    { apply size_t_small. nia. }
    rewrite Htotal.
    assert (Hstep1 :
      (if AudioFormat.isFloat fmt
       then
         if AudioFormat.isNonInterleaved fmt && (c =? 2)
         then Value (Some (flat_map
                      (fun frame => [load_float (AudioSample.data kept) frame;
                                     load_float (AudioSample.data kept)
                                                (Z.to_nat frames + frame)])
                      (seq 0 (Z.to_nat frames))))
         else Value (Some (map (load_float (AudioSample.data kept))
                               (seq 0 (Z.to_nat (frames * c)))))
       else Value (Some (map (fun i => Float32.div
                                         (Float32.of_int (load_int32 (AudioSample.data kept) i))
                                         Float32.c2147483648)
                             (seq 0 (Z.to_nat (frames * c))))))
      = (if AudioFormat.isFloat fmt
         then
           if AudioFormat.isNonInterleaved fmt && (c =? 2)
           then Value (Some (flat_map
                        (fun frame => [load_float data frame;
                                       load_float data (Z.to_nat frames + frame)])
                        (seq 0 (Z.to_nat frames))))
           else Value (Some (map (load_float data) (seq 0 (Z.to_nat (frames * c)))))
         else Value (Some (map (fun i => Float32.div
                                           (Float32.of_int (load_int32 data i))
                                           Float32.c2147483648)
                               (seq 0 (Z.to_nat (frames * c))))))).
    { destruct (AudioFormat.isFloat fmt);
        [destruct (AudioFormat.isNonInterleaved fmt && (c =? 2)) eqn:Eplanar|];
        do 2 f_equal.
      - apply andb_prop in Eplanar. destruct Eplanar as [_ Hc2]. apply Z.eqb_eq in Hc2.
        apply flat_map_ext_in. intros frame Hin. apply in_seq in Hin.
        unfold load_float. rewrite !Hsame by lia. reflexivity.
      - apply map_ext_in. intros i Hin. apply in_seq in Hin.
        unfold load_float. rewrite Hsame by lia. reflexivity.
      - apply map_ext_in. intros i Hin. apply in_seq in Hin.
        unfold load_int32. rewrite Hsame by lia. reflexivity. }
    rewrite Hstep1. reflexivity.
Qed.

(** X11.  One output sample a frame, made of complete frames only.  At 16
    or 32 bits per sample and at least one channel, for a buffer shorter
    than 2^64 bytes, [ConvertToMonoFloat32] returns as many floats as the
    buffer holds complete frames, its size over the bytes of a frame, and
    returns the same floats for the buffer cut after its last complete
    frame: the bytes of an incomplete frame at the end never change the
    result.  At 16 bits Step 1 still decodes every complete 16-bit
    sample, [size / 2] of them, those of an incomplete frame included;
    Step 2 leaves them out. *)
Theorem X11_one_float_per_frame (input : AudioSample.t) :
  let fmt := AudioSample.format input in
  let size := Z.of_nat (length (AudioSample.data input)) in
  AudioFormat.bitsPerSample fmt = 16 \/ AudioFormat.bitsPerSample fmt = 32 ->
  1 <= AudioFormat.channels fmt ->
  size < 2 ^ 64 ->
  (exists floats,
     ConvertToMonoFloat32 input = Value floats
     /\ Z.of_nat (length floats)
        = size / (AudioFormat.bitsPerSample fmt / 8 * AudioFormat.channels fmt)
     /\ ConvertToMonoFloat32 (complete_frames input) = Value floats)
  /\ (AudioFormat.bitsPerSample fmt = 16 ->
      float32_step1 input
      = Value (Some (map (fun i => float_of_int16 (load_int16 (AudioSample.data input) i))
                         (seq 0 (Z.to_nat (size / 2)))))).
Proof.
  cbv zeta. intros Hbps Hch Hsize. split.
  - destruct (mono_float32_frame_count input Hbps Hch Hsize) as (floats & Hrun & Hlen).
    exists floats. split; [exact Hrun|]. split; [exact Hlen|].
    apply mono_float32_complete_frames; assumption.
  - intros H16. unfold float32_step1. rewrite H16. reflexivity.
Qed.

(** *** MovingAverageFilter *)

Lemma all_values_map {A B : Type} (f : A -> outcome B) (g : A -> B) (l : list A) :
  (forall x, In x l -> f x = Value (g x)) ->
  all_values (map f l) = Value (map g l).
Proof.
  induction l as [|x l IH]; intros Hfg; [reflexivity|].
  cbn [map all_values]. rewrite (Hfg x (or_introl eq_refl)). cbn [bind].
  rewrite IH by (intros y Hy; apply Hfg; right; exact Hy). reflexivity.
Qed.

Lemma skipn_nth_cons {A : Type} (d : A) (l : list A) : forall n,
  (n < length l)%nat -> skipn n l = nth n l d :: skipn (S n) l.
Proof.
  induction l as [|x l IH]; intros n Hn; [cbn in Hn; lia|].
  destruct n as [|n]; [reflexivity|].
  cbn [skipn nth]. apply IH. cbn [length] in Hn. lia.
Qed.

Lemma sumZ_bounds lo hi (l : list Z) :
  Forall (fun x => lo <= x <= hi) l ->
  Z.of_nat (length l) * lo <= AudioBuffer.sumZ l <= Z.of_nat (length l) * hi.
Proof.
  unfold AudioBuffer.sumZ.
  induction 1 as [|x l Hx Hl IH]; cbn [length fold_right]; [lia|].
  rewrite Nat2Z.inj_succ. lia.
Qed.

Lemma Forall_window {A : Type} (P : A -> Prop) (l : list A) (start count : nat) :
  Forall P l -> Forall P (firstn count (skipn start l)).
Proof.
  intros Hall. revert start count.
  induction Hall as [|x l Hx Hl IH]; intros start count.
  - rewrite skipn_nil, firstn_nil. constructor.
  - destruct start as [|start]; [|cbn [skipn]; apply IH].
    cbn [skipn]. destruct count as [|count]; [constructor|].
    cbn [firstn]. constructor; [exact Hx|]. apply (IH 0%nat count).
Qed.

(** The [int32_t] accumulation does not wrap while the window holds at
    most 65535 samples of [int16_t]. *)
Lemma window_fold_plain (input : list Z) :
  Forall is_int16 input ->
  forall count start acc,
    (start + count <= length input)%nat ->
    - 2147483648 + Z.of_nat count * 32768 <= acc
                                         <= 2147483647 - Z.of_nat count * 32768 ->
    fold_left (fun sum j => int32_t (sum + nth j input 0)) (seq start count) acc
    = acc + AudioBuffer.sumZ (firstn count (skipn start input)).
Proof.
  intros Hall. induction count as [|count IH]; intros start acc Hlen Hacc.
  - cbn [seq fold_left firstn]. unfold AudioBuffer.sumZ. cbn. lia.
  - cbn [seq fold_left].
    assert (Hx : is_int16 (nth start input 0)) by (apply Forall_nth; [exact Hall | lia]).
    unfold is_int16 in Hx.
    rewrite int32_t_id by (unfold is_int32; lia).
    rewrite IH by lia.
    rewrite (skipn_nth_cons 0 input start) by lia.
    cbn [firstn]. unfold AudioBuffer.sumZ. cbn [fold_right]. lia.
Qed.

Lemma window_sum_plain (input : list Z) (start count : nat) :
  Forall is_int16 input ->
  (start + count <= length input)%nat -> Z.of_nat count <= 65535 ->
  window_sum input start count
  = AudioBuffer.sumZ (firstn count (skipn start input)).
Proof.
  intros Hall Hlen Hcount. unfold window_sum.
  rewrite (window_fold_plain input Hall) by lia. lia.
Qed.

(** One round of the outer loop, in unbounded integers. *)
Lemma moving_average_at_plain (input : list Z) (windowSize : Z) (i : nat) :
  Forall is_int16 input ->
  0 <= windowSize <= 65535 ->
  Z.of_nat (length input) < 2 ^ 63 ->
  (i < length input)%nat ->
  let count := window_end input windowSize i - window_start windowSize i in
  1 <= count <= 65535
  /\ Z.of_nat (length (firstn (Z.to_nat count)
                              (skipn (Z.to_nat (window_start windowSize i)) input)))
     = count
  /\ moving_average_at input windowSize i
     = Value (int16_t (size_t (window_total input windowSize i) / count)).
Proof.
  intros Hall Hw Hlen Hi. cbv zeta.
  change (2 ^ 63) with 9223372036854775808 in Hlen.
  assert (Hh : 0 <= windowSize / 2 <= 32767).
  { pose proof (Z.div_mod windowSize 2). pose proof (Z.mod_pos_bound windowSize 2). lia. }
  unfold moving_average_at, window_total, window_end, window_start.
  set (h := windowSize / 2) in *. set (size := Z.of_nat (length input)) in *.
  assert (Hstart : (if h <=? Z.of_nat i then size_t (Z.of_nat i - h) else 0)
                   = Z.max 0 (Z.of_nat i - h)).
  { destruct (Z.leb_spec h (Z.of_nat i)).
    - rewrite size_t_small by (change (2 ^ 64) with 18446744073709551616; lia). lia.
    - lia. }
  rewrite Hstart.
  rewrite (size_t_small (Z.of_nat i + h + 1))
    by (change (2 ^ 64) with 18446744073709551616; lia).
  set (start := Z.max 0 (Z.of_nat i - h)). set (stop := Z.min (Z.of_nat i + h + 1) size).
  assert (Hcount : 1 <= stop - start <= 65535) by (subst start stop size; lia).
  assert (Hin : (Z.to_nat start + Z.to_nat (stop - start) <= length input)%nat)
    by (subst start stop size; lia).
  split; [exact Hcount|]. split.
  - rewrite length_firstn, length_skipn. lia.
  - rewrite (size_t_small (stop - start))
      by (change (2 ^ 64) with 18446744073709551616; lia).
    destruct (Z.eqb_spec (stop - start) 0) as [Hz|_]; [lia|].
    rewrite window_sum_plain by (try exact Hall; lia). reflexivity.
Qed.

Lemma MovingAverageFilter_plain (input : list Z) (windowSize : Z) :
  Forall is_int16 input ->
  1 <= windowSize <= 65535 ->
  Z.of_nat (length input) < 2 ^ 63 ->
  MovingAverageFilter input windowSize
  = Value (map (fun i => int16_t (size_t (window_total input windowSize i)
                                  / (window_end input windowSize i
                                     - window_start windowSize i)))
               (seq 0 (length input))).
Proof.
  intros Hall Hw Hlen.
  unfold MovingAverageFilter. destruct input as [|x rest] eqn:E; [reflexivity|].
  rewrite <- E in *.
  destruct (Z.eqb_spec windowSize 0) as [Hz|_]; [lia|].
  apply all_values_map. intros i Hin. apply in_seq in Hin.
  apply moving_average_at_plain; try assumption; lia.
Qed.

(** X15.  [MovingAverageFilter] returns its input when the input is empty
    or the window is 0.  For [int16_t] samples, a window of at most 65535
    and an input shorter than 2^63 it returns one value a sample and
    never divides by zero: at position [i] the window runs from
    [max(0, i - w/2)] to [min(i + w/2 + 1, size)], holds at least one
    sample, and the value is the sum of its samples, converted to
    [size_t], over their number, cast to [int16_t]. *)
Theorem X15_moving_average_shape (input : list Z) (windowSize : Z) :
  MovingAverageFilter [] windowSize = Value []
  /\ MovingAverageFilter input 0 = Value input
  /\ (Forall is_int16 input ->
      1 <= windowSize <= 65535 ->
      Z.of_nat (length input) < 2 ^ 63 ->
      exists output,
        MovingAverageFilter input windowSize = Value output
        /\ length output = length input
        /\ output
           = map (fun i => int16_t (size_t (window_total input windowSize i)
                                    / (window_end input windowSize i
                                       - window_start windowSize i)))
                 (seq 0 (length input))).
Proof.
  split; [reflexivity|]. split; [destruct input; reflexivity|].
  intros Hall Hw Hlen.
  eexists. split; [|split; [|reflexivity]].
  - apply MovingAverageFilter_plain; assumption.
  - now rewrite length_map, length_seq.
Qed.

(** X16.  On samples that are not negative the filter is the average
    rounded down.  For samples between 0 and 32767, a window of at most
    65535 and an input shorter than 2^63, the value at every position is
    the sum of the samples of the window over their number, in integer
    division, and lies between 0 and 32767. *)
Theorem X16_moving_average_nonnegative (input : list Z) (windowSize : Z) :
  Forall (fun x => 0 <= x <= 32767) input ->
  1 <= windowSize <= 65535 ->
  Z.of_nat (length input) < 2 ^ 63 ->
  let mean i := window_total input windowSize i
                / (window_end input windowSize i - window_start windowSize i) in
  MovingAverageFilter input windowSize = Value (map mean (seq 0 (length input)))
  /\ Forall (fun y => 0 <= y <= 32767) (map mean (seq 0 (length input))).
Proof.
  intros Hpos Hw Hlen mean.
  assert (Hall : Forall is_int16 input).
  { eapply Forall_impl; [|exact Hpos]. unfold is_int16. intros x Hx. lia. }
  assert (Hmean : forall i, (i < length input)%nat ->
             moving_average_at input windowSize i = Value (mean i)
             /\ 0 <= mean i <= 32767).
  { intros i Hi.
    destruct (moving_average_at_plain input windowSize i Hall ltac:(lia) Hlen Hi)
      as (Hcount & Hfirst & Heq).
    cbv zeta in Hcount, Hfirst, Heq. subst mean. cbv beta.
    set (count := window_end input windowSize i - window_start windowSize i) in *.
    assert (Hsum : 0 <= window_total input windowSize i <= count * 32767).
    { unfold window_total. fold count.
      pose proof (sumZ_bounds 0 32767
                    (firstn (Z.to_nat count)
                            (skipn (Z.to_nat (window_start windowSize i)) input))) as Hb.
      rewrite Hfirst in Hb.
      assert (Hsub : Forall (fun x => 0 <= x <= 32767)
                       (firstn (Z.to_nat count)
                               (skipn (Z.to_nat (window_start windowSize i)) input))).
      { apply Forall_window. exact Hpos. }
      specialize (Hb Hsub). lia. }
    assert (Hq : 0 <= window_total input windowSize i / count <= 32767).
    { split; [apply Z.div_pos; lia|].
      apply Z.div_le_upper_bound; lia. }
    split; [|exact Hq].
    rewrite Heq, size_t_small
      by (change (2 ^ 64) with 18446744073709551616; lia).
    now rewrite int16_t_id by (unfold is_int16; lia). }
  split.
  - unfold MovingAverageFilter. destruct input as [|x rest] eqn:E; [reflexivity|].
    rewrite <- E in *.
    destruct (Z.eqb_spec windowSize 0) as [Hz|_]; [lia|].
    apply all_values_map. intros i Hin. apply in_seq in Hin. apply Hmean. lia.
  - apply Forall_map, Forall_forall. intros i Hin. apply in_seq in Hin.
    apply Hmean. lia.
Qed.

(** X17.  On a negative window sum the filter is not the average: the
    [int32_t] sum is converted to [size_t] before the division.  Three
    equal negative samples [c] filtered with a window of 3 give [c] at
    both ends, where two samples are averaged, and [21845 + c] in the
    middle, where three are. *)
Theorem X17_moving_average_negative (c : Z) :
  -32768 <= c < 0 ->
  MovingAverageFilter [c; c; c] 3 = Value [c; 21845 + c; c].
Proof.
  intros Hc.
  assert (Hall : Forall is_int16 [c; c; c])
    by (repeat constructor; unfold is_int16; lia).
  rewrite (MovingAverageFilter_plain [c; c; c] 3 Hall ltac:(lia) eq_refl). f_equal.
  cbn [length seq map].
  change (window_total [c; c; c] 3 0) with (c + (c + 0)).
  change (window_total [c; c; c] 3 1) with (c + (c + (c + 0))).
  change (window_total [c; c; c] 3 2) with (c + (c + 0)).
  change (window_end [c; c; c] 3 0 - window_start 3 0) with 2.
  change (window_end [c; c; c] 3 1 - window_start 3 1) with 3.
  change (window_end [c; c; c] 3 2 - window_start 3 2) with 2.
  assert (H2 : size_t (c + (c + 0)) / 2 = 9223372036854775808 + c).
  { unfold size_t, wrap. change (2 ^ 64) with 18446744073709551616.
    rewrite <- (Z.mod_unique (c + (c + 0)) 18446744073709551616 (-1)
                  (18446744073709551616 + 2 * c)) by lia.
    symmetry. apply (Z.div_unique _ 2 _ 0); lia. }
  assert (H3 : size_t (c + (c + (c + 0))) / 3 = 6148914691236517205 + c).
  { unfold size_t, wrap. change (2 ^ 64) with 18446744073709551616.
    rewrite <- (Z.mod_unique (c + (c + (c + 0))) 18446744073709551616 (-1)
                  (18446744073709551616 + 3 * c)) by lia.
    symmetry. apply (Z.div_unique _ 3 _ 1); lia. }
  rewrite H2, H3.
  assert (Hend : int16_t (9223372036854775808 + c) = c).
  { unfold int16_t, swrap. change (2 ^ (16 - 1)) with 32768. change (2 ^ 16) with 65536.
    rewrite <- (Z.mod_unique (9223372036854775808 + c + 32768) 65536
                  140737488355328 (c + 32768)) by lia.
    lia. }
  assert (Hmid : int16_t (6148914691236517205 + c) = 21845 + c).
  { unfold int16_t, swrap. change (2 ^ (16 - 1)) with 32768. change (2 ^ 16) with 65536.
    rewrite <- (Z.mod_unique (6148914691236517205 + c + 32768) 65536
                  93824992236885 (21845 + c + 32768)) by lia.
    lia. }
  rewrite Hend, Hmid. reflexivity.
Qed.
End ConverterFormats.

(** * Properties of the addon's use of the buffer *)

Lemma accounted_float32 sizeof_AudioChunk b :
  AudioBuffer.chunks_ b = [] ->
  AudioBuffer.accounted sizeof_AudioChunk b
  <-> AudioBuffer.currentSizeBytes_ b
      = size_t (AudioBuffer.sumZ (map AudioBuffer.float32_bytes
                                      (AudioBuffer.float32Chunks_ b))).
Proof.
  intros Hq. unfold AudioBuffer.accounted, AudioBuffer.queued_bytes. rewrite Hq.
  cbn [map]. unfold AudioBuffer.sumZ at 1. cbn [fold_right]. rewrite Z.add_0_l.
  reflexivity.
Qed.

Section AddonProperties.

Import AudioBuffer AudioCaptureWrapper.
Variable sizeof_AudioChunk : Z.

#[local] Abbreviation ProcessAndBufferAudio :=
  (AudioCaptureWrapper.ProcessAndBufferAudio sizeof_AudioChunk).
#[local] Abbreviation GetBufferedAudio :=
  (AudioCaptureWrapper.GetBufferedAudio sizeof_AudioChunk).
#[local] Abbreviation perform := (AudioCaptureWrapper.perform sizeof_AudioChunk).
#[local] Abbreviation run := (AudioCaptureWrapper.run sizeof_AudioChunk).

Lemma float32_only_new : float32_only (AudioBuffer (5 * 1024 * 1024)).
Proof. repeat split. constructor. Qed.

Lemma float32_only_PushFloat32 x d now b :
  float32_only b ->
  float32_only (PushFloat32 sizeof_AudioChunk (x :: d) 48000 1 now b).
Proof.
  intros (Hq & Hmax & Hall & Hcur).
  unfold PushFloat32, TrimToSize.
  cbn [chunks_ float32Chunks_ maxSizeBytes_ currentSizeBytes_].
  rewrite Hq. cbn [trim_loop].
  unfold float32_only. cbn [chunks_ float32Chunks_ maxSizeBytes_ currentSizeBytes_].
  split; [reflexivity|]. split; [exact Hmax|]. split.
  - apply Forall_app. split; [exact Hall|]. constructor; [|constructor].
    unfold mono_48k. cbn. repeat split. discriminate.
  - rewrite Hcur, map_app, sumZ_app, size_t_add_l, size_t_add_r.
    f_equal. unfold sumZ, float32_bytes. cbn [map fold_right Float32AudioChunk.data]. lia.
Qed.

Lemma float32_only_PopMultipleFloat32 maxChunks b :
  float32_only b -> float32_only (snd (PopMultipleFloat32 maxChunks b)).
Proof.
  intros (Hq & Hmax & Hall & Hcur).
  destruct (PopMultipleFloat32_takes maxChunks b) as (_ & Hf & Hc).
  assert (Hq' : chunks_ (snd (PopMultipleFloat32 maxChunks b)) = [])
    by (rewrite Hc; exact Hq).
  split; [exact Hq'|]. split; [|split].
  - unfold PopMultipleFloat32.
    destruct (pop_loop_float32 _ _ _ _ _) as [[cur q] result]. exact Hmax.
  - rewrite Hf. rewrite <- (firstn_skipn (Z.to_nat maxChunks)) in Hall.
    apply Forall_app in Hall. apply Hall.
  - apply (accounted_float32 0 _ Hq').
    apply (step_accounted 0 (DoPopMultipleFloat32 maxChunks)).
    apply (accounted_float32 0 _ Hq). exact Hcur.
Qed.

Lemma PopMultiple_of_empty maxChunks b :
  chunks_ b = [] -> PopMultiple sizeof_AudioChunk maxChunks b = ([], b).
Proof.
  intros Hq. destruct b as [q f m cur]. cbn in Hq. subst q. reflexivity.
Qed.

(** What holds of a session between two calls. *)
Lemma perform_float32_only c s s' :
  pcm16Out s = [] ->
  match wrapper s with Some b => float32_only b | None => float32Out s = [] end ->
  perform c s = Value s' ->
  pcm16Out s' = []
  /\ match wrapper s, wrapper s' with
     | Some _, Some b' => float32_only b'
     | None, None => float32Out s' = []
     | _, _ => False
     end.
Proof.
  intros Hout Hw Hrun. destruct s as [w fout pout]. cbn in Hout, Hw. subst pout.
  destruct c as [sample now | | | ]; cbn [perform AudioCaptureWrapper.perform wrapper
                                           float32Out pcm16Out] in Hrun.
  - destruct w as [b|]; cbn [AudioCaptureWrapper.ProcessAndBufferAudio] in Hrun.
    + destruct (AudioFormatConverter.ConvertToMonoFloat32 sample) as [[|x d]|e];
        cbn [bind] in Hrun; try discriminate;
        injection Hrun as <-; cbn [wrapper pcm16Out]; (split; [reflexivity|]).
      * exact Hw.
      * apply float32_only_PushFloat32. exact Hw.
    + cbn [bind] in Hrun. injection Hrun as <-. cbn. auto.
  - destruct w as [b|]; cbn [AudioCaptureWrapper.GetBufferedAudio] in Hrun.
    + rewrite (PopMultiple_of_empty 1000 b (proj1 Hw)) in Hrun.
      injection Hrun as <-. cbn. auto.
    + injection Hrun as <-. cbn. auto.
  - destruct w as [b|]; cbn [GetBufferedFloat32Audio] in Hrun.
    + pose proof (float32_only_PopMultipleFloat32 1000 b Hw) as Hb'.
      destruct (PopMultipleFloat32 1000 b) as [chunks b'].
      injection Hrun as <-. cbn. auto.
    + injection Hrun as <-. cbn [wrapper pcm16Out float32Out].
      rewrite Hw. auto.
  - injection Hrun as <-. cbn [wrapper pcm16Out float32Out].
    split; [reflexivity|]. destruct w as [b|]; cbn [ClearBuffer]; [|exact Hw].
    destruct Hw as (_ & Hmax & _ & _).
    unfold float32_only. cbn. repeat split; [exact Hmax | constructor].
Qed.

Lemma run_float32_only calls : forall s s',
  pcm16Out s = [] ->
  match wrapper s with Some b => float32_only b | None => float32Out s = [] end ->
  run calls s = Value s' ->
  pcm16Out s' = []
  /\ match wrapper s, wrapper s' with
     | Some _, Some b' => float32_only b'
     | None, None => float32Out s' = []
     | _, _ => False
     end.
Proof.
  induction calls as [|c rest IH]; intros s s' Hout Hw Hrun.
  - injection Hrun as <-. split; [exact Hout|]. destruct (wrapper s); exact Hw.
  - cbn [run AudioCaptureWrapper.run] in Hrun.
    destruct (perform c s) as [s1|e] eqn:Hstep; cbn [bind] in Hrun; [|discriminate].
    destruct (perform_float32_only c s s1 Hout Hw Hstep) as [Hout1 Hw1].
    assert (Hw1' : match wrapper s1 with
                   | Some b => float32_only b
                   | None => float32Out s1 = []
                   end).
    { destruct (wrapper s), (wrapper s1); try contradiction; exact Hw1. }
    destruct (IH s1 s' Hout1 Hw1' Hrun) as [Hout' Hw'].
    split; [exact Hout'|].
    destruct (wrapper s), (wrapper s1), (wrapper s'); try contradiction; exact Hw'.
Qed.

(** X18.  The addon uses the float32 queue only.  After any sequence of
    its calls on a new wrapper [GetBufferedAudio] has never returned a
    chunk.  With a buffer, the PCM16 queue is empty, the budget is the
    5 MiB of the constructor, every queued chunk is non-empty and
    labelled 48000 Hz mono, and the counter is four bytes a queued
    sample modulo 2^64: the budget bounds nothing.  Without a buffer
    nothing was ever returned. *)
Theorem X18_addon_float32_queue_only (captureCreated : bool) (calls : list call)
        (s' : session) :
  run calls (start captureCreated) = Value s' ->
  pcm16Out s' = []
  /\ match wrapper s' with
     | Some b => captureCreated = true /\ float32_only b
     | None => captureCreated = false /\ float32Out s' = []
     end.
Proof.
  intros Hrun.
  assert (Hstart : match wrapper (start captureCreated) with
                   | Some b => float32_only b
                   | None => float32Out (start captureCreated) = []
                   end).
  { destruct captureCreated; cbn; [apply float32_only_new | reflexivity]. }
  destruct (run_float32_only calls (start captureCreated) s' eq_refl Hstart Hrun)
    as [Hout Hw].
  split; [exact Hout|].
  destruct captureCreated; cbn [start wrapper AudioCaptureWrapper.AudioCaptureWrapper] in Hw;
    destruct (wrapper s'); try contradiction; auto.
Qed.

(** One call keeps the stream: what was handed out, then what is
    queued, grows by what the converter made of the captured sample. *)
Lemma perform_stream c b s :
  wrapper s = Some b -> converts c -> is_clear c = false ->
  exists s' b',
    perform c s = Value s'
    /\ wrapper s' = Some b'
    /\ float32Out s' ++ pending (wrapper s')
       = (float32Out s ++ pending (wrapper s)) ++ converted [c].
Proof.
  intros Hw Hconv Hclear. destruct s as [w fout pout]. cbn in Hw. subst w.
  destruct c as [sample now | | | ]; [| | |discriminate];
    cbn [perform AudioCaptureWrapper.perform wrapper float32Out pcm16Out converted].
  - destruct Hconv as [float32Data Hconv].
    cbn [AudioCaptureWrapper.ProcessAndBufferAudio]. rewrite Hconv. cbn [bind].
    destruct float32Data as [|x d].
    + eexists _, b. split; [reflexivity|]. split; [reflexivity|].
      cbn [wrapper float32Out app]. now rewrite !app_nil_r.
    + eexists _, _. split; [reflexivity|]. split; [reflexivity|].
      cbn [wrapper float32Out pending].
      rewrite (PushFloat32_appends sizeof_AudioChunk), map_app, concat_app.
      cbn [map concat Float32AudioChunk.data]. now rewrite !app_nil_r, app_assoc.
  - cbn [AudioCaptureWrapper.GetBufferedAudio].
    destruct (PopMultiple_takes sizeof_AudioChunk 1000 b) as (_ & _ & Hf).
    destruct (PopMultiple sizeof_AudioChunk 1000 b) as [chunks b'].
    eexists _, b'. split; [reflexivity|]. split; [reflexivity|].
    cbn [wrapper float32Out pending snd] in *. now rewrite Hf, app_nil_r.
  - cbn [GetBufferedFloat32Audio].
    destruct (PopMultipleFloat32_takes 1000 b) as (Hr & Hf & _).
    destruct (PopMultipleFloat32 1000 b) as [chunks b'].
    eexists _, b'. split; [reflexivity|]. split; [reflexivity|].
    cbn [wrapper float32Out pending fst snd] in *. rewrite Hr, Hf, app_nil_r.
    rewrite <- app_assoc, <- concat_app, <- map_app, firstn_skipn. reflexivity.
Qed.

Lemma converted_cons c rest : converted (c :: rest) = converted [c] ++ converted rest.
Proof.
  destruct c as [sample now | | | ]; cbn [converted]; try reflexivity.
  destruct (AudioFormatConverter.ConvertToMonoFloat32 sample);
    now rewrite ?app_nil_r.
Qed.

Lemma run_stream calls : forall b s,
  wrapper s = Some b ->
  Forall converts calls -> Forall (fun c => is_clear c = false) calls ->
  exists s',
    run calls s = Value s'
    /\ float32Out s' ++ pending (wrapper s')
       = (float32Out s ++ pending (wrapper s)) ++ converted calls.
Proof.
  induction calls as [|c rest IH]; intros b s Hw Hconv Hclear.
  - exists s. split; [reflexivity|]. cbn [converted]. now rewrite app_nil_r.
  - inversion Hconv as [|? ? Hc Hrest]; subst.
    inversion Hclear as [|? ? Hk Hkrest]; subst.
    destruct (perform_stream c b s Hw Hc Hk) as (s1 & b1 & Hstep & Hw1 & Hout1).
    destruct (IH b1 s1 Hw1 Hrest Hkrest) as (s' & Hrun & Hout).
    exists s'. split.
    + cbn [run AudioCaptureWrapper.run]. rewrite Hstep. exact Hrun.
    + rewrite Hout, Hout1, (converted_cons c rest), app_assoc. reflexivity.
Qed.

(** X19.  Between clears the addon loses no sample and keeps the order,
    whatever the budget.  On a wrapper with a buffer, any sequence of
    captures and reads without [ClearBuffer], whose samples the converter
    is defined on, runs to the end, and the floats
    [GetBufferedFloat32Audio] has returned so far, followed by the floats
    still queued, are the floats [ConvertToMonoFloat32] made of the
    captured samples, in the order of capture. *)
Theorem X19_addon_stream_preserved (calls : list call) :
  Forall converts calls ->
  Forall (fun c => is_clear c = false) calls ->
  exists s',
    run calls (start true) = Value s'
    /\ float32Out s' ++ pending (wrapper s') = converted calls.
Proof.
  intros Hconv Hclear.
  destruct (run_stream calls (AudioBuffer (5 * 1024 * 1024)) (start true)
              eq_refl Hconv Hclear) as (s' & Hrun & Hout).
  exists s'. split; [exact Hrun | exact Hout].
Qed.

(** X20.  A read empties the buffer when at most 1000 chunks wait.  In a
    state the addon can reach, [GetBufferedFloat32Audio] then returns all
    queued floats in order and leaves the float32 queue empty and the
    byte counter at 0; with more chunks waiting it returns the floats of
    the first 1000 and leaves the others queued. *)
Theorem X20_read_drains_the_buffer (b : AudioBuffer.t) :
  float32_only b ->
  let q := float32Chunks_ b in
  exists b',
    snd (GetBufferedFloat32Audio (Some b)) = Some b'
    /\ fst (GetBufferedFloat32Audio (Some b))
       = concat (map Float32AudioChunk.data (firstn 1000 q))
    /\ float32Chunks_ b' = skipn 1000 q
    /\ (Z.of_nat (length q) <= 1000 ->
        fst (GetBufferedFloat32Audio (Some b)) = pending (Some b)
        /\ float32Chunks_ b' = []
        /\ GetSize b' = 0).
Proof.
  intros Hb. cbv zeta. cbn [GetBufferedFloat32Audio].
  pose proof (float32_only_PopMultipleFloat32 1000 b Hb) as Hb'.
  destruct (PopMultipleFloat32_takes 1000 b) as (Hr & Hf & _).
  destruct (PopMultipleFloat32 1000 b) as [chunks b'].
  cbn [fst snd] in *. exists b'.
  change (Z.to_nat 1000) with 1000%nat in Hr, Hf.
  split; [reflexivity|]. split; [now rewrite Hr|]. split; [exact Hf|].
  intros Hlen.
  assert (Hempty : float32Chunks_ b' = []) by (rewrite Hf; apply skipn_all2; lia).
  split; [|split; [exact Hempty|]].
  - rewrite Hr, firstn_all2 by lia. reflexivity.
  - destruct Hb' as (_ & _ & _ & Hcur). unfold GetSize. rewrite Hcur, Hempty. reflexivity.
Qed.

End AddonProperties.

(** * The further properties at concrete inputs *)

(** A float32 push into a buffer with a budget of 4 bytes. *)
Lemma X2_float32_never_evicted_witness :
  let b := AudioBuffer.AudioBuffer 4 in
  AudioBuffer.chunks_ b = []
  /\ AudioBuffer.PushFloat32 40 [Float32.one; Float32.one] 48000 1 0 b
     = AudioBuffer.Build
         [] [Float32AudioChunk.Build [Float32.one; Float32.one] 0 48000 1] 4 8.
Proof.
  split; [reflexivity|].
  apply (proj2 (X2_float32_never_evicted 40 Float32.one [Float32.one] 48000 1 0
                  (AudioBuffer.AudioBuffer 4))).
  reflexivity.
Defined.

Lemma X4_batch_pops_compose_witness :
  let b := AudioBuffer.run 40
             [AudioBuffer.Produce (AudioBuffer.DoPush [1] 48000 1 0);
              AudioBuffer.Produce (AudioBuffer.DoPush [2] 48000 1 1);
              AudioBuffer.Produce (AudioBuffer.DoPush [3] 48000 1 2)]
             (AudioBuffer.AudioBuffer AudioBuffer.default_maxSizeBytes) in
  let r1 := AudioBuffer.PopMultiple 40 1 b in
  let r2 := AudioBuffer.PopMultiple 40 1 (snd r1) in
  0 <= 1
  /\ AudioBuffer.PopMultiple 40 (1 + 1) b = (fst r1 ++ fst r2, snd r2)
  /\ map AudioChunk.data (fst (AudioBuffer.PopMultiple 40 (1 + 1) b)) = [[1]; [2]].
Proof.
  split; [lia|]. split; [|reflexivity].
  apply (proj1 (X4_batch_pops_compose 40 1 1 _ ltac:(lia) ltac:(lia))).
Defined.

(** A chunk of 42 bytes under a budget of 100 stays; under a budget of 41
    it is dropped by the push that added it. *)
Lemma X5_push_keeps_or_drops_new_chunk_witness :
  0 <= 40
  /\ AudioBuffer.accounted 40 (AudioBuffer.AudioBuffer 100)
  /\ AudioBuffer.accounted 40 (AudioBuffer.AudioBuffer 41)
  /\ (exists front,
        AudioBuffer.chunks_ (AudioBuffer.Push 40 [7] 48000 1 0 (AudioBuffer.AudioBuffer 100))
        = front ++ [AudioChunk.Build [7] 0 48000 1])
  /\ AudioBuffer.chunks_ (AudioBuffer.Push 40 [7] 48000 1 0 (AudioBuffer.AudioBuffer 41))
     = [].
Proof.
  split; [lia|]. split; [reflexivity|]. split; [reflexivity|]. split.
  - apply (proj1 (X5_push_keeps_or_drops_new_chunk 40 ltac:(lia) 7 [] 48000 1 0
                    (AudioBuffer.AudioBuffer 100) eq_refl eq_refl)).
    vm_compute. discriminate.
  - apply (proj2 (X5_push_keeps_or_drops_new_chunk 40 ltac:(lia) 7 [] 48000 1 0
                    (AudioBuffer.AudioBuffer 41) eq_refl eq_refl)).
    vm_compute. reflexivity.
Defined.

(** Two 16-bit mono samples, 1 and -1. *)
Lemma X6_pcm16_passthrough_witness :
  let input := AudioFormatConverter.sample_of
                 [x01; x00; xff; xff]
                 (AudioFormatConverter.format_of 1 16 false false) in
  AudioFormat.bitsPerSample (AudioSample.format input) = 16
  /\ Z.of_nat (length (AudioSample.data input)) mod 2 = 0
  /\ exists samples,
       AudioFormatConverter.ConvertToPCM16 input 48000 1 = Value samples
       /\ flat_map AudioFormatConverter.int16_bytes samples = AudioSample.data input
       /\ Z.of_nat (length samples) = Z.of_nat (length (AudioSample.data input)) / 2.
Proof.
  split; [reflexivity|]. split; [reflexivity|].
  apply (X6_pcm16_passthrough
           (AudioFormatConverter.sample_of
              [x01; x00; xff; xff]
              (AudioFormatConverter.format_of 1 16 false false)) 48000 1);
    reflexivity.
Defined.

(** Three bytes at 16 bits per sample. *)
Lemma X7_odd_length_16bit_witness :
  let input := AudioFormatConverter.sample_of
                 [x01; x00; xff]
                 (AudioFormatConverter.format_of 1 16 false false) in
  Z.of_nat (length (AudioSample.data input)) mod 2 = 1
  /\ AudioFormatConverter.ConvertToPCM16 input 48000 1 = Undefined OutOfBounds
  /\ exists samples, AudioFormatConverter.ConvertToMonoFloat32 input = Value samples.
Proof.
  split; [reflexivity|].
  destruct (X7_odd_length_16bit
              (AudioFormatConverter.sample_of
                 [x01; x00; xff]
                 (AudioFormatConverter.format_of 1 16 false false)) 48000 1
              eq_refl eq_refl) as (Hpcm & _ & Hfloat).
  split; [exact Hpcm | exact Hfloat].
Defined.

(** Four bytes with a channel count of 0, at 32 and at 16 bits per
    sample. *)
Lemma X8_zero_channels_witness :
  let int32 := AudioFormatConverter.sample_of
                 [x01; x00; xff; xff]
                 (AudioFormatConverter.format_of 0 32 false false) in
  let int16 := AudioFormatConverter.sample_of
                 [x01; x00; xff; xff]
                 (AudioFormatConverter.format_of 0 16 false false) in
  AudioFormat.channels (AudioSample.format int32) = 0
  /\ AudioFormat.channels (AudioSample.format int16) = 0
  /\ AudioFormatConverter.ConvertToMonoFloat32 int32 = Undefined DivisionByZero
  /\ exists samples, AudioFormatConverter.ConvertToMonoFloat32 int16 = Value samples.
Proof.
  split; [reflexivity|]. split; [reflexivity|]. split.
  - apply (proj1 (X8_zero_channels
                    (AudioFormatConverter.sample_of
                       [x01; x00; xff; xff]
                       (AudioFormatConverter.format_of 0 32 false false))
                    ltac:(discriminate) eq_refl)).
    reflexivity.
  - apply (proj2 (X8_zero_channels
                    (AudioFormatConverter.sample_of
                       [x01; x00; xff; xff]
                       (AudioFormatConverter.format_of 0 16 false false))
                    ltac:(discriminate) eq_refl)).
    cbn. discriminate.
Defined.

Lemma X9_16bit_to_float_exact_witness :
  let input := AudioFormatConverter.sample_of
                 [x01; x00; xff; xff]
                 (AudioFormatConverter.format_of 1 16 false false) in
  AudioFormat.channels (AudioSample.format input) <= 1
  /\ exists floats,
       AudioFormatConverter.ConvertToMonoFloat32 input = Value floats
       /\ Forall2 (fun x z => AudioFormatConverter.is_dyadic x z 15 = true) floats [1; -1]
       /\ Forall (fun x => SFleb Float32.minus_one x = true
                           /\ SFltb x Float32.one = true) floats.
Proof.
  split; [cbn; lia|].
  apply (X9_16bit_to_float_exact
           (AudioFormatConverter.sample_of
              [x01; x00; xff; xff]
              (AudioFormatConverter.format_of 1 16 false false)) eq_refl).
  cbn. lia.
Defined.

Lemma X10_float_round_trip_witness :
  let input := AudioFormatConverter.sample_of
                 [x01; x00; xff; xff]
                 (AudioFormatConverter.format_of 1 16 false false) in
  AudioFormat.channels (AudioSample.format input) <= 1
  /\ exists floats,
       AudioFormatConverter.ConvertToMonoFloat32 input = Value floats
       /\ AudioFormatConverter.FloatToInt16 floats = [1; -1].
Proof.
  split; [cbn; lia|].
  destruct (X10_float_round_trip
              (AudioFormatConverter.sample_of
                 [x01; x00; xff; xff]
                 (AudioFormatConverter.format_of 1 16 false false)) 48000 1
              eq_refl ltac:(cbn; lia)) as (floats & Hconv & Hback & _).
  exists floats. split; [exact Hconv | exact Hback].
Defined.

(** One stereo frame of 16-bit samples and one sample more. *)
Lemma X11_one_float_per_frame_witness :
  let input := AudioFormatConverter.sample_of
                 [x01; x00; xff; xff; x02; x00]
                 (AudioFormatConverter.format_of 2 16 false false) in
  1 <= AudioFormat.channels (AudioSample.format input)
  /\ Z.of_nat (length (AudioSample.data input)) < 2 ^ 64
  /\ (exists floats,
        AudioFormatConverter.ConvertToMonoFloat32 input = Value floats
        /\ Z.of_nat (length floats) = 1
        /\ AudioFormatConverter.ConvertToMonoFloat32
             (AudioFormatConverter.sample_of
                [x01; x00; xff; xff]
                (AudioFormatConverter.format_of 2 16 false false))
           = Value floats)
  /\ AudioFormatConverter.float32_step1 input
     = Value (Some (map ConverterFacts.float_of_int16 [1; -1; 2])).
Proof.
  split; [cbn; lia|]. split; [reflexivity|].
  destruct (X11_one_float_per_frame
              (AudioFormatConverter.sample_of
                 [x01; x00; xff; xff; x02; x00]
                 (AudioFormatConverter.format_of 2 16 false false))
              (or_introl eq_refl) ltac:(cbn; lia) eq_refl) as [Hframes Hstep1].
  split; [exact Hframes | exact (Hstep1 eq_refl)].
Defined.

Lemma X12_int32_keeps_upper_half_witness :
  Forall is_int32 [65536; -1]
  /\ AudioFormatConverter.Int32ToInt16 [65536; -1] = [1; -1].
Proof.
  assert (Hall : Forall is_int32 [65536; -1])
    by (repeat constructor; unfold is_int32; lia).
  split; [exact Hall|].
  apply (proj1 X12_int32_keeps_upper_half [65536; -1] Hall).
Defined.

Lemma X13_stereo_of_identical_channels_witness :
  Forall is_int16 [100; -200]
  /\ AudioFormatConverter.StereoToMono [100; 100; -200; -200] = [100; -200].
Proof.
  assert (Hall : Forall is_int16 [100; -200])
    by (repeat constructor; unfold is_int16; lia).
  split; [exact Hall|].
  apply (X13_stereo_of_identical_channels [100; -200] Hall).
Defined.

Lemma X14_identical_channels_to_mono_witness :
  Forall is_int16 [100; -200]
  /\ AudioFormatConverter.ConvertToMonoFloat32
       (AudioFormatConverter.sample_of
          (flat_map AudioFormatConverter.int16_bytes [100; 100; -200; -200])
          (AudioFormatConverter.format_of 2 16 false false))
     = Value (map ConverterFacts.float_of_int16 [100; -200]).
Proof.
  assert (Hall : Forall is_int16 [100; -200])
    by (repeat constructor; unfold is_int16; lia).
  split; [exact Hall|].
  apply (X14_identical_channels_to_mono 2 [100; -200] (or_intror (or_introl eq_refl)) Hall).
Defined.

Lemma X15_moving_average_shape_witness :
  Forall is_int16 [1; 2; 3; 4; 5]
  /\ exists output,
       AudioFormatConverter.MovingAverageFilter [1; 2; 3; 4; 5] 3 = Value output
       /\ length output = 5%nat.
Proof.
  assert (Hall : Forall is_int16 [1; 2; 3; 4; 5])
    by (repeat constructor; unfold is_int16; lia).
  split; [exact Hall|].
  destruct (proj2 (proj2 (X15_moving_average_shape [1; 2; 3; 4; 5] 3))
              Hall ltac:(lia) eq_refl) as (output & Hrun & Hlen & _).
  exists output. split; [exact Hrun | exact Hlen].
Defined.

Lemma X16_moving_average_nonnegative_witness :
  Forall (fun x => 0 <= x <= 32767) [1; 2; 3; 4; 5]
  /\ AudioFormatConverter.MovingAverageFilter [1; 2; 3; 4; 5] 3 = Value [1; 2; 3; 4; 4].
Proof.
  assert (Hall : Forall (fun x => 0 <= x <= 32767) [1; 2; 3; 4; 5])
    by (repeat constructor; lia).
  split; [exact Hall|].
  apply (proj1 (X16_moving_average_nonnegative [1; 2; 3; 4; 5] 3 Hall
                  ltac:(lia) eq_refl)).
Defined.

Lemma X17_moving_average_negative_witness :
  -32768 <= -3 < 0
  /\ AudioFormatConverter.MovingAverageFilter [-3; -3; -3] 3 = Value [-3; 21842; -3].
Proof.
  split; [lia|]. apply (X17_moving_average_negative (-3)). lia.
Defined.

(** A capture of two 16-bit mono samples, then both reads. *)
Lemma X18_addon_float32_queue_only_witness :
  let sample := AudioFormatConverter.sample_of
                  [x01; x00; xff; xff]
                  (AudioFormatConverter.format_of 1 16 false false) in
  let calls := [AudioCaptureWrapper.CallOnAudioData sample 0;
                AudioCaptureWrapper.CallGetBufferedAudio;
                AudioCaptureWrapper.CallGetBufferedFloat32Audio] in
  let s' := AudioCaptureWrapper.Session
              (Some (AudioBuffer.Build [] [] (5 * 1024 * 1024) 0))
              (map ConverterFacts.float_of_int16 [1; -1]) [] in
  AudioCaptureWrapper.run 40 calls (AudioCaptureWrapper.start true) = Value s'
  /\ AudioCaptureWrapper.pcm16Out s' = []
  /\ match AudioCaptureWrapper.wrapper s' with
     | Some b => true = true /\ AudioCaptureWrapper.float32_only b
     | None => true = false /\ AudioCaptureWrapper.float32Out s' = []
     end.
Proof.
  split; [reflexivity|].
  apply (X18_addon_float32_queue_only 40 true
           [AudioCaptureWrapper.CallOnAudioData
              (AudioFormatConverter.sample_of
                 [x01; x00; xff; xff]
                 (AudioFormatConverter.format_of 1 16 false false)) 0;
            AudioCaptureWrapper.CallGetBufferedAudio;
            AudioCaptureWrapper.CallGetBufferedFloat32Audio]).
  reflexivity.
Defined.

(** Two captures with a read between them. *)
Lemma X19_addon_stream_preserved_witness :
  let sample := AudioFormatConverter.sample_of
                  [x01; x00; xff; xff]
                  (AudioFormatConverter.format_of 1 16 false false) in
  let calls := [AudioCaptureWrapper.CallOnAudioData sample 0;
                AudioCaptureWrapper.CallGetBufferedFloat32Audio;
                AudioCaptureWrapper.CallOnAudioData sample 1] in
  Forall AudioCaptureWrapper.converts calls
  /\ Forall (fun c => AudioCaptureWrapper.is_clear c = false) calls
  /\ exists s',
       AudioCaptureWrapper.run 40 calls (AudioCaptureWrapper.start true) = Value s'
       /\ AudioCaptureWrapper.float32Out s'
          ++ AudioCaptureWrapper.pending (AudioCaptureWrapper.wrapper s')
          = map ConverterFacts.float_of_int16 [1; -1; 1; -1].
Proof.
  cbv zeta.
  assert (Hconv : Forall AudioCaptureWrapper.converts
                    [AudioCaptureWrapper.CallOnAudioData
                       (AudioFormatConverter.sample_of
                          [x01; x00; xff; xff]
                          (AudioFormatConverter.format_of 1 16 false false)) 0;
                     AudioCaptureWrapper.CallGetBufferedFloat32Audio;
                     AudioCaptureWrapper.CallOnAudioData
                       (AudioFormatConverter.sample_of
                          [x01; x00; xff; xff]
                          (AudioFormatConverter.format_of 1 16 false false)) 1]).
  { repeat constructor; eexists; reflexivity. }
  split; [exact Hconv|]. split; [repeat constructor|].
  apply (X19_addon_stream_preserved 40 _ Hconv). repeat constructor.
Defined.

(** One chunk of one float waiting. *)
Lemma X20_read_drains_the_buffer_witness :
  let b := AudioBuffer.PushFloat32 40 [Float32.one] 48000 1 0
             (AudioBuffer.AudioBuffer (5 * 1024 * 1024)) in
  AudioCaptureWrapper.float32_only b
  /\ Z.of_nat (length (AudioBuffer.float32Chunks_ b)) <= 1000
  /\ exists b',
       snd (AudioCaptureWrapper.GetBufferedFloat32Audio (Some b)) = Some b'
       /\ fst (AudioCaptureWrapper.GetBufferedFloat32Audio (Some b)) = [Float32.one]
       /\ AudioBuffer.GetSize b' = 0.
Proof.
  cbv zeta.
  assert (Hb : AudioCaptureWrapper.float32_only
                 (AudioBuffer.PushFloat32 40 [Float32.one] 48000 1 0
                    (AudioBuffer.AudioBuffer (5 * 1024 * 1024)))).
  { split; [reflexivity|]. split; [reflexivity|]. split; [|reflexivity].
    repeat constructor. discriminate. }
  assert (Hlen : Z.of_nat (length (AudioBuffer.float32Chunks_
                   (AudioBuffer.PushFloat32 40 [Float32.one] 48000 1 0
                      (AudioBuffer.AudioBuffer (5 * 1024 * 1024))))) <= 1000)
    by (cbn; lia).
  split; [exact Hb|]. split; [exact Hlen|].
  destruct (X20_read_drains_the_buffer _ Hb) as (b' & Hsnd & _ & _ & Hall).
  destruct (Hall Hlen) as (Hfst & _ & Hsize).
  exists b'. split; [exact Hsnd|]. split; [|exact Hsize].
  rewrite Hfst. reflexivity.
Defined.
